(** * HackingCo workflow: task orchestrator and hive mind

    A shallow embedding of two classes of the repository,

    - [TaskOrchestrator] with its [PriorityTaskQueue]
      (the task orchestration engine), and
    - [HiveMind] (the shared-knowledge and consensus module),

    followed by the properties of the specification that concern them.

    Modelling conventions.

    - JavaScript objects that are shared by reference (task instances sit
      in the task map, in the ready queue and in the closures of running
      executions at the same time) live in an explicit heap; maps and
      queues hold references into it.
    - A JavaScript [Map] or [Set] iterates in insertion order, so both are
      association lists / lists without duplicates, with the update
      functions keeping the position of an existing key.
    - [Date.now()] and generated uuids are arguments of the operation that
      reads them; one operation reads one instant.
    - Numbers that are counts or millisecond instants are in [Z]; delays,
      confidences and thresholds are rationals ([Q]), with the two
      non-finite values a division can produce made explicit where the
      code can reach them.
    - [emit] appends to an event log; listeners are assumed neither to
      throw nor to call back into the emitting object.
    - Every [async] method is run to completion as one atomic step, except
      [executeTask], which is split at its single suspension point
      ([await agent.execute(task)]) into the part that starts the
      execution and the part that runs when the agent settles. *)

From Stdlib Require Import ZArith QArith Qpower Lia Bool Ascii String ssreflect.
From stdpp Require Import base option list sets sorting relations strings.

#[local] Set Warnings "-rewrite-rw,-clear-no-such-hyp".

Open Scope Z_scope.

(** ** Insertion-ordered maps and sets of JavaScript *)

Module JsMap.
Section Ops.
Context {V : Type}.

Fixpoint get (k : string) (m : list (string * V)) : option V :=
  match m with
  | [] => None
  | (k', v) :: m' => if String.eqb k k' then Some v else get k m'
  end.

(** [Map.prototype.set]: an existing key keeps its position. *)
Fixpoint set (k : string) (v : V) (m : list (string * V)) : list (string * V) :=
  match m with
  | [] => [(k, v)]
  | (k', v') :: m' =>
    if String.eqb k k' then (k, v) :: m' else (k', v') :: set k v m'
  end.

(** [Map.prototype.delete]. A map has one entry per key; on such a
    list this removes that entry. *)
Fixpoint delete (k : string) (m : list (string * V)) : list (string * V) :=
  match m with
  | [] => []
  | (k', v') :: m' =>
    if String.eqb k k' then delete k m' else (k', v') :: delete k m'
  end.

Definition has (k : string) (m : list (string * V)) : bool :=
  match get k m with Some _ => true | None => false end.

Definition size (m : list (string * V)) : Z := Z.of_nat (length m).

Definition keys (m : list (string * V)) : list string := fst <$> m.
Definition values (m : list (string * V)) : list V := snd <$> m.
End Ops.
End JsMap.

Module JsSet.
Definition has (x : string) (s : list string) : bool :=
  existsb (String.eqb x) s.

Definition add (x : string) (s : list string) : list string :=
  if has x s then s else s ++ [x].

Fixpoint delete (x : string) (s : list string) : list string :=
  match s with
  | [] => []
  | y :: s' => if String.eqb x y then s' else y :: delete x s'
  end.

(** [new Set(array)] *)
Definition of_list (l : list string) : list string :=
  fold_left (fun s x => add x s) l [].

Definition size (s : list string) : Z := Z.of_nat (length s).
End JsSet.

(** Outcome of a method that may [throw]. *)
Inductive Result (A : Type) : Type :=
  | Ok (a : A)
  | Throw (message : string).
Arguments Ok {A} a.
Arguments Throw {A} message.

(** ** The task orchestrator *)

Module Orchestrator.

Inductive Priority := CRITICAL | HIGH | MEDIUM | LOW.

#[global] Instance Priority_eq_dec : EqDecision Priority.
Proof. solve_decision. Defined.

Inductive TaskStatus :=
  | PENDING | ASSIGNED | RUNNING | COMPLETED | FAILED | TIMEOUT | CANCELLED.

Inductive BackoffStrategy := LINEAR | EXPONENTIAL | CONSTANT | CUSTOM.

Inductive TaskType :=
  | PROCESS | ANALYZE | TRANSFORM | VALIDATE | AGGREGATE | CUSTOM_TASK.

Definition TaskStatus_eqb (a b : TaskStatus) : bool :=
  match a, b with
  | PENDING, PENDING | ASSIGNED, ASSIGNED | RUNNING, RUNNING
  | COMPLETED, COMPLETED | FAILED, FAILED | TIMEOUT, TIMEOUT
  | CANCELLED, CANCELLED => true
  | _, _ => false
  end.

Record RetryPolicy := mkRetryPolicy {
  maxRetries : Z;
  backoffStrategy : BackoffStrategy;
  initialDelay : Q;
  maxDelay : Q
}.

Record TaskMetrics := mkTaskMetrics {
  m_startTime : option Z;
  m_endTime : Z;
  m_duration : Z;
  m_retries : Z
}.

Record TaskResult := mkTaskResult {
  r_taskId : string;
  r_agentId : option string;
  r_status : TaskStatus;
  r_output : option string;
  r_error : option string;
  r_metrics : option TaskMetrics;
  r_timestamp : Z
}.

(** The caller's [Task]. [t_id] is [None] or the empty string when the
    caller gave no id; [t_dependencies] is
    [task.requirements?.dependencies || []]. The fields that the
    orchestrator passes on without reading them ([input], [deadline],
    [metadata], the capabilities and resources of [requirements]) are
    left out. *)
Record Task := mkTask {
  t_id : option string;
  t_name : string;
  t_type : option TaskType;
  t_priority : option Priority;
  t_dependencies : list string
}.

Record TaskInstance := mkTaskInstance {
  id : string;
  name : string;
  type : option TaskType;
  priority : option Priority;
  status : TaskStatus;
  assignedAgent : option string;
  attempts : Z;
  results : list TaskResult;
  dependencies : list string;
  dependents : list string;
  startTime : option Z;
  endTime : option Z;
  nextRetryTime : option Z
}.

(** Field updates of a task instance. *)
Definition set_status (v : TaskStatus) (t : TaskInstance) : TaskInstance :=
  mkTaskInstance (id t) (name t) (type t) (priority t) v (assignedAgent t)
    (attempts t) (results t) (dependencies t) (dependents t)
    (startTime t) (endTime t) (nextRetryTime t).
Definition set_assignedAgent (v : option string) (t : TaskInstance) : TaskInstance :=
  mkTaskInstance (id t) (name t) (type t) (priority t) (status t) v
    (attempts t) (results t) (dependencies t) (dependents t)
    (startTime t) (endTime t) (nextRetryTime t).
Definition set_attempts (v : Z) (t : TaskInstance) : TaskInstance :=
  mkTaskInstance (id t) (name t) (type t) (priority t) (status t) (assignedAgent t)
    v (results t) (dependencies t) (dependents t)
    (startTime t) (endTime t) (nextRetryTime t).
Definition set_results (v : list TaskResult) (t : TaskInstance) : TaskInstance :=
  mkTaskInstance (id t) (name t) (type t) (priority t) (status t) (assignedAgent t)
    (attempts t) v (dependencies t) (dependents t)
    (startTime t) (endTime t) (nextRetryTime t).
Definition set_dependencies (v : list string) (t : TaskInstance) : TaskInstance :=
  mkTaskInstance (id t) (name t) (type t) (priority t) (status t) (assignedAgent t)
    (attempts t) (results t) v (dependents t)
    (startTime t) (endTime t) (nextRetryTime t).
Definition set_dependents (v : list string) (t : TaskInstance) : TaskInstance :=
  mkTaskInstance (id t) (name t) (type t) (priority t) (status t) (assignedAgent t)
    (attempts t) (results t) (dependencies t) v
    (startTime t) (endTime t) (nextRetryTime t).
Definition set_startTime (v : option Z) (t : TaskInstance) : TaskInstance :=
  mkTaskInstance (id t) (name t) (type t) (priority t) (status t) (assignedAgent t)
    (attempts t) (results t) (dependencies t) (dependents t)
    v (endTime t) (nextRetryTime t).
Definition set_endTime (v : option Z) (t : TaskInstance) : TaskInstance :=
  mkTaskInstance (id t) (name t) (type t) (priority t) (status t) (assignedAgent t)
    (attempts t) (results t) (dependencies t) (dependents t)
    (startTime t) v (nextRetryTime t).
Definition set_nextRetryTime (v : option Z) (t : TaskInstance) : TaskInstance :=
  mkTaskInstance (id t) (name t) (type t) (priority t) (status t) (assignedAgent t)
    (attempts t) (results t) (dependencies t) (dependents t)
    (startTime t) (endTime t) v.

(** *** The heap of task instances *)

Abbreviation ref := nat (only parsing).
Abbreviation Heap := (list TaskInstance) (only parsing).

(** [task.f = v] on the object behind reference [r]. *)
Definition update (r : ref) (f : TaskInstance -> TaskInstance) (h : Heap) : Heap :=
  alter f r h.

Definition status_of (h : Heap) (r : ref) : option TaskStatus :=
  status <$> h !! r.

Definition id_is (h : Heap) (taskId : string) (r : ref) : bool :=
  match h !! r with
  | Some t => String.eqb (id t) taskId
  | None => false
  end.

(** *** [TaskQueue], [PriorityTaskQueue] and the simple queue

    The priority queue keeps one array per priority, visited in
    [priorityOrder]. *)

Definition priorityOrder : list Priority := [CRITICAL; HIGH; MEDIUM; LOW].

Inductive TaskQueue :=
  | PriorityTaskQueue (critical high medium low : list ref)
  | SimpleQueue (queue : list ref).

Definition tier (p : Priority) (q : TaskQueue) : list ref :=
  match q, p with
  | PriorityTaskQueue c _ _ _, CRITICAL => c
  | PriorityTaskQueue _ h _ _, HIGH => h
  | PriorityTaskQueue _ _ m _, MEDIUM => m
  | PriorityTaskQueue _ _ _ l, LOW => l
  | SimpleQueue _, _ => []
  end.

Definition set_tier (p : Priority) (v : list ref) (q : TaskQueue) : TaskQueue :=
  match q, p with
  | PriorityTaskQueue _ h m l, CRITICAL => PriorityTaskQueue v h m l
  | PriorityTaskQueue c _ m l, HIGH => PriorityTaskQueue c v m l
  | PriorityTaskQueue c h _ l, MEDIUM => PriorityTaskQueue c h v l
  | PriorityTaskQueue c h m _, LOW => PriorityTaskQueue c h m v
  | SimpleQueue _, _ => q
  end.

(** [add]: [queue.push(task)] on the array of [task.priority]; a task
    whose priority names no array is dropped. *)
Definition queue_add (h : Heap) (r : ref) (q : TaskQueue) : TaskQueue :=
  match q with
  | PriorityTaskQueue _ _ _ _ =>
      match h !! r ≫= priority with
      | Some p => set_tier p (tier p q ++ [r]) q
      | None => q
      end
  | SimpleQueue l => SimpleQueue (l ++ [r])
  end.

(** [findIndex] then [splice(index, 1)] on one array. *)
Fixpoint remove_first (f : ref -> bool) (l : list ref) : option (list ref) :=
  match l with
  | [] => None
  | x :: l' =>
      if f x then Some l'
      else match remove_first f l' with
           | Some l'' => Some (x :: l'')
           | None => None
           end
  end.

(** [remove]: the first array holding the id loses its first such
    element; [break] leaves the later arrays alone. *)
Fixpoint remove_tiers (h : Heap) (taskId : string) (ps : list Priority)
    (q : TaskQueue) : TaskQueue :=
  match ps with
  | [] => q
  | p :: ps' =>
      match remove_first (id_is h taskId) (tier p q) with
      | Some l => set_tier p l q
      | None => remove_tiers h taskId ps' q
      end
  end.

Definition queue_remove (h : Heap) (taskId : string) (q : TaskQueue) : TaskQueue :=
  match q with
  | PriorityTaskQueue _ _ _ _ => remove_tiers h taskId priorityOrder q
  | SimpleQueue l =>
      match remove_first (id_is h taskId) l with
      | Some l' => SimpleQueue l'
      | None => q
      end
  end.

(** [getNext]: [shift] on the first non-empty array in [priorityOrder]. *)
Fixpoint getNext_tiers (ps : list Priority) (q : TaskQueue)
    : option (ref * TaskQueue) :=
  match ps with
  | [] => None
  | p :: ps' =>
      match tier p q with
      | r :: rest => Some (r, set_tier p rest q)
      | [] => getNext_tiers ps' q
      end
  end.

Definition queue_getNext (q : TaskQueue) : option (ref * TaskQueue) :=
  match q with
  | PriorityTaskQueue _ _ _ _ => getNext_tiers priorityOrder q
  | SimpleQueue [] => None
  | SimpleQueue (r :: rest) => Some (r, SimpleQueue rest)
  end.

Definition queue_size (q : TaskQueue) : Z :=
  match q with
  | PriorityTaskQueue c h m l =>
      Z.of_nat (length c) + Z.of_nat (length h)
      + Z.of_nat (length m) + Z.of_nat (length l)
  | SimpleQueue l => Z.of_nat (length l)
  end.

Definition queue_clear (q : TaskQueue) : TaskQueue :=
  match q with
  | PriorityTaskQueue _ _ _ _ => PriorityTaskQueue [] [] [] []
  | SimpleQueue _ => SimpleQueue []
  end.

Definition queue_elements (q : TaskQueue) : list ref :=
  match q with
  | PriorityTaskQueue c h m l => c ++ h ++ m ++ l
  | SimpleQueue l => l
  end.

(** *** Events, configuration and state *)

Inductive Event :=
  | EvStarted | EvStopped | EvPaused | EvResumed
  | TaskQueued (taskId : string)
  | TaskWaiting (taskId : string)
  | AgentRegistered (agentId : string)
  | AgentUnregistered (agentId : string)
  | TaskCancelRequested (taskId agentId : string)
  | TaskCancelled (taskId : string)
  | TaskAssigned (taskId agentId : string)
  | TaskStarted (taskId agentId : string)
  | TaskCompleted (result : TaskResult)
  | TaskUnblocked (taskId : string)
  | TaskFailed (taskId : string) (error : option string)
  | TaskScheduledRetry (taskId : string) (at_ : Z)
  | TaskCascadeFailed (taskId : string)
  | TaskRetry (taskId : string)
  | TaskDependenciesMet (taskId : string)
  | TaskTimeout (taskId : string).

(** [IStrategy.assignTask(task, agents)] is a collaborator of the
    orchestrator: it sees the task object and the agents still available
    and answers with one agent or [null]. Agents are known to the
    orchestrator by their [id] only. *)
Record TaskOrchestratorConfig := mkConfig {
  strategy : TaskInstance -> list string -> option string;
  retryPolicy : option RetryPolicy;
  timeout : Z;
  maxQueueSize : Z;
  priorityQueueEnabled : bool
}.

Definition defaultRetryPolicy : RetryPolicy :=
  mkRetryPolicy 3 EXPONENTIAL (1000 # 1) (60000 # 1).

Record State := mkState {
  config : TaskOrchestratorConfig;
  heap : Heap;
  tasks : list (string * ref);
  queue : TaskQueue;
  agents : list (string * string);
  running : bool;
  dependencyGraph : list (string * ref);
  events : list Event
}.

Definition with_heap (v : Heap) (s : State) : State :=
  mkState (config s) v (tasks s) (queue s) (agents s) (running s)
    (dependencyGraph s) (events s).
Definition with_tasks (v : list (string * ref)) (s : State) : State :=
  mkState (config s) (heap s) v (queue s) (agents s) (running s)
    (dependencyGraph s) (events s).
Definition with_queue (v : TaskQueue) (s : State) : State :=
  mkState (config s) (heap s) (tasks s) v (agents s) (running s)
    (dependencyGraph s) (events s).
Definition with_agents (v : list (string * string)) (s : State) : State :=
  mkState (config s) (heap s) (tasks s) (queue s) v (running s)
    (dependencyGraph s) (events s).
Definition with_running (v : bool) (s : State) : State :=
  mkState (config s) (heap s) (tasks s) (queue s) (agents s) v
    (dependencyGraph s) (events s).
Definition with_dependencyGraph (v : list (string * ref)) (s : State) : State :=
  mkState (config s) (heap s) (tasks s) (queue s) (agents s) (running s)
    v (events s).

Definition emit (e : Event) (s : State) : State :=
  mkState (config s) (heap s) (tasks s) (queue s) (agents s) (running s)
    (dependencyGraph s) (events s ++ [e]).

(** Assignment to a field of the object behind [r]. *)
Definition modify (r : ref) (f : TaskInstance -> TaskInstance) (s : State) : State :=
  with_heap (update r f (heap s)) s.

(** [this.queue.add(task)] *)
Definition enqueue (r : ref) (s : State) : State :=
  with_queue (queue_add (heap s) r (queue s)) s.

(** The constructor. *)
Definition new (cfg : TaskOrchestratorConfig) : State :=
  mkState cfg [] []
    (if priorityQueueEnabled cfg then PriorityTaskQueue [] [] [] []
     else SimpleQueue [])
    [] false [] [].

(** *** Lifecycle *)

Definition start (s : State) : State :=
  if running s then s else emit EvStarted (with_running true s).

Definition stop (s : State) : State :=
  if running s then emit EvStopped (with_running false s) else s.

Definition pause (s : State) : State := emit EvPaused (with_running false s).

Definition resume (s : State) : State := emit EvResumed (with_running true s).

(** *** Dependencies *)

(** [canQueueTask]: every dependency is in the task map and COMPLETED. *)
Definition dependency_completed (s : State) (depId : string) : bool :=
  match JsMap.get depId (tasks s) with
  | Some d =>
      match heap s !! d with
      | Some dep => TaskStatus_eqb (status dep) COMPLETED
      | None => false
      end
  | None => false
  end.

Definition canQueueTask (s : State) (r : ref) : bool :=
  match heap s !! r with
  | Some task => forallb (dependency_completed s) (dependencies task)
  | None => true
  end.

(** [updateDependencyGraph]: the graph entry shares the task's own
    dependency set; every dependency found in the task map learns of its
    new dependent. *)
Definition add_dependent (taskId : string) (s : State) (depId : string) : State :=
  match JsMap.get depId (tasks s) with
  | Some d => modify d (fun dep => set_dependents (JsSet.add taskId (dependents dep)) dep) s
  | None => s
  end.

Definition updateDependencyGraph (r : ref) (s : State) : State :=
  match heap s !! r with
  | Some task =>
      let s1 := with_dependencyGraph (JsMap.set (id task) r (dependencyGraph s)) s in
      fold_left (add_dependent (id task)) (dependencies task) s1
  | None => s
  end.

(** *** [submitTask] *)

Definition truthy_id (o : option string) : option string :=
  match o with
  | Some EmptyString => None
  | _ => o
  end.

Definition new_instance (task : Task) (uuid : string) : TaskInstance :=
  mkTaskInstance
    (match truthy_id (t_id task) with
     | Some i => i
     | None => "task-" +:+ uuid
     end)
    (t_name task) (t_type task) (t_priority task)
    PENDING None 0 [] (JsSet.of_list (t_dependencies task)) []
    None None None.

Definition submitTask (task : Task) (uuid : string) (s : State) : Result State :=
  if queue_size (queue s) >=? maxQueueSize (config s) then
    Throw "Task queue is full"
  else
    let instance := new_instance task uuid in
    let r := length (heap s) in
    let s1 := with_heap (heap s ++ [instance]) s in
    let s2 := with_tasks (JsMap.set (id instance) r (tasks s1)) s1 in
    let s3 := updateDependencyGraph r s2 in
    if canQueueTask s3 r
    then Ok (emit (TaskQueued (id instance)) (enqueue r s3))
    else Ok (emit (TaskWaiting (id instance)) s3).

(** *** Queries *)

(** [this.tasks.get(taskId)] *)
Definition task_of (taskId : string) (s : State) : option TaskInstance :=
  JsMap.get taskId (tasks s) ≫= (fun r => heap s !! r).

Definition getTaskStatus (taskId : string) (s : State) : TaskStatus :=
  match task_of taskId s with
  | Some task => status task
  | None => CANCELLED
  end.

Definition getTaskResult (taskId : string) (s : State) : option TaskResult :=
  match task_of taskId s with
  | Some task => last (results task)
  | None => None
  end.

(** *** Agents *)

(** [registerAgent]; the [processTasks] that it schedules with
    [setImmediate] is a tick of its own. *)
Definition registerAgent (agentId : string) (s : State) : State :=
  emit (AgentRegistered agentId)
    (with_agents (JsMap.set agentId agentId (agents s)) s).

Definition reassignable (s : State) (agentId : string) (r : ref) : bool :=
  match heap s !! r with
  | Some t =>
      match assignedAgent t with
      | Some a => String.eqb a agentId && TaskStatus_eqb (status t) RUNNING
      | None => false
      end
  | None => false
  end.

Definition reassign (s : State) (r : ref) : State :=
  enqueue r
    (modify r (fun t => set_status PENDING (set_assignedAgent None t)) s).

Definition unregisterAgent (agentId : string) (s : State) : State :=
  let s1 := with_agents (JsMap.delete agentId (agents s)) s in
  let tasksToReassign := filter (fun r => reassignable s1 agentId r = true)
                           (JsMap.values (tasks s1)) in
  emit (AgentUnregistered agentId) (fold_left reassign tasksToReassign s1).

(** *** [cancelTask]

    The method calls itself on every dependent before it returns, so it
    need not terminate on a cyclic dependents relation (a task that
    lists itself as a dependency is its own dependent). [fuel] bounds
    the depth of the recursion; [None] is the call that never returns. *)

Definition request_cancel (taskId : string) (task : TaskInstance) (s : State) : State :=
  if TaskStatus_eqb (status task) RUNNING then
    match assignedAgent task ≫= (fun a => JsMap.get a (agents s)) with
    | Some agent => emit (TaskCancelRequested taskId agent) s
    | None => s
    end
  else s.

(** [for (const dependentId of task.dependents) await cancel(dependentId)] *)
Definition cancel_each (cancel : string -> State -> option State)
    : list string -> State -> option State :=
  fix go (ds : list string) (st : State) : option State :=
    match ds with
    | [] => Some st
    | d :: ds' =>
        match cancel d st with
        | Some st' => go ds' st'
        | None => None
        end
    end.

Fixpoint cancelTask (fuel : nat) (taskId : string) (s : State) : option State :=
  match fuel with
  | O => None
  | S fuel' =>
      match JsMap.get taskId (tasks s) with
      | None => Some s
      | Some r =>
          match heap s !! r with
          | None => Some s
          | Some task =>
              let s1 := request_cancel taskId task s in
              let s2 := modify r (set_status CANCELLED) s1 in
              let s3 := with_queue (queue_remove (heap s2) taskId (queue s2)) s2 in
              match cancel_each (cancelTask fuel') (dependents task) s3 with
              | Some s4 => Some (emit (TaskCancelled taskId) s4)
              | None => None
              end
          end
      end
  end.

(** *** Retry policy *)

Definition shouldRetry (s : State) (task : TaskInstance) : bool :=
  match retryPolicy (config s) with
  | None => false
  | Some policy => attempts task <=? maxRetries policy
  end.

(** [Math.min] *)
Definition Math_min (a b : Q) : Q := if Qle_bool a b then a else b.

(** [Math.pow(2, n)] for an integer [n] *)
Definition Math_pow2 (n : Z) : Q := Qpower (2 # 1) n.

(** The [delay] variable of [calculateRetryDelay] after the [switch]. *)
Definition delay_before_cap (policy : RetryPolicy) (task : TaskInstance) : Q :=
  let attempt := attempts task - 1 in
  match backoffStrategy policy with
  | LINEAR => Qmult (initialDelay policy) (inject_Z attempt)
  | EXPONENTIAL => Qmult (initialDelay policy) (Math_pow2 (attempt - 1))
  | CONSTANT | CUSTOM => initialDelay policy
  end.

Definition calculateRetryDelay (policy : RetryPolicy) (task : TaskInstance) : Q :=
  Math_min (delay_before_cap policy task) (maxDelay policy).

(** [new Date(x)] keeps the integral part of a millisecond count. *)
Definition Date_of (x : Q) : Z := Z.quot (Qnum x) (Zpos (Qden x)).

(** *** Completion and failure of an execution *)

Definition unblock (taskId : string) (s : State) (dependentId : string) : State :=
  match JsMap.get dependentId (tasks s) with
  | Some d =>
      let s1 := modify d (fun dep =>
                  set_dependencies (JsSet.delete taskId (dependencies dep)) dep) s in
      if canQueueTask s1 d
      then emit (TaskUnblocked dependentId) (enqueue d s1)
      else s1
  | None => s
  end.

Definition handleTaskCompletion (r : ref) (s : State) : State :=
  match heap s !! r with
  | Some task =>
      let s1 := fold_left (unblock (id task)) (dependents task) s in
      match heap s1 !! r with
      | Some task' =>
          if Nat.eqb (length (dependents task')) 0
          then with_tasks (JsMap.delete (id task') (tasks s1)) s1
          else s1
      | None => s1
      end
  | None => s
  end.

Definition cascade_fail (s : State) (dependentId : string) : State :=
  match JsMap.get dependentId (tasks s) with
  | Some d =>
      match heap s !! d with
      | Some dependent =>
          if TaskStatus_eqb (status dependent) PENDING
          then emit (TaskCascadeFailed dependentId)
                 (modify d (set_status FAILED) s)
          else s
      | None => s
      end
  | None => s
  end.

Definition handleTaskFailure (r : ref) (result : TaskResult) (now : Z)
    (s : State) : State :=
  match heap s !! r with
  | Some task =>
      let s1 := emit (TaskFailed (id task) (r_error result)) s in
      if shouldRetry s1 task then
        match retryPolicy (config s1) with
        | Some policy =>
            let at_ := Date_of (Qplus (inject_Z now) (calculateRetryDelay policy task)) in
            emit (TaskScheduledRetry (id task) at_)
              (modify r (fun t =>
                 set_nextRetryTime (Some at_)
                   (set_assignedAgent None (set_status PENDING t))) s1)
        | None => s1
        end
      else fold_left cascade_fail (dependents task) s1
  | None => s
  end.

(** *** Assignment and execution *)

(** [executeTask] up to [await agent.execute(task)]. *)
Definition executeTask_begin (r : ref) (agent : string) (s : State) : State :=
  match heap s !! r with
  | Some task => emit (TaskStarted (id task) agent) (modify r (set_status RUNNING) s)
  | None => s
  end.

Definition assignTaskToAgent (r : ref) (agent : string) (now : Z) (s : State) : State :=
  match heap s !! r with
  | Some task =>
      let s1 := modify r (fun t =>
                  set_attempts (attempts t + 1)
                    (set_startTime (Some now)
                       (set_status ASSIGNED (set_assignedAgent (Some agent) t)))) s in
      executeTask_begin r agent (emit (TaskAssigned (id task) agent) s1)
  | None => s
  end.

(** How the promise of [agent.execute(task)] settles. *)
Inductive Settlement :=
  | Resolved (result : TaskResult)
  | Rejected (error : string).

Definition duration_of (task : TaskInstance) (endTime_ : Z) : Z :=
  match startTime task with
  | Some st => endTime_ - st
  | None => 0
  end.

(** [executeTask] from the settlement of [agent.execute(task)] on. *)
Definition executeTask_settle (r : ref) (agent : string) (o : Settlement)
    (now : Z) (s : State) : State :=
  match o with
  | Resolved result =>
      let s1 := modify r (fun t =>
                  set_results (results t ++ [result])
                    (set_status (r_status result) (set_endTime (Some now) t))) s in
      if TaskStatus_eqb (r_status result) COMPLETED
      then handleTaskCompletion r (emit (TaskCompleted result) s1)
      else handleTaskFailure r result now s1
  | Rejected error =>
      match heap s !! r with
      | Some task =>
          let result :=
            mkTaskResult (id task) (Some agent) FAILED None (Some error)
              (Some (mkTaskMetrics (startTime task) now (duration_of task now)
                       (attempts task - 1)))
              now in
          let s1 := modify r (fun t =>
                      set_results (results t ++ [result])
                        (set_status FAILED (set_endTime (Some now) t))) s in
          handleTaskFailure r result now s1
      | None => s
      end
  end.

(** [availableAgents.splice(availableAgents.indexOf(agent), 1)] *)
Fixpoint remove_agent (agent : string) (l : list string) : list string :=
  match l with
  | [] => []
  | a :: l' => if String.eqb a agent then l' else a :: remove_agent agent l'
  end.

Definition ask_strategy (s : State) (r : ref) (availableAgents : list string)
    : option string :=
  match heap s !! r with
  | Some task => strategy (config s) task availableAgents
  | None => None
  end.

(** The [while] loop of [assignTasks]. Every iteration that continues
    has taken one task out of the queue, so the number of queued tasks
    bounds the number of iterations; [None] is a loop cut short by
    [fuel]. *)
Fixpoint assignTasks_loop (fuel : nat) (now : Z) (availableAgents : list string)
    (s : State) : option State :=
  if (0 <? queue_size (queue s)) && negb (Nat.eqb (length availableAgents) 0) then
    match fuel with
    | O => None
    | S fuel' =>
        match queue_getNext (queue s) with
        | None => Some s
        | Some (r, q') =>
            let s1 := with_queue q' s in
            match ask_strategy s1 r availableAgents with
            | Some agent =>
                assignTasks_loop fuel' now (remove_agent agent availableAgents)
                  (assignTaskToAgent r agent now s1)
            | None => Some (enqueue r s1)
            end
        end
    end
  else Some s.

Definition assignTasks (now : Z) (s : State) : option State :=
  assignTasks_loop (length (queue_elements (queue s))) now
    (JsMap.values (agents s)) s.

(** *** The periodic passes *)

Definition retry_if_due (now : Z) (s : State) (r : ref) : State :=
  match heap s !! r with
  | Some task =>
      match nextRetryTime task with
      | Some at_ =>
          if TaskStatus_eqb (status task) PENDING && (at_ <=? now)
          then emit (TaskRetry (id task))
                 (modify r (set_nextRetryTime None) (enqueue r s))
          else s
      | None => s
      end
  | None => s
  end.

Definition processRetries (now : Z) (s : State) : State :=
  fold_left (retry_if_due now) (JsMap.values (tasks s)) s.

Definition queue_if_met (s : State) (r : ref) : State :=
  match heap s !! r with
  | Some task =>
      if TaskStatus_eqb (status task) PENDING
         && negb (Nat.eqb (length (dependencies task)) 0)
         && canQueueTask s r
      then emit (TaskDependenciesMet (id task)) (enqueue r s)
      else s
  | None => s
  end.

Definition checkDependencies (s : State) : State :=
  fold_left queue_if_met (JsMap.values (tasks s)) s.

Definition time_out_if_late (now : Z) (s : State) (r : ref) : State :=
  match heap s !! r with
  | Some task =>
      match startTime task with
      | Some st =>
          let elapsed := now - st in
          if TaskStatus_eqb (status task) RUNNING && (timeout (config s) <? elapsed)
          then
            let result :=
              mkTaskResult (id task) (assignedAgent task) TIMEOUT None
                (Some "Task execution timeout")
                (Some (mkTaskMetrics (startTime task) now elapsed (attempts task - 1)))
                now in
            let s1 := modify r (fun t =>
                        set_results (results t ++ [result])
                          (set_endTime (Some now) (set_status TIMEOUT t))) s in
            emit (TaskTimeout (id task)) (handleTaskFailure r result now s1)
          else s
      | None => s
      end
  | None => s
  end.

Definition checkTimeouts (now : Z) (s : State) : State :=
  fold_left (time_out_if_late now) (JsMap.values (tasks s)) s.

Definition processTasks (now : Z) (s : State) : option State :=
  if running s then
    match assignTasks now (checkDependencies (processRetries now s)) with
    | Some s' => Some (checkTimeouts now s')
    | None => None
    end
  else Some s.

End Orchestrator.

(** ** The hive mind *)

Module HiveMind.

(** *** Numbers

    Confidences are JavaScript numbers. Besides the rationals the model
    keeps the two values that the divisions of the class can produce
    from counts: [n / 0] is [Infinity] for a positive [n] and [NaN] for
    [n = 0]. *)

Inductive Num :=
  | Fin (q : Q)
  | PosInf
  | NaN.

(** [a / b] for two sizes *)
Definition div_sizes (a b : Z) : Num :=
  if b =? 0 then (if a =? 0 then NaN else PosInf)
  else Fin (Qmake a (Z.to_pos b)).

(** [x / n] for a finite [x] and a size [n] *)
Definition div_by_size (x : Q) (n : Z) : Num :=
  if n =? 0 then
    (if Qeq_bool x 0 then NaN else PosInf)
  else Fin (Qdiv x (inject_Z n)).

(** [a > b] *)
Definition gt (a b : Num) : bool :=
  match a, b with
  | Fin x, Fin y => negb (Qle_bool x y)
  | PosInf, Fin _ => true
  | _, _ => false
  end.

(** [a !== b] *)
Definition neq (a b : Num) : bool :=
  match a, b with
  | Fin x, Fin y => negb (Qeq_bool x y)
  | PosInf, PosInf => false
  | _, _ => true
  end.

(** The sign of [a - b] as a sort comparator reads it: a [NaN]
    difference counts as zero. *)
Definition sign_of_difference (a b : Num) : comparison :=
  match a, b with
  | Fin x, Fin y => Qcompare x y
  | PosInf, Fin _ => Gt
  | Fin _, PosInf => Lt
  | _, _ => Eq
  end.

(** *** Data *)

Inductive ConsensusStatus := PENDING | APPROVED | REJECTED | TIMEOUT.

Definition is_pending (st : ConsensusStatus) : bool :=
  match st with PENDING => true | _ => false end.

(** Values are opaque payloads, except the record that
    [finalizeConsensus] publishes. *)
Inductive Value :=
  | Opaque (payload : string)
  | ConsensusOutcome (proposal : string) (status : ConsensusStatus)
      (approvalRate : Q) (avgConfidence : Num).

Record KnowledgeEntry := mkEntry {
  e_id : string;
  key : string;
  value : Value;
  agentId : string;
  timestamp : Z;
  ttl : option Z;
  confidence : Num;
  votes : list (string * bool)
}.

Record Vote := mkVote {
  v_agentId : string;
  v_value : bool;
  v_confidence : Q;
  v_reasoning : option string;
  v_timestamp : Z
}.

Record ConsensusRequest := mkRequest {
  c_id : string;
  topic : string;
  proposal : string;
  requester : string;
  c_timestamp : Z;
  deadline : Z;
  c_votes : list (string * Vote);
  c_status : ConsensusStatus
}.

Record Pattern := mkPattern {
  p_id : string;
  p_name : string;
  description : string;
  occurrences : Z;
  lastSeen : Z;
  p_agents : list string;
  data : list (string * Value)
}.

Inductive Event :=
  | AgentRegistered (agent : string)
  | AgentUnregistered (agent : string)
  | KnowledgeAdded (k : string)
  | KnowledgeMerged (k : string)
  | KnowledgeShared (agent : string) (count : Z)
  | KnowledgeCleaned (count : Z)
  | MemoryPruned (count : Z)
  | PatternDetected (name : string)
  | ConsensusRequested (requestId : string)
  | ConsensusFinalized (requestId : string) (status : ConsensusStatus)
  | Synced.

(** [uuidv4()] draws from a source of identifiers. *)
Record State := mkState {
  consensusThreshold : Q;
  maxMemorySize : Z;
  knowledge : list (string * KnowledgeEntry);
  consensusRequests : list (string * ConsensusRequest);
  patterns : list (string * Pattern);
  agents : list string;
  uuid_source : nat -> string;
  uuid_drawn : nat;
  events : list Event
}.

Definition new (threshold : Q) (maxMemory : Z) (uuids : nat -> string) : State :=
  mkState threshold maxMemory [] [] [] [] uuids 0 [].

Definition with_knowledge (v : list (string * KnowledgeEntry)) (s : State) : State :=
  mkState (consensusThreshold s) (maxMemorySize s) v (consensusRequests s)
    (patterns s) (agents s) (uuid_source s) (uuid_drawn s) (events s).
Definition with_consensusRequests (v : list (string * ConsensusRequest)) (s : State) : State :=
  mkState (consensusThreshold s) (maxMemorySize s) (knowledge s) v
    (patterns s) (agents s) (uuid_source s) (uuid_drawn s) (events s).
Definition with_patterns (v : list (string * Pattern)) (s : State) : State :=
  mkState (consensusThreshold s) (maxMemorySize s) (knowledge s) (consensusRequests s)
    v (agents s) (uuid_source s) (uuid_drawn s) (events s).
Definition with_agents (v : list string) (s : State) : State :=
  mkState (consensusThreshold s) (maxMemorySize s) (knowledge s) (consensusRequests s)
    (patterns s) v (uuid_source s) (uuid_drawn s) (events s).

Definition emit (e : Event) (s : State) : State :=
  mkState (consensusThreshold s) (maxMemorySize s) (knowledge s) (consensusRequests s)
    (patterns s) (agents s) (uuid_source s) (uuid_drawn s) (events s ++ [e]).

Definition uuidv4 (s : State) : string * State :=
  (uuid_source s (uuid_drawn s),
   mkState (consensusThreshold s) (maxMemorySize s) (knowledge s) (consensusRequests s)
     (patterns s) (agents s) (uuid_source s) (S (uuid_drawn s)) (events s)).

Definition set_confidence (v : Num) (e : KnowledgeEntry) : KnowledgeEntry :=
  mkEntry (e_id e) (key e) (value e) (agentId e) (timestamp e) (ttl e) v (votes e).
Definition set_votes (v : list (string * bool)) (e : KnowledgeEntry) : KnowledgeEntry :=
  mkEntry (e_id e) (key e) (value e) (agentId e) (timestamp e) (ttl e) (confidence e) v.
Definition set_value_timestamp (v : Value) (t : Z) (e : KnowledgeEntry) : KnowledgeEntry :=
  mkEntry (e_id e) (key e) v (agentId e) t (ttl e) (confidence e) (votes e).

(** *** Registration *)

(** [shareKnowledge] only announces how many entries the newcomer gets. *)
Definition shareKnowledge (agent : string) (s : State) : State :=
  emit (KnowledgeShared agent (JsMap.size (knowledge s))) s.

Definition registerAgent (agent : string) (s : State) : State :=
  emit (AgentRegistered agent)
    (shareKnowledge agent (with_agents (JsSet.add agent (agents s)) s)).

Definition forget_agent (nagents : Z) (agent : string) (e : KnowledgeEntry)
    : KnowledgeEntry :=
  let e1 := set_votes (JsMap.delete agent (votes e)) e in
  if 0 <? nagents
  then set_confidence (div_sizes (JsMap.size (votes e1)) nagents) e1
  else e1.

Definition forget_contributor (agent : string) (p : Pattern) : Pattern :=
  mkPattern (p_id p) (p_name p) (description p) (occurrences p) (lastSeen p)
    (JsSet.delete agent (p_agents p)) (data p).

Definition cleanupAgentData (agent : string) (s : State) : State :=
  let n := JsSet.size (agents s) in
  with_patterns (map (fun kp => (fst kp, forget_contributor agent (snd kp))) (patterns s))
    (with_knowledge
       (map (fun ke => (fst ke, forget_agent n agent (snd ke))) (knowledge s)) s).

Definition unregisterAgent (agent : string) (s : State) : State :=
  emit (AgentUnregistered agent)
    (cleanupAgentData agent (with_agents (JsSet.delete agent (agents s)) s)).

(** *** Expiry *)

(** [entry.ttl && now - entry.timestamp > entry.ttl] *)
Definition expired (now : Z) (e : KnowledgeEntry) : bool :=
  match ttl e with
  | Some t => negb (t =? 0) && (t <? now - timestamp e)
  | None => false
  end.

Definition retrieve (k : string) (now : Z) (s : State) : option Value * State :=
  match JsMap.get k (knowledge s) with
  | None => (None, s)
  | Some entry =>
      if expired now entry
      then (None, with_knowledge (JsMap.delete k (knowledge s)) s)
      else (Some (value entry), s)
  end.

(** *** Memory limit *)

Definition compare_entries (a b : string * KnowledgeEntry) : comparison :=
  if neq (confidence (snd a)) (confidence (snd b))
  then sign_of_difference (confidence (snd a)) (confidence (snd b))
  else Z.compare (timestamp (snd a)) (timestamp (snd b)).

(** [Array.prototype.sort] is stable; with a comparator that is a total
    preorder every stable sort computes the same array, which the
    insertion sort below computes too. *)
Fixpoint insert_sorted {A : Type} (cmp : A -> A -> comparison) (x : A) (l : list A)
    : list A :=
  match l with
  | [] => [x]
  | y :: l' =>
      match cmp x y with
      | Gt => y :: insert_sorted cmp x l'
      | _ => x :: y :: l'
      end
  end.

Fixpoint sort {A : Type} (cmp : A -> A -> comparison) (l : list A) : list A :=
  match l with
  | [] => []
  | x :: l' => insert_sorted cmp x (sort cmp l')
  end.

(** [entries.slice(0, n)] *)
Definition slice0 {A : Type} (n : Z) (l : list A) : list A :=
  firstn (Z.to_nat n) l.

Definition to_remove (s : State) : list (string * KnowledgeEntry) :=
  slice0 (JsMap.size (knowledge s) - maxMemorySize s)
    (sort compare_entries (knowledge s)).

Definition enforceMemoryLimits (s : State) : State :=
  if JsMap.size (knowledge s) <=? maxMemorySize s then s
  else
    let toRemove := to_remove s in
    let s1 := with_knowledge
                (fold_left (fun m ke => JsMap.delete (fst ke) m) toRemove (knowledge s))
                s in
    if 0 <? Z.of_nat (length toRemove)
    then emit (MemoryPruned (Z.of_nat (length toRemove))) s1
    else s1.

(** *** Patterns *)

(** [key.split(':')]: the part before the first colon, when the key
    has one (the array then has more than one element). *)
Fixpoint before_colon (k : string) : option string :=
  match k with
  | EmptyString => None
  | String c k' =>
      if Ascii.eqb c ":"%char then Some EmptyString
      else match before_colon k' with
           | Some pre => Some (String c pre)
           | None => None
           end
  end.

Definition seen_again (k : string) (v : Value) (now : Z) (p : Pattern) : Pattern :=
  mkPattern (p_id p) (p_name p) (description p) (occurrences p + 1) now
    (p_agents p) (JsMap.set k v (data p)).

Definition detectPatterns (k : string) (v : Value) (now : Z) (s : State) : State :=
  match before_colon k with
  | Some patternName =>
      let '(pattern, s1) :=
        match JsMap.get patternName (patterns s) with
        | Some p => (p, s)
        | None =>
            let '(u, s') := uuidv4 s in
            (mkPattern u patternName ("Pattern for " +:+ patternName +:+ " entries")
               0 now [] [], s')
        end in
      emit (PatternDetected patternName)
        (with_patterns
           (JsMap.set patternName (seen_again k v now pattern) (patterns s1)) s1)
  | None => s
  end.

(** *** [share] *)

Definition mergeKnowledge (existing new_ : KnowledgeEntry) (s : State) : State :=
  let e1 := set_votes (JsMap.set (agentId new_) true (votes existing)) existing in
  let e2 := set_confidence
              (div_sizes (JsMap.size (votes e1)) (JsSet.size (agents s))) e1 in
  let e3 := if gt (confidence new_) (confidence e2)
            then set_value_timestamp (value new_) (timestamp new_) e2
            else e2 in
  emit (KnowledgeMerged (key existing))
    (with_knowledge (JsMap.set (key new_) e3 (knowledge s)) s).

(** [share] up to the check of the memory limit: the new entry is
    merged into the stored one or stored as it is. *)
Definition store (agent k : string) (v : Value) (conf : Num) (ttl_ : option Z)
    (now : Z) (s : State) : State :=
  let '(u, s0) := uuidv4 s in
  let entry := mkEntry u k v agent now ttl_ conf [(agent, true)] in
  match JsMap.get k (knowledge s0) with
  | Some existing => mergeKnowledge existing entry s0
  | None => emit (KnowledgeAdded k) (with_knowledge (JsMap.set k entry (knowledge s0)) s0)
  end.

Definition share (agent k : string) (v : Value) (conf : Num) (ttl_ : option Z)
    (now : Z) (s : State) : State :=
  detectPatterns k v now (enforceMemoryLimits (store agent k v conf ttl_ now s)).

(** *** Consensus *)

Definition set_c_votes (v : list (string * Vote)) (r : ConsensusRequest) : ConsensusRequest :=
  mkRequest (c_id r) (topic r) (proposal r) (requester r) (c_timestamp r)
    (deadline r) v (c_status r).
Definition set_c_status (v : ConsensusStatus) (r : ConsensusRequest) : ConsensusRequest :=
  mkRequest (c_id r) (topic r) (proposal r) (requester r) (c_timestamp r)
    (deadline r) (c_votes r) v.

Definition requestConsensus (agent topic_ proposal_ : string) (deadline_ : option Z)
    (now : Z) (s : State) : string * State :=
  let '(u, s0) := uuidv4 s in
  let request := mkRequest u topic_ proposal_ agent now
                   (match deadline_ with Some d => d | None => now + 30000 end)
                   [] PENDING in
  (u, emit (ConsensusRequested u)
        (with_consensusRequests (JsMap.set u request (consensusRequests s0)) s0)).

Definition approvals (vs : list (string * Vote)) : Z :=
  Z.of_nat (length (filter (fun kv => v_value (snd kv) = true) vs)).

Definition totalConfidence (vs : list (string * Vote)) : Q :=
  fold_left (fun acc kv => if v_value (snd kv) then Qplus acc (v_confidence (snd kv)) else acc)
    vs 0%Q.

Definition approvalRate_of (vs : list (string * Vote)) : Q :=
  if 0 <? JsMap.size vs then Qmake (approvals vs) (Z.to_pos (JsMap.size vs)) else 0%Q.

Definition outcome (s : State) (request : ConsensusRequest) : ConsensusStatus :=
  let n := inject_Z (JsMap.size (c_votes request)) in
  if negb (Qle_bool (Qmult (inject_Z (JsSet.size (agents s))) (1 # 2)) n) then TIMEOUT
  else if Qle_bool (consensusThreshold s) (approvalRate_of (c_votes request)) then APPROVED
  else REJECTED.

Definition finalizeConsensus (requestId : string) (now : Z) (s : State) : State :=
  match JsMap.get requestId (consensusRequests s) with
  | None => s
  | Some request =>
      if is_pending (c_status request) then
        let st := outcome s request in
        let s1 := with_consensusRequests
                    (JsMap.set requestId (set_c_status st request) (consensusRequests s)) s in
        share "hive-mind" ("consensus:" +:+ topic request)
          (ConsensusOutcome (proposal request) st
             (approvalRate_of (c_votes request))
             (div_by_size (totalConfidence (c_votes request))
                (JsMap.size (c_votes request))))
          (Fin 1) None now
          (emit (ConsensusFinalized requestId st) s1)
      else s
  end.

Definition enough_votes (s : State) (request : ConsensusRequest) : bool :=
  Qle_bool (Qmult (inject_Z (JsSet.size (agents s))) (consensusThreshold s))
    (inject_Z (JsMap.size (c_votes request))).

Definition vote (agent requestId : string) (value_ : bool) (conf : Q)
    (reasoning : option string) (now : Z) (s : State) : Result State :=
  match JsMap.get requestId (consensusRequests s) with
  | None => Throw "Invalid or completed consensus request"
  | Some request =>
      if is_pending (c_status request) then
        let v := mkVote agent value_ conf reasoning now in
        let request' := set_c_votes (JsMap.set agent v (c_votes request)) request in
        let s1 := with_consensusRequests
                    (JsMap.set requestId request' (consensusRequests s)) s in
        if enough_votes s1 request'
        then Ok (finalizeConsensus requestId now s1)
        else Ok s1
      else Throw "Invalid or completed consensus request"
  end.

Definition getConsensusResult (requestId : string) (s : State) : option ConsensusRequest :=
  JsMap.get requestId (consensusRequests s).

(** *** The periodic synchronisation *)

Definition cleanExpiredKnowledge (now : Z) (s : State) : State :=
  let expired_keys :=
    JsMap.keys (filter (fun ke => expired now (snd ke) = true) (knowledge s)) in
  let s1 := with_knowledge
              (fold_left (fun m k => JsMap.delete k m) expired_keys (knowledge s)) s in
  if 0 <? Z.of_nat (length expired_keys)
  then emit (KnowledgeCleaned (Z.of_nat (length expired_keys))) s1
  else s1.

Definition finalize_if_overdue (now : Z) (s : State) (requestId : string) : State :=
  match JsMap.get requestId (consensusRequests s) with
  | Some request =>
      if is_pending (c_status request) && (deadline request <? now)
      then finalizeConsensus requestId now s
      else s
  | None => s
  end.

Definition processPendingConsensus (now : Z) (s : State) : State :=
  fold_left (finalize_if_overdue now) (JsMap.keys (consensusRequests s)) s.

(** [sync], without the write to the external store. *)
Definition sync (now : Z) (s : State) : State :=
  emit Synced (processPendingConsensus now (cleanExpiredKnowledge now s)).

(** [loadKnowledge], given the entries read from the external store. *)
Definition loadKnowledge (stored : list KnowledgeEntry) (s : State) : State :=
  with_knowledge
    (fold_left (fun m e => JsMap.set (key e) e m) stored (knowledge s)) s.

End HiveMind.

(** ** The coordinator's entry point for submissions *)

Module SwarmCoordinator.

Inductive SwarmState :=
  | INITIALIZING | READY | RUNNING | PAUSED | SCALING
  | COMPLETING | COMPLETED | FAILED | TERMINATED.

Definition SwarmState_name (st : SwarmState) : string :=
  match st with
  | INITIALIZING => "initializing" | READY => "ready" | RUNNING => "running"
  | PAUSED => "paused" | SCALING => "scaling" | COMPLETING => "completing"
  | COMPLETED => "completed" | FAILED => "failed" | TERMINATED => "terminated"
  end.

Record State := mkState {
  _state : SwarmState;
  taskOrchestrator : Orchestrator.State
}.

(** [validateTask] throws on a missing name or type and fills in the
    default priority. *)
Definition validateTask (task : Orchestrator.Task) : Result Orchestrator.Task :=
  match Orchestrator.t_name task with
  | EmptyString => Throw "Task name is required"
  | _ =>
      match Orchestrator.t_type task with
      | None => Throw "Task type is required"
      | Some _ =>
          Ok (Orchestrator.mkTask (Orchestrator.t_id task) (Orchestrator.t_name task)
                (Orchestrator.t_type task)
                (match Orchestrator.t_priority task with
                 | Some p => Some p
                 | None => Some Orchestrator.MEDIUM
                 end)
                (Orchestrator.t_dependencies task))
      end
  end.

(** [submitTask]: the id handed back is the task's own id, or the one
    generated here when it had none. *)
Definition submitTask (task : Orchestrator.Task) (uuid : string) (s : State)
    : Result (string * State) :=
  match _state s with
  | RUNNING =>
      match validateTask task with
      | Throw e => Throw e
      | Ok task1 =>
          let taskId :=
            match Orchestrator.truthy_id (Orchestrator.t_id task1) with
            | Some i => i
            | None => "task-" +:+ uuid
            end in
          let task2 :=
            Orchestrator.mkTask (Some taskId) (Orchestrator.t_name task1)
              (Orchestrator.t_type task1) (Orchestrator.t_priority task1)
              (Orchestrator.t_dependencies task1) in
          match Orchestrator.submitTask task2 uuid (taskOrchestrator s) with
          | Ok o => Ok (taskId, mkState (_state s) o)
          | Throw e => Throw e
          end
      end
  | st => Throw ("Cannot submit task in state: " +:+ SwarmState_name st)
  end.

Definition getTaskStatus (taskId : string) (s : State) : Orchestrator.TaskStatus :=
  Orchestrator.getTaskStatus taskId (taskOrchestrator s).

Definition getTaskResult (taskId : string) (s : State)
    : option Orchestrator.TaskResult :=
  Orchestrator.getTaskResult taskId (taskOrchestrator s).

End SwarmCoordinator.

(** * Well-formedness of states *)

Module Wellformed.
Import Orchestrator.

(** Position of a priority in [priorityOrder]. *)
Definition rank (p : Priority) : nat :=
  match p with CRITICAL => 0 | HIGH => 1 | MEDIUM => 2 | LOW => 3 end.

(** Every queued task sits in the array of its own priority; [add] is
    the only way into the queue and establishes this, and a task never
    changes priority. *)
Definition tiers_agree (h : Heap) (q : TaskQueue) : Prop :=
  forall (p : Priority) (r : ref), r ∈ tier p q -> h !! r ≫= priority = Some p.

(** Two states that differ in [dependents] sets and in the dependency
    graph at most. *)
Definition dependents_frame (s s' : State) : Prop :=
  config s' = config s /\ tasks s' = tasks s /\ queue s' = queue s /\
  events s' = events s /\
  forall r t, heap s !! r = Some t ->
    exists ds, heap s' !! r = Some (set_dependents ds t).

(** A state in which cancelled tasks stayed cancelled and the task map
    did not change. *)
Definition cancelled_kept (s s' : State) : Prop :=
  tasks s' = tasks s /\
  forall r, status_of (heap s) r = Some CANCELLED ->
            status_of (heap s') r = Some CANCELLED.

(** The object behind [r] is [t] and is not in the ready queue. *)
Definition untouched (r : ref) (t : TaskInstance) (s : State) : Prop :=
  heap s !! r = Some t /\ r ∉ queue_elements (queue s).


(** One step of an orchestrator: a call of a public method that returns,
    a tick of the processing loop, or the settlement of an execution
    that was started before. *)
Inductive step : State -> State -> Prop :=
  | step_start s : step s (start s)
  | step_stop s : step s (stop s)
  | step_pause s : step s (pause s)
  | step_resume s : step s (resume s)
  | step_submitTask task uuid s s' :
      submitTask task uuid s = Ok s' -> step s s'
  | step_registerAgent agentId s : step s (registerAgent agentId s)
  | step_unregisterAgent agentId s : step s (unregisterAgent agentId s)
  | step_cancelTask fuel taskId s s' :
      cancelTask fuel taskId s = Some s' -> step s s'
  | step_processTasks now s s' :
      processTasks now s = Some s' -> step s s'
  | step_settle r agent o now s :
      step s (executeTask_settle r agent o now s).

(** The states that an orchestrator can be in. *)
Definition reachable (s : State) : Prop :=
  exists cfg, rtc step (new cfg) s.

(** The heap [h'] extends or updates [h] without changing a priority. *)
Definition priorities_kept (h h' : Heap) : Prop :=
  forall r p, h !! r ≫= priority = Some p -> h' !! r ≫= priority = Some p.

(** Every tier of [q'] is drawn from the same tier of [q]. *)
Definition tiers_shrink (q q' : TaskQueue) : Prop :=
  forall p x, x ∈ tier p q' -> x ∈ tier p q.

End Wellformed.

(** * Scenarios

    Concrete runs of the two classes, built with the operations above. *)

Module Scenarios.
Import Orchestrator.

(** A strategy that hands out the first available agent. *)
Definition first_available (_ : TaskInstance) (available : list string)
    : option string :=
  head available.

(** A strategy that finds no suitable agent. *)
Definition no_suitable_agent (_ : TaskInstance) (_ : list string) : option string :=
  None.

Definition config_with (strat : TaskInstance -> list string -> option string)
    (retries : Z) (backoff : BackoffStrategy) : TaskOrchestratorConfig :=
  mkConfig strat (Some (mkRetryPolicy retries backoff (1000 # 1) (60000 # 1)))
    300000 10000 true.

Definition task (i : string) (p : Priority) (deps : list string) : Task :=
  mkTask (Some i) i (Some PROCESS) (Some p) deps.

(** A submission that is known not to throw. *)
Definition submitted (t : Task) (s : State) : State :=
  match submitTask t "0000" s with
  | Ok s' => s'
  | Throw _ => s
  end.

(** A tick of the processing loop. *)
Definition tick (now : Z) (s : State) : State :=
  match processTasks now s with
  | Some s' => s'
  | None => s
  end.

Definition success (taskId agent : string) (now : Z) : Settlement :=
  Resolved (mkTaskResult taskId (Some agent) COMPLETED (Some "done") None None now).

(** One task without dependents, running on the only agent. *)
Definition solo_running : State :=
  tick 10 (registerAgent "w1"
    (submitted (task "solo" MEDIUM []) (start (new (config_with first_available 3 EXPONENTIAL))))).

Definition solo_completed : State :=
  executeTask_settle 0%nat "w1" (success "solo" "w1" 20) 20 solo_running.

(** Two tasks of the same priority are queued, [first] before [second],
    and the strategy finds no agent suitable. *)
Definition two_medium_no_agent : State :=
  registerAgent "w1"
    (submitted (task "second" MEDIUM [])
       (submitted (task "first" MEDIUM [])
          (start (new (config_with no_suitable_agent 3 EXPONENTIAL))))).

(** The only task of an orchestrator that grants no retry fails. *)
Definition lone_failed : State :=
  executeTask_settle 0%nat "w1" (Rejected "boom") 20
    (tick 10 (registerAgent "w1"
       (submitted (task "job" MEDIUM [])
          (start (new (config_with first_available 0 EXPONENTIAL)))))).

(** A chain [A -> B -> C]: [B] waits for [A] and [C] waits for [B]. *)
Definition chain_submitted : State :=
  registerAgent "w1"
    (submitted (task "C" MEDIUM ["B"])
       (submitted (task "B" MEDIUM ["A"])
          (submitted (task "A" MEDIUM [])
             (start (new (config_with first_available 0 EXPONENTIAL)))))).

(** [A] and then [B] have run to completion; [C] is ready. *)
Definition chain_two_completed : State :=
  executeTask_settle 1%nat "w1" (success "B" "w1" 40) 40
    (tick 30
       (executeTask_settle 0%nat "w1" (success "A" "w1" 20) 20
          (tick 10 chain_submitted))).

(** The same ids submitted a second time. *)
Definition solo_resubmitted : State :=
  submitted (task "solo" MEDIUM []) solo_running.

Definition lone_failed_resubmitted : State :=
  submitted (task "job" MEDIUM []) lone_failed.

(** [cancelTask("A")] on the chain. *)
Definition chain_cancelled : State :=
  match cancelTask 3 "A" chain_two_completed with
  | Some s => s
  | None => chain_two_completed
  end.

(** A fan [A -> {B, C}] with a grandchild [D] that waits for [B]; the
    policy grants one retry. *)
Definition fan_submitted : State :=
  registerAgent "w1"
    (submitted (task "D" MEDIUM ["B"])
       (submitted (task "C" MEDIUM ["A"])
          (submitted (task "B" MEDIUM ["A"])
             (submitted (task "A" MEDIUM [])
                (start (new (config_with first_available 1 EXPONENTIAL))))))).

(** [A] fails, is retried after its backoff, and fails again. *)
Definition fan_root_failed : State :=
  executeTask_settle 0%nat "w1" (Rejected "boom again") 700
    (tick 600
       (executeTask_settle 0%nat "w1" (Rejected "boom") 20
          (tick 10 fan_submitted))).

(** Ticks of the processing loop at the given instants. *)
Definition ticks (nows : list Z) (s : State) : State :=
  fold_left (fun st now => tick now st) nows s.

(** The state in which the second failure of [A] is handled. *)
Definition fan_second_attempt : State :=
  tick 600
    (executeTask_settle 0%nat "w1" (Rejected "boom") 20 (tick 10 fan_submitted)).

(** [B] and [C] as the cascade leaves them. *)
Definition cascaded (i : string) (ds : list string) : TaskInstance :=
  mkTaskInstance i i (Some PROCESS) (Some MEDIUM) FAILED None 0 [] ["A"] ds
    None None None.

(** [A] during its second attempt. *)
Definition fan_root_running : TaskInstance :=
  match heap fan_second_attempt !! 0%nat with
  | Some t => t
  | None => cascaded "A" []
  end.

Definition second_failure : TaskResult :=
  mkTaskResult "A" (Some "w1") FAILED None (Some "boom again") None 700.

End Scenarios.

Module BackoffScenario.
Import Orchestrator.




(** The only task of an orchestrator fails its first attempt at time 20. *)
Definition first_failure (backoff : BackoffStrategy) : State :=
  executeTask_settle 0%nat "w1" (Rejected "boom") 20
    (Scenarios.tick 10 (registerAgent "w1"
       (Scenarios.submitted (Scenarios.task "job" MEDIUM [])
          (start (new (Scenarios.config_with Scenarios.first_available 3 backoff)))))).

End BackoffScenario.

(** * Order of eviction *)

Module HiveWellformed.
Import HiveMind.

(** [a < b] on confidences that are numbers. *)
Definition lower (a b : Num) : Prop :=
  match a, b with
  | Fin x, Fin y => (x < y)%Q
  | Fin _, PosInf => True
  | _, _ => False
  end.

(** [a === b] on confidences that are numbers. *)
Definition same (a b : Num) : Prop :=
  match a, b with
  | Fin x, Fin y => (x == y)%Q
  | PosInf, PosInf => True
  | _, _ => False
  end.

(** [a] is evicted no later than [b]: it has the lower confidence, or the
    same confidence and is not the younger of the two. *)
Definition evicted_before (a b : KnowledgeEntry) : Prop :=
  lower (confidence a) (confidence b) \/
  (same (confidence a) (confidence b) /\ timestamp a <= timestamp b).

Definition evicted_before_keyed (a b : string * KnowledgeEntry) : Prop :=
  evicted_before (snd a) (snd b).

(** No stored confidence is [NaN]: the comparator of the eviction sort is
    then a total preorder. *)
Definition numbers_only (m : list (string * KnowledgeEntry)) : Prop :=
  Forall (fun ke => confidence (snd ke) <> NaN) m.

(** One step of a hive mind: a call of a public method that returns, the
    deadline timer of a consensus request, or the periodic
    synchronisation. A request is filed under a freshly drawn uuid. *)
Inductive step : State -> State -> Prop :=
  | step_registerAgent a s :
      step s (registerAgent a s)
  | step_unregisterAgent a s :
      step s (unregisterAgent a s)
  | step_share agent k v conf ttl_ now s :
      step s (share agent k v conf ttl_ now s)
  | step_retrieve k now s :
      step s (snd (retrieve k now s))
  | step_requestConsensus agent topic_ proposal_ deadline_ now s :
      JsMap.get (uuid_source s (uuid_drawn s)) (consensusRequests s) = None ->
      step s (snd (requestConsensus agent topic_ proposal_ deadline_ now s))
  | step_vote agent requestId value_ conf reasoning now s s' :
      vote agent requestId value_ conf reasoning now s = Ok s' ->
      step s s'
  | step_finalizeConsensus requestId now s :
      step s (finalizeConsensus requestId now s)
  | step_sync now s :
      step s (sync now s)
  | step_loadKnowledge stored s :
      step s (loadKnowledge stored s).

(** The request filed under [requestId] is [request]. *)
Definition settled (requestId : string) (request : ConsensusRequest) (s : State)
    : Prop :=
  JsMap.get requestId (consensusRequests s) = Some request.

End HiveWellformed.

Module HiveScenarios.
Import HiveMind.

(** A source of distinct identifiers. *)
Fixpoint tally (n : nat) : string :=
  match n with
  | O => "id"
  | S n' => String "i"%char (tally n')
  end.

(** Capacity three; four keys arrive with confidences 0.9, 0.8, 0.2
    and 0.7. *)
Definition three_slots : State := new (66 # 100) 3 tally.

Definition four_keys : State :=
  share "w1" "k4" (Opaque "v4") (Fin (7 # 10)) None 4
    (share "w1" "k3" (Opaque "v3") (Fin (2 # 10)) None 3
       (share "w1" "k2" (Opaque "v2") (Fin (8 # 10)) None 2
          (share "w1" "k1" (Opaque "v1") (Fin (9 # 10)) None 1 three_slots))).

(** Two workers; the first of them shares a key for the first time. *)
Definition two_workers : State :=
  registerAgent "w2" (registerAgent "w1" (new (66 # 100) 100 tally)).

Definition first_share : State :=
  share "w1" "fact" (Opaque "v") (Fin (9 # 10)) None 1 two_workers.

(** The second worker affirms the entry; later a third worker joins. *)
Definition affirmed : State :=
  share "w2" "fact" (Opaque "v") (Fin (9 # 10)) None 2 first_share.

Definition third_joined : State := registerAgent "w3" affirmed.

(** A worker leaves. *)
Definition second_left : State := unregisterAgent "w2" third_joined.

(** The stored confidence and the ratio of vote count to worker count. *)
Definition stored_confidence (k : string) (s : State) : option Num :=
  confidence <$> JsMap.get k (knowledge s).

Definition vote_ratio (k : string) (s : State) : option Num :=
  (fun e => div_sizes (JsMap.size (votes e)) (JsSet.size (agents s)))
    <$> JsMap.get k (knowledge s).

(** Four workers, threshold 0.66, and a consensus request on topic [X]. *)
Definition four_workers : State :=
  registerAgent "w4" (registerAgent "w3"
    (registerAgent "w2" (registerAgent "w1" (new (66 # 100) 100 tally)))).

Definition session : State :=
  snd (requestConsensus "w1" "X" "proposal" (Some 1000) 0 four_workers).

(** A vote that is known not to be rejected. *)
Definition voted (agent : string) (value_ : bool) (conf : Q) (now : Z) (s : State)
    : State :=
  match vote agent "id" value_ conf None now s with
  | Ok s' => s'
  | Throw _ => s
  end.

(** The first worker votes yes and then votes no. *)
Definition voted_yes : State := voted "w1" true 1 1 session.
Definition voted_yes_then_no : State := voted "w1" false (1 # 2) 2 voted_yes.

(** Three of the four workers vote yes. *)
Definition three_yes : State :=
  voted "w3" true 1 3 (voted "w2" true 1 2 voted_yes).

(** The vote that worker [agent] has on record in the session. *)
Definition recorded_vote (agent : string) (s : State) : option bool :=
  getConsensusResult "id" s ≫= (fun request =>
    v_value <$> JsMap.get agent (c_votes request)).

Definition session_status (s : State) : option ConsensusStatus :=
  c_status <$> getConsensusResult "id" s.

Definition vote_count (s : State) : option Z :=
  (fun request => JsMap.size (c_votes request)) <$> getConsensusResult "id" s.

(** The request on record in a state of the session. *)
Definition request_in (s : State) : ConsensusRequest :=
  match getConsensusResult "id" s with
  | Some request => request
  | None => mkRequest "id" "X" "proposal" "w1" 0 1000 [] PENDING
  end.

End HiveScenarios.

(** * Clients of the ready queue *)

Module Consumer.
Import Orchestrator.

(** A consumer that calls [getNext] until it answers [null], at most
    [fuel] times, is handed these tasks in this order. *)
Fixpoint drain (fuel : nat) (q : TaskQueue) : list ref :=
  match fuel with
  | O => []
  | S fuel' =>
      match queue_getNext q with
      | Some (r, q') => r :: drain fuel' q'
      | None => []
      end
  end.

(** [add] called for each of [rs] in turn. *)
Definition add_all (h : Heap) (rs : list ref) (q : TaskQueue) : TaskQueue :=
  fold_left (fun q' r => queue_add h r q') rs q.

(** The tasks among [rs] whose priority is [p], in the order of [rs]. *)
Definition of_priority (h : Heap) (p : Priority) (rs : list ref) : list ref :=
  filter (fun r => h !! r ≫= priority = Some p) rs.

(** [splice] of the first element that satisfies [f], if there is one. *)
Definition without_first (f : ref -> bool) (l : list ref) : list ref :=
  match remove_first f l with
  | Some l' => l'
  | None => l
  end.

End Consumer.

(** * Further scenarios *)

Module Runs.
Import Orchestrator.

(** A coordinator that is running over a fresh orchestrator. *)
Definition swarm_running : SwarmCoordinator.State :=
  SwarmCoordinator.mkState SwarmCoordinator.RUNNING
    (start (new (Scenarios.config_with Scenarios.first_available 3 EXPONENTIAL))).

(** A task for which the caller chose neither an id nor a priority. *)
Definition anonymous : Task := mkTask None "report" (Some ANALYZE) None [].

Definition swarm_accepted : SwarmCoordinator.State :=
  match SwarmCoordinator.submitTask anonymous "0000" swarm_running with
  | Ok (_, c) => c
  | Throw _ => swarm_running
  end.

(** A task that names itself as a dependency. *)
Definition self_dependent : State :=
  Scenarios.submitted (Scenarios.task "loop" MEDIUM ["loop"])
    (start (new (Scenarios.config_with Scenarios.first_available 3 EXPONENTIAL))).

(** [A] of the chain has completed; a task that depends on [A] is
    submitted only then. *)
Definition late_dependent : State :=
  Scenarios.submitted (Scenarios.task "D" MEDIUM ["A"])
    (executeTask_settle 0%nat "w1" (Scenarios.success "A" "w1" 20) 20
       (Scenarios.tick 10 Scenarios.chain_submitted)).

End Runs.

(** * Conditions of the periodic passes, read on one task *)

Module Conditions.
Import Orchestrator.

(** [t.assignedAgent === agentId && t.status === RUNNING] *)
Definition running_on (agentId : string) (t : TaskInstance) : bool :=
  match assignedAgent t with
  | Some a => String.eqb a agentId && TaskStatus_eqb (status t) RUNNING
  | None => false
  end.

(** [task.status === PENDING && task.nextRetryTime &&
    task.nextRetryTime.getTime() <= now] *)
Definition retry_due (now : Z) (t : TaskInstance) : bool :=
  match nextRetryTime t with
  | Some at_ => TaskStatus_eqb (status t) PENDING && (at_ <=? now)
  | None => false
  end.

(** [task.status === RUNNING && task.startTime &&
    now - task.startTime.getTime() > timeout] *)
Definition overdue (timeout_ now : Z) (t : TaskInstance) : bool :=
  match startTime t with
  | Some st => TaskStatus_eqb (status t) RUNNING && (timeout_ <? now - st)
  | None => false
  end.

(** How often [r] occurs in a list of references. *)
Definition occurrences_of (r : ref) (l : list ref) : nat :=
  length (filter (fun x => x = r) l).

End Conditions.

(** * Reports, snapshots and restoration of the orchestrator *)

Module Reporting.
Import Orchestrator.

(** [statusCounts], a [Map<TaskStatus, number>]. *)
Fixpoint count_get (st : TaskStatus) (m : list (TaskStatus * Z)) : option Z :=
  match m with
  | [] => None
  | (st', n) :: m' => if TaskStatus_eqb st st' then Some n else count_get st m'
  end.

Fixpoint count_set (st : TaskStatus) (n : Z) (m : list (TaskStatus * Z))
    : list (TaskStatus * Z) :=
  match m with
  | [] => [(st, n)]
  | (st', n') :: m' =>
      if TaskStatus_eqb st st' then (st, n) :: m' else (st', n') :: count_set st n m'
  end.

(** [statusCounts.get(status) || 0] *)
Definition count_or_0 (st : TaskStatus) (m : list (TaskStatus * Z)) : Z :=
  match count_get st m with
  | Some n => n
  | None => 0
  end.

(** The three accumulators of the loop of [getMetrics]. *)
Record Tally := mkTally {
  statusCounts : list (TaskStatus * Z);
  totalDuration : Z;
  completedCount : Z
}.

Definition tally_task (acc : Tally) (task : TaskInstance) : Tally :=
  let counts := count_set (status task)
                  (count_or_0 (status task) (statusCounts acc) + 1) (statusCounts acc) in
  match startTime task, endTime task with
  | Some st, Some et =>
      if TaskStatus_eqb (status task) COMPLETED
      then mkTally counts (totalDuration acc + (et - st)) (completedCount acc + 1)
      else mkTally counts (totalDuration acc) (completedCount acc)
  | _, _ => mkTally counts (totalDuration acc) (completedCount acc)
  end.

(** [this.tasks.values()], the objects behind the references. *)
Definition task_objects (s : State) : list TaskInstance :=
  omap (fun r => heap s !! r) (JsMap.values (tasks s)).

Record Metrics := mkMetrics {
  total : Z;
  completed : Z;
  failed : Z;
  running_ : Z;
  pending : Z;
  avgDuration : Q;
  queueSize : Z;
  retriedTasks : Z;
  timedOutTasks : Z
}.

Definition getMetrics (s : State) : Metrics :=
  let acc := fold_left tally_task (task_objects s) (mkTally [] 0 0) in
  mkMetrics
    (JsMap.size (tasks s))
    (count_or_0 COMPLETED (statusCounts acc))
    (count_or_0 FAILED (statusCounts acc))
    (count_or_0 RUNNING (statusCounts acc))
    (count_or_0 PENDING (statusCounts acc))
    (if 0 <? completedCount acc
     then Qmake (totalDuration acc) (Z.to_pos (completedCount acc))
     else 0%Q)
    (queue_size (queue s))
    (Z.of_nat (length (filter (fun t => 1 < attempts t) (task_objects s))))
    (count_or_0 TIMEOUT (statusCounts acc)).

(** [successRate] as [SwarmCoordinator.getMetrics] derives it from the
    task metrics. *)
Definition successRate (m : Metrics) : Q :=
  if 0 <? total m then Qmult (Qmake (completed m) (Z.to_pos (total m))) (100 # 1)
  else 0%Q.

Record TaskReport := mkTaskReport {
  rp_taskId : string;
  rp_name : string;
  rp_status : TaskStatus;
  rp_agentId : string;
  rp_duration : Z;
  rp_retries : Z;
  rp_error : option string
}.

(** [task.results.find(r => r.error)?.error] *)
Definition first_error (rs : list TaskResult) : option string :=
  match filter (fun res => is_Some (r_error res)) rs with
  | res :: _ => r_error res
  | [] => None
  end.

Definition report_of (task : TaskInstance) : TaskReport :=
  mkTaskReport (id task) (name task) (status task)
    (match assignedAgent task with
     | Some EmptyString | None => EmptyString
     | Some a => a
     end)
    (match startTime task, endTime task with
     | Some st, Some et => et - st
     | _, _ => 0
     end)
    (attempts task - 1)
    (first_error (results task)).

Definition getTaskReports (s : State) : list TaskReport :=
  report_of <$> filter (fun t => negb (TaskStatus_eqb (status t) PENDING) = true)
                  (task_objects s).

(** The value that [serialize] returns. *)
Record Snapshot := mkSnapshot {
  sn_tasks : list (string * TaskInstance);
  sn_queueSize : Z;
  sn_timestamp : Z
}.

Definition serialize (now : Z) (s : State) : Snapshot :=
  mkSnapshot
    (omap (fun kr => (fun t => (fst kr, t)) <$> heap s !! snd kr) (tasks s))
    (queue_size (queue s)) now.

(** One iteration of the loop of [restore]: a new object is made from
    the item, bound to the item's id, queued when it is PENDING and
    entered in the dependency graph. *)
Definition restore_item (s : State) (item : string * TaskInstance) : State :=
  let task := set_dependents (JsSet.of_list (dependents (snd item)))
                (set_dependencies (JsSet.of_list (dependencies (snd item))) (snd item)) in
  let r := length (heap s) in
  let s1 := with_heap (heap s ++ [task]) s in
  let s2 := with_tasks (JsMap.set (fst item) r (tasks s1)) s1 in
  let s3 := if TaskStatus_eqb (status task) PENDING then enqueue r s2 else s2 in
  updateDependencyGraph r s3.

Definition restore (data : Snapshot) (s : State) : State :=
  fold_left restore_item (sn_tasks data)
    (with_dependencyGraph [] (with_queue (queue_clear (queue s)) (with_tasks [] s))).

(** Whether [add] finds an array for the task. *)
Definition has_tier (q : TaskQueue) (t : TaskInstance) : bool :=
  match q with
  | PriorityTaskQueue _ _ _ _ => match priority t with Some _ => true | None => false end
  | SimpleQueue _ => true
  end.

End Reporting.

Module Counting.
Import Orchestrator.

(** The tasks of a list that have status [st]. *)
Definition with_status (st : TaskStatus) (l : list TaskInstance) : list TaskInstance :=
  filter (fun t => TaskStatus_eqb (status t) st = true) l.

Definition number_with (st : TaskStatus) (l : list TaskInstance) : Z :=
  Z.of_nat (length (with_status st l)).

End Counting.

(** * Queries and persistence of the hive mind *)

Module HiveQueries.
Import HiveMind.

(** One iteration of the loop of [search]; [test] is [regex.test] for a
    pattern given as a string, or as a [RegExp] without the global or
    sticky flag, so that a test does not depend on the tests before. *)
Definition search_entry (test : string -> bool) (now : Z)
    (acc : list (string * Value) * State) (ke : string * KnowledgeEntry)
    : list (string * Value) * State :=
  if test (fst ke) then
    if expired now (snd ke)
    then (fst acc, with_knowledge (JsMap.delete (fst ke) (knowledge (snd acc))) (snd acc))
    else (JsMap.set (fst ke) (value (snd ke)) (fst acc), snd acc)
  else acc.

Definition search (test : string -> bool) (now : Z) (s : State)
    : list (string * Value) * State :=
  fold_left (search_entry test now) (knowledge s) ([], s).

(** The comparator of [getTopKnowledge]: the sign of
    [b.confidence - a.confidence]. *)
Definition compare_top (a b : string * KnowledgeEntry) : comparison :=
  sign_of_difference (confidence (snd b)) (confidence (snd a)).

Record TopEntry := mkTopEntry {
  top_key : string;
  top_confidence : Num;
  top_votes : Z
}.

(** [getTopKnowledge(limit)] for a limit that is not negative. *)
Definition getTopKnowledge (limit : Z) (s : State) : list TopEntry :=
  (fun ke => mkTopEntry (fst ke) (confidence (snd ke)) (JsMap.size (votes (snd ke))))
    <$> slice0 limit (sort compare_top (knowledge s)).

(** [a >= b] on confidences that are numbers. *)
Definition at_least (a b : Num) : Prop :=
  match a, b with
  | Fin x, Fin y => (y <= x)%Q
  | PosInf, Fin _ | PosInf, PosInf => True
  | _, _ => False
  end.

End HiveQueries.

(** * The in-memory store of the coordinator *)

Module MemoryStore.
Section Store.
Context {V : Type}.

Record Item := mkItem {
  item_value : V;
  expiry : option Z
}.

(** [ttl ? Date.now() + ttl : undefined] *)
Definition expiry_of (ttl : option Z) (now : Z) : option Z :=
  match ttl with
  | Some t => if t =? 0 then None else Some (now + t)
  | None => None
  end.

Definition set (key : string) (v : V) (ttl : option Z) (now : Z)
    (store : list (string * Item)) : list (string * Item) :=
  JsMap.set key (mkItem v (expiry_of ttl now)) store.

(** [item.expiry && Date.now() > item.expiry] *)
Definition stale (now : Z) (item : Item) : bool :=
  match expiry item with
  | Some e => negb (e =? 0) && (e <? now)
  | None => false
  end.

Definition get (key : string) (now : Z) (store : list (string * Item))
    : option V * list (string * Item) :=
  match JsMap.get key store with
  | None => (None, store)
  | Some item =>
      if stale now item then (None, JsMap.delete key store)
      else (Some (item_value item), store)
  end.

Definition delete (key : string) (store : list (string * Item)) : list (string * Item) :=
  JsMap.delete key store.

Definition clear (store : list (string * Item)) : list (string * Item) := [].

Definition keys (store : list (string * Item)) : list string := JsMap.keys store.

Definition size (store : list (string * Item)) : Z := JsMap.size store.

End Store.
Arguments Item : clear implicits.
End MemoryStore.

Module HivePersistence.
Import HiveMind.

Definition prefix_ : string := "hive:knowledge:".

(** [persistKnowledge]: the store afterwards and the count that
    ['knowledge:persisted'] carries. *)
Definition persistKnowledge (now : Z) (s : State)
    (store : list (string * MemoryStore.Item KnowledgeEntry))
    : list (string * MemoryStore.Item KnowledgeEntry) * Z :=
  fold_left
    (fun acc ke => (MemoryStore.set (prefix_ +:+ fst ke) (snd ke) None now (fst acc),
                    snd acc + 1))
    (knowledge s) (store, 0).

(** The reads of [loadKnowledge]: the entries found under the keys that
    start with the prefix, and the store after the reads. *)
Definition read_entries (now : Z) (store : list (string * MemoryStore.Item KnowledgeEntry))
    : list KnowledgeEntry * list (string * MemoryStore.Item KnowledgeEntry) :=
  fold_left
    (fun acc key =>
       match MemoryStore.get key now (snd acc) with
       | (Some entry, store') => (fst acc ++ [entry], store')
       | (None, store') => (fst acc, store')
       end)
    (filter (fun k => String.prefix prefix_ k = true) (MemoryStore.keys store))
    ([], store).

(** [loadKnowledge] from a store: the hive, the store and the count that
    ['knowledge:loaded'] carries. *)
Definition loadKnowledge_from (now : Z)
    (store : list (string * MemoryStore.Item KnowledgeEntry)) (s : State)
    : State * list (string * MemoryStore.Item KnowledgeEntry) * Z :=
  let '(entries, store') := read_entries now store in
  let s' := loadKnowledge entries s in
  (s', store', JsMap.size (knowledge s')).

(** Every entry is filed under its own key. *)
Definition filed_by_key (m : list (string * KnowledgeEntry)) : Prop :=
  Forall (fun ke => key (snd ke) = fst ke) m.

End HivePersistence.

Module HiveRuns.
Import HiveMind.

(** Two keys, the first of which lives for fifty milliseconds. *)
Definition aging : State :=
  share "w1" "k2" (Opaque "v2") (Fin (8 # 10)) None 2
    (share "w1" "k1" (Opaque "v1") (Fin (9 # 10)) (Some 50) 1 HiveScenarios.three_slots).

(** Two requests of the session of four workers; the first, due at
    instant 1000, has one vote, the second is due at instant 5000. *)
Definition two_requests : State :=
  snd (requestConsensus "w2" "Y" "later" (Some 5000) 5 HiveScenarios.voted_yes).

End HiveRuns.

(** * The life cycle of the coordinator

    [_state] and the orchestrator are the part of the coordinator that
    these methods are read on; the agent manager, the monitor, the hive
    mind and the tracing client are collaborators whose calls are assumed
    to return. The agents that [agentManager.scaleUp] creates and the ids
    that [agentManager.scaleDown] removes are arguments. *)

Module SwarmLifecycle.
Import SwarmCoordinator.

Definition start (s : State) : Result State :=
  match _state s with
  | READY => Ok (mkState RUNNING (Orchestrator.start (taskOrchestrator s)))
  | st => Throw ("Cannot start swarm in state: " +:+ SwarmState_name st)
  end.

Definition pause (s : State) : Result State :=
  match _state s with
  | RUNNING => Ok (mkState PAUSED (Orchestrator.pause (taskOrchestrator s)))
  | st => Throw ("Cannot pause swarm in state: " +:+ SwarmState_name st)
  end.

Definition resume (s : State) : Result State :=
  match _state s with
  | PAUSED => Ok (mkState RUNNING (Orchestrator.resume (taskOrchestrator s)))
  | st => Throw ("Cannot resume swarm in state: " +:+ SwarmState_name st)
  end.

Definition stop (s : State) : State :=
  match _state s with
  | TERMINATED => s
  | _ => mkState COMPLETED (Orchestrator.stop (taskOrchestrator s))
  end.


(** [scaleDown], given the ids that the agent manager removed. *)
Definition scaleDown (removedAgents : list string) (s : State) : Result State :=
  match _state s with
  | RUNNING =>
      Ok (mkState RUNNING
            (fold_left (fun o a => Orchestrator.unregisterAgent a o) removedAgents
               (taskOrchestrator s)))
  | st => Throw ("Cannot scale in state: " +:+ SwarmState_name st)
  end.

End SwarmLifecycle.

Module SwarmRuns.
Import Orchestrator.

(** A swarm whose only agent is busy with the only task. *)
Definition swarm_busy : SwarmCoordinator.State :=
  SwarmCoordinator.mkState SwarmCoordinator.RUNNING Scenarios.solo_running.

Definition swarm_scaled_down : SwarmCoordinator.State :=
  match SwarmLifecycle.scaleDown ["w1"] swarm_busy with
  | Ok c => c
  | Throw _ => swarm_busy
  end.

(** Three tasks wait for the two agents of an orchestrator. *)
Definition three_for_two : State :=
  registerAgent "w2" (registerAgent "w1"
    (Scenarios.submitted (Scenarios.task "c" LOW [])
       (Scenarios.submitted (Scenarios.task "b" HIGH [])
          (Scenarios.submitted (Scenarios.task "a" MEDIUM [])
             (start (new (Scenarios.config_with Scenarios.first_available 3 EXPONENTIAL))))))).

Definition three_for_two_assigned : State :=
  match assignTasks 10 three_for_two with
  | Some s => s
  | None => three_for_two
  end.

End SwarmRuns.

(** * Properties *)

(** ** Maps and sets *)

Section JsMapFacts.
Context {V : Type}.
Implicit Types (m : list (string * V)) (k : string) (v : V).

Lemma get_set_eq k v m : JsMap.get k (JsMap.set k v m) = Some v.
Proof.
  induction m as [|[k' v'] m IH]; simpl.
  - by rewrite String.eqb_refl.
  - destruct (String.eqb k k') eqn:E; simpl; rewrite ?String.eqb_refl ?E //.
Qed.

Lemma get_set_ne k k' v m : k <> k' -> JsMap.get k (JsMap.set k' v m) = JsMap.get k m.
Proof.
  intros Hne. induction m as [|[k2 v2] m IH]; simpl.
  - by apply String.eqb_neq in Hne as ->.
  - destruct (String.eqb k' k2) eqn:E; simpl.
    + apply String.eqb_eq in E as <-.
      by apply String.eqb_neq in Hne as ->.
    + by rewrite IH.
Qed.

Lemma get_delete_eq k m : JsMap.get k (JsMap.delete k m) = None.
Proof.
  induction m as [|[k' v'] m IH]; simpl; [done|].
  destruct (String.eqb k k') eqn:E; simpl; rewrite ?E //.
Qed.

Lemma get_delete_ne k k' m : k <> k' -> JsMap.get k (JsMap.delete k' m) = JsMap.get k m.
Proof.
  intros Hne. induction m as [|[k2 v2] m IH]; simpl; [done|].
  destruct (String.eqb k' k2) eqn:E; simpl.
  - apply String.eqb_eq in E as <-.
    by apply String.eqb_neq in Hne as ->.
  - by rewrite IH.
Qed.

Lemma get_delete_Some k k' m v :
  JsMap.get k (JsMap.delete k' m) = Some v -> JsMap.get k m = Some v.
Proof.
  destruct (String.eqb_spec k k') as [->|Hne].
  - by rewrite get_delete_eq.
  - by rewrite get_delete_ne.
Qed.

Lemma get_None_keys k m : JsMap.get k m = None <-> k ∉ JsMap.keys m.
Proof.
  induction m as [|[k' v'] m IH]; simpl.
  - split; [intros _; apply not_elem_of_nil | done].
  - destruct (String.eqb_spec k k') as [->|Hne].
    + split; [done | intros []; left].
    + rewrite IH. rewrite not_elem_of_cons. naive_solver.
Qed.

Lemma get_Some_elem k v m : JsMap.get k m = Some v -> (k, v) ∈ m.
Proof.
  induction m as [|[k' v'] m IH]; simpl; [done|].
  destruct (String.eqb_spec k k') as [->|Hne].
  - intros [= ->]. left.
  - intros H. right. by apply IH.
Qed.

Lemma elem_get_NoDup k v m :
  NoDup (JsMap.keys m) -> (k, v) ∈ m -> JsMap.get k m = Some v.
Proof.
  induction m as [|[k' v'] m IH]; simpl.
  - intros _ H. by apply elem_of_nil in H.
  - intros [Hk' Hnd]%NoDup_cons [[= -> ->]|Hin]%elem_of_cons.
    + by rewrite String.eqb_refl.
    + destruct (String.eqb_spec k k') as [->|Hne]; [|by apply IH].
      exfalso. apply Hk'. unfold JsMap.keys.
      apply (list_elem_of_fmap_2 fst) in Hin. done.
Qed.

Lemma keys_delete k m : JsMap.keys (JsMap.delete k m) = filter (fun k' => k' <> k) (JsMap.keys m).
Proof.
  induction m as [|[k' v'] m IH]; [done|].
  rewrite /JsMap.keys /= -/(JsMap.keys m).
  destruct (String.eqb_spec k k') as [->|Hne].
  - rewrite filter_cons_False; [naive_solver|]. exact IH.
  - rewrite filter_cons_True; [naive_solver|].
    rewrite /JsMap.keys fmap_cons /=. f_equal. exact IH.
Qed.

Lemma NoDup_keys_delete k m : NoDup (JsMap.keys m) -> NoDup (JsMap.keys (JsMap.delete k m)).
Proof. intros H. rewrite keys_delete. by apply NoDup_filter. Qed.

Lemma keys_set_present k v m :
  k ∈ JsMap.keys m -> JsMap.keys (JsMap.set k v m) = JsMap.keys m.
Proof.
  induction m as [|[k' v'] m IH]; simpl.
  - intros H. by apply elem_of_nil in H.
  - destruct (String.eqb_spec k k') as [->|Hne]; [done|].
    intros [?|Hin]%elem_of_cons; [done|]. simpl. by rewrite IH.
Qed.

Lemma keys_set_absent k v m :
  k ∉ JsMap.keys m -> JsMap.keys (JsMap.set k v m) = JsMap.keys m ++ [k].
Proof.
  induction m as [|[k' v'] m IH]; simpl; [done|].
  intros [Hne Hin]%not_elem_of_cons.
  apply String.eqb_neq in Hne as ->. simpl. by rewrite IH.
Qed.

Lemma NoDup_keys_set k v m : NoDup (JsMap.keys m) -> NoDup (JsMap.keys (JsMap.set k v m)).
Proof.
  intros Hnd. destruct (decide (k ∈ JsMap.keys m)) as [Hin|Hin].
  - by rewrite keys_set_present.
  - rewrite keys_set_absent //. apply NoDup_app. split_and!; [done| |apply NoDup_singleton].
    intros x Hx [->|[]%elem_of_nil]%elem_of_cons. done.
Qed.

Lemma size_set_present k v m :
  k ∈ JsMap.keys m -> JsMap.size (JsMap.set k v m) = JsMap.size m.
Proof.
  intros H. unfold JsMap.size. f_equal.
  rewrite -(length_fmap fst (JsMap.set k v m)) -(length_fmap fst m).
  change (fst <$> ?x) with (JsMap.keys x). by rewrite keys_set_present.
Qed.

Lemma size_set_absent k v m :
  k ∉ JsMap.keys m -> JsMap.size (JsMap.set k v m) = JsMap.size m + 1.
Proof.
  intros H. unfold JsMap.size.
  rewrite -(length_fmap fst (JsMap.set k v m)) -(length_fmap fst m).
  change (fst <$> ?x) with (JsMap.keys x). rewrite keys_set_absent //.
  rewrite length_app /=. lia.
Qed.
End JsMapFacts.

(** ** The task orchestrator *)

Module OrchestratorFacts.
Import Orchestrator.

(** *** The heap *)

Lemma heap_modify_eq r f s : heap (modify r f s) !! r = f <$> heap s !! r.
Proof. apply list_lookup_alter_eq. Qed.

Lemma heap_modify_ne r r' f s : r <> r' -> heap (modify r f s) !! r' = heap s !! r'.
Proof. intros. by apply list_lookup_alter_ne. Qed.

Lemma tasks_modify r f s : tasks (modify r f s) = tasks s.
Proof. done. Qed.

Lemma TaskStatus_eqb_eq a b : TaskStatus_eqb a b = true <-> a = b.
Proof. destruct a, b; simpl; split; congruence. Qed.

(** *** Queries on an id that is not in the task map *)

(** C9, as amended: for an id that is not in the task map,
    [getTaskStatus] answers with the ordinary state CANCELLED and
    [getTaskResult] answers [null]; neither reports an error. *)
Theorem C9_lookup_miss_answers_cancelled_and_null (taskId : string) (s : State) :
  JsMap.get taskId (tasks s) = None ->
  getTaskStatus taskId s = CANCELLED /\ getTaskResult taskId s = None.
Proof.
  intros Hmiss. unfold getTaskStatus, getTaskResult, task_of. by rewrite Hmiss.
Qed.

Lemma C9_lookup_miss_witness :
  JsMap.get "ghost" (tasks Scenarios.solo_running) = None /\
  getTaskStatus "ghost" Scenarios.solo_running = CANCELLED /\
  getTaskResult "ghost" Scenarios.solo_running = None.
Proof.
  split; [reflexivity|].
  apply (C9_lookup_miss_answers_cancelled_and_null "ghost" Scenarios.solo_running).
  reflexivity.
Defined.

(** C9, as stated, fails: the status reported for an id that was never
    submitted is CANCELLED, a member of the task life cycle. *)
Lemma C9_unknown_id_has_a_lifecycle_status :
  JsMap.get "ghost" (tasks Scenarios.solo_running) = None /\
  getTaskStatus "ghost" Scenarios.solo_running = CANCELLED.
Proof. split; reflexivity. Qed.

(** *** Completion of a task without dependents *)

(** C10: when an execution resolves with COMPLETED and the task has no
    dependents, the task leaves the task map in the same step; its
    result can no longer be read and its status reads CANCELLED, not
    COMPLETED. *)
Theorem C10_completed_task_without_dependents_is_forgotten
    (s : State) (r : ref) (agent : string) (result : TaskResult) (now : Z)
    (task : TaskInstance) :
  heap s !! r = Some task ->
  dependents task = [] ->
  r_status result = COMPLETED ->
  let s' := executeTask_settle r agent (Resolved result) now s in
  JsMap.get (id task) (tasks s') = None /\
  getTaskResult (id task) s' = None /\
  getTaskStatus (id task) s' = CANCELLED /\
  getTaskStatus (id task) s' <> COMPLETED.
Proof.
  intros Hr Hdeps Hst s'.
  assert (Hgone : JsMap.get (id task) (tasks s') = None).
  { subst s'. unfold executeTask_settle. rewrite Hst /=.
    unfold handleTaskCompletion.
    rewrite /emit /= list_lookup_alter_eq Hr /= Hdeps /=.
    rewrite list_lookup_alter_eq Hr /= Hdeps /=.
    apply get_delete_eq. }
  unfold getTaskResult, getTaskStatus, task_of. rewrite Hgone /=. done.
Qed.

Lemma C10_witness :
  let s' := Scenarios.solo_completed in
  getTaskStatus "solo" Scenarios.solo_running = RUNNING /\
  JsMap.get "solo" (tasks s') = None /\
  getTaskResult "solo" s' = None /\
  getTaskStatus "solo" s' = CANCELLED /\
  getTaskStatus "solo" s' <> COMPLETED.
Proof.
  split; [reflexivity|].
  apply (C10_completed_task_without_dependents_is_forgotten
           Scenarios.solo_running 0%nat "w1"
           (mkTaskResult "solo" (Some "w1") COMPLETED (Some "done") None None 20) 20
           (mkTaskInstance "solo" "solo" (Some PROCESS) (Some MEDIUM) RUNNING
              (Some "w1") 1 [] [] [] (Some 10) None None));
    reflexivity.
Defined.

(** *** Retry delays *)







(** *** The ready queue and the assignment phase *)

Import Wellformed.

Lemma tier_set_tier_eq p v c h m l :
  tier p (set_tier p v (PriorityTaskQueue c h m l)) = v.
Proof. by destruct p. Qed.

Lemma tier_set_tier_ne p p' v c h m l :
  p <> p' ->
  tier p' (set_tier p v (PriorityTaskQueue c h m l)) = tier p' (PriorityTaskQueue c h m l).
Proof. by destruct p, p'. Qed.

Lemma set_tier_set_tier p v w c h m l :
  set_tier p v (set_tier p w (PriorityTaskQueue c h m l)) =
  set_tier p v (PriorityTaskQueue c h m l).
Proof. by destruct p. Qed.

Lemma queue_size_elements q : queue_size q = Z.of_nat (length (queue_elements q)).
Proof. destruct q; simpl; rewrite ?length_app; lia. Qed.

(** [getNext] takes the head of the first non-empty array. *)
Lemma getNext_priority c h m l r q' :
  queue_getNext (PriorityTaskQueue c h m l) = Some (r, q') <->
  exists p rest,
    tier p (PriorityTaskQueue c h m l) = r :: rest /\
    (forall p', (rank p' < rank p)%nat -> tier p' (PriorityTaskQueue c h m l) = []) /\
    q' = set_tier p rest (PriorityTaskQueue c h m l).
Proof.
  split.
  - destruct c as [|x c]; [destruct h as [|x h]; [destruct m as [|x m]; [destruct l as [|x l]|]|]|];
      simpl; intros [= <- <-].
    + exists LOW, l. split_and!; [done | intros []; simpl; (done || lia) | done].
    + exists MEDIUM, m. split_and!; [done | intros []; simpl; (done || lia) | done].
    + exists HIGH, h. split_and!; [done | intros []; simpl; (done || lia) | done].
    + exists CRITICAL, c. split_and!; [done | intros []; simpl; (done || lia) | done].
  - intros (p & rest & Hp & Hhigher & ->).
    pose proof (Hhigher CRITICAL) as Hc. pose proof (Hhigher HIGH) as Hh.
    pose proof (Hhigher MEDIUM) as Hm.
    destruct p; simpl in Hp, Hc, Hh, Hm; subst.
    + done.
    + rewrite Hc; [lia|]. done.
    + rewrite Hc; [lia|]. rewrite Hh; [lia|]. done.
    + rewrite Hc; [lia|]. rewrite Hh; [lia|]. rewrite Hm; [lia|]. done.
Qed.

Lemma getNext_elements q r q' :
  queue_getNext q = Some (r, q') ->
  length (queue_elements q) = S (length (queue_elements q')).
Proof.
  destruct q as [c h m l|l].
  - destruct c as [|x c]; [destruct h as [|x h]; [destruct m as [|x m]; [destruct l as [|x l]|]|]|];
      simpl; intros [= <- <-]; simpl; rewrite ?length_app /=; lia.
  - destruct l; simpl; intros [= <- <-]; done.
Qed.

Lemma getNext_nonempty q :
  queue_elements q <> [] -> exists r q', queue_getNext q = Some (r, q').
Proof.
  destruct q as [c h m l|l].
  - destruct c as [|x c]; [destruct h as [|x h]; [destruct m as [|x m]; [destruct l as [|x l]|]|]|];
      simpl; intros H; try done; eauto.
  - destruct l; simpl; intros H; try done; eauto.
Qed.

(** [add] appends to the array of the task's priority and leaves the
    other arrays alone. *)
Lemma queue_add_priority (hp : Heap) r p c h m l :
  hp !! r ≫= priority = Some p ->
  queue_add hp r (PriorityTaskQueue c h m l) =
  set_tier p (tier p (PriorityTaskQueue c h m l) ++ [r]) (PriorityTaskQueue c h m l).
Proof. intros H. unfold queue_add. by rewrite H. Qed.

Lemma queue_assignTaskToAgent r agent now s :
  queue (assignTaskToAgent r agent now s) = queue s.
Proof.
  unfold assignTaskToAgent, executeTask_begin. destruct (heap s !! r) eqn:E; [|done].
  rewrite /emit /= list_lookup_alter_eq E /=. done.
Qed.

(** The loop of [assignTasks] ends: the queue holds enough fuel. *)
Lemma assignTasks_loop_total fuel now available s :
  (length (queue_elements (queue s)) <= fuel)%nat ->
  exists s', assignTasks_loop fuel now available s = Some s'.
Proof.
  revert available s. induction fuel as [|fuel IH]; intros available s Hfuel.
  - simpl. rewrite queue_size_elements.
    replace (length (queue_elements (queue s))) with 0%nat by lia. simpl. eauto.
  - simpl. destruct (_ && _); [|eauto].
    destruct (queue_getNext (queue s)) as [[r q']|] eqn:E; [|eauto].
    destruct (ask_strategy _ _ _); [|eauto].
    apply IH. rewrite queue_assignTaskToAgent /=.
    apply getNext_elements in E. lia.
Qed.

Lemma assignTasks_total now s : exists s', assignTasks now s = Some s'.
Proof. by apply assignTasks_loop_total. Qed.

(** One iteration of the loop on a priority queue. *)
Lemma assignTasks_loop_step fuel now available s c h m l :
  queue s = PriorityTaskQueue c h m l ->
  tiers_agree (heap s) (queue s) ->
  c ++ h ++ m ++ l <> [] ->
  available <> [] ->
  exists p r rest,
    tier p (queue s) = r :: rest /\
    (forall p', (rank p' < rank p)%nat -> tier p' (queue s) = []) /\
    queue_getNext (queue s) = Some (r, set_tier p rest (queue s)) /\
    let popped := with_queue (set_tier p rest (queue s)) s in
    match ask_strategy popped r available with
    | Some agent =>
        assignTasks_loop (S fuel) now available s =
        assignTasks_loop fuel now (remove_agent agent available)
          (assignTaskToAgent r agent now popped)
    | None =>
        assignTasks_loop (S fuel) now available s =
        Some (with_queue (set_tier p (rest ++ [r]) (queue s)) s)
    end.
Proof.
  intros Hq Hagree Hne Havail.
  destruct (getNext_nonempty (queue s)) as (r & q' & Hnext); [by rewrite Hq|].
  pose proof Hnext as Hnext'. rewrite Hq in Hnext'.
  pose proof Hnext' as (p & rest & Hp & Hhigher & ->)%getNext_priority.
  exists p, r, rest. rewrite Hq. split_and!; [done | done | done |].
  intros popped. cbn [assignTasks_loop].
  assert ((0 <? queue_size (queue s)) = true) as ->.
  { rewrite queue_size_elements Hq /=. apply Z.ltb_lt.
    destruct (c ++ h ++ m ++ l); [done|]. simpl. lia. }
  assert (negb (Nat.eqb (length available) 0) = true) as ->.
  { by destruct available. }
  rewrite Hnext. cbn [andb].
  change (with_queue (set_tier p rest (PriorityTaskQueue c h m l)) s) with popped.
  destruct (ask_strategy popped r available); [done|].
  f_equal. unfold enqueue. subst popped.
  assert (heap s !! r ≫= priority = Some p) as Hprio.
  { apply Hagree. rewrite Hq Hp. left. }
  destruct s as [cfg hp tk q ag run dg ev]. simpl in *. subst q.
  unfold with_queue. simpl. f_equal.
  destruct p; simpl in Hp; subst; simpl; rewrite Hprio /=; done.
Qed.

(** *** Queued tasks sit in the tier of their priority *)

Lemma agree_same s s' :
  heap s' = heap s -> queue s' = queue s ->
  tiers_agree (heap s) (queue s) -> tiers_agree (heap s') (queue s').
Proof. by intros -> ->. Qed.

Lemma agree_heap h' s :
  priorities_kept (heap s) h' ->
  tiers_agree (heap s) (queue s) ->
  tiers_agree (heap (with_heap h' s)) (queue (with_heap h' s)).
Proof. intros Hkept Hs p r Hin. apply Hkept, Hs, Hin. Qed.

Lemma agree_modify r f s :
  (forall t, priority (f t) = priority t) ->
  tiers_agree (heap s) (queue s) ->
  tiers_agree (heap (modify r f s)) (queue (modify r f s)).
Proof.
  intros Hf. apply agree_heap. intros r' p. unfold update.
  destruct (decide (r = r')) as [<-|Hne].
  - rewrite list_lookup_alter_eq. destruct (heap s !! r) as [t|]; simpl; [|done].
    by rewrite Hf.
  - by rewrite list_lookup_alter_ne.
Qed.

Lemma agree_queue q' s :
  tiers_shrink (queue s) q' ->
  tiers_agree (heap s) (queue s) ->
  tiers_agree (heap (with_queue q' s)) (queue (with_queue q' s)).
Proof. intros Hsub Hs p r Hin. apply Hs, Hsub, Hin. Qed.

Lemma agree_enqueue r s :
  tiers_agree (heap s) (queue s) ->
  tiers_agree (heap (enqueue r s)) (queue (enqueue r s)).
Proof.
  intros Hs p x. simpl. unfold queue_add. unfold tiers_agree in Hs.
  destruct (queue s) as [c h m l|l]; [|intros Hin; by apply elem_of_nil in Hin].
  destruct (heap s !! r ≫= priority) as [p0|] eqn:Hp; [|by apply Hs].
  destruct (decide (p0 = p)) as [->|Hne].
  - rewrite tier_set_tier_eq. intros [Hin|Hin]%elem_of_app; [by apply Hs|].
    by apply list_elem_of_singleton in Hin as ->.
  - rewrite tier_set_tier_ne //. by apply Hs.
Qed.

Lemma agree_fold {A} (f : State -> A -> State) (l : list A) s :
  (forall st a, tiers_agree (heap st) (queue st) ->
                tiers_agree (heap (f st a)) (queue (f st a))) ->
  tiers_agree (heap s) (queue s) ->
  tiers_agree (heap (fold_left f l s)) (queue (fold_left f l s)).
Proof.
  intros Hf. revert s. induction l as [|a l IH]; intros s Hs; simpl; auto.
Qed.

Lemma getNext_shrinks q r q' : queue_getNext q = Some (r, q') -> tiers_shrink q q'.
Proof.
  destruct q as [c h m l|l].
  - destruct c as [|x c]; [destruct h as [|x h]; [destruct m as [|x m]; [destruct l as [|x l]|]|]|];
      simpl; intros [= <- <-] [] y; simpl; set_solver.
  - destruct l; simpl; intros [= <- <-] p y Hin; by apply elem_of_nil in Hin.
Qed.

Lemma remove_first_sub f l l' x : remove_first f l = Some l' -> x ∈ l' -> x ∈ l.
Proof.
  revert l'. induction l as [|y l IH]; intros l'; simpl; [done|].
  destruct (f y); [intros [= <-]; set_solver|].
  destruct (remove_first f l) as [l''|]; [|done]. intros [= <-].
  intros [->|Hin]%elem_of_cons; [left | right; by apply (IH l'')].
Qed.

Lemma queue_remove_shrinks hp taskId q : tiers_shrink q (queue_remove hp taskId q).
Proof.
  destruct q as [c h m l|l];
    [|unfold queue_remove; destruct (remove_first _ l);
      intros p x Hin; by apply elem_of_nil in Hin].
  unfold queue_remove, priorityOrder, remove_tiers.
  destruct (remove_first _ (tier CRITICAL _)) as [l'|] eqn:E1;
    [|destruct (remove_first _ (tier HIGH _)) as [l'|] eqn:E2;
      [|destruct (remove_first _ (tier MEDIUM _)) as [l'|] eqn:E3;
        [|destruct (remove_first _ (tier LOW _)) as [l'|] eqn:E4]]];
    intros [] x; simpl; try done; by eapply remove_first_sub.
Qed.

(** Each operation keeps the queue in agreement with the heap. *)
Section Agreement.
Local Abbreviation agree s := (tiers_agree (heap s) (queue s)).

Lemma agree_emit e s : agree s -> agree (emit e s).
Proof. done. Qed.

Lemma agree_add_dependent taskId s depId : agree s -> agree (add_dependent taskId s depId).
Proof.
  intros Hs. unfold add_dependent. destruct (JsMap.get _ _); [|done].
  by apply agree_modify.
Qed.

Lemma agree_updateDependencyGraph r s : agree s -> agree (updateDependencyGraph r s).
Proof.
  intros Hs. unfold updateDependencyGraph. destruct (heap s !! r); [|done].
  apply agree_fold; [intros; by apply agree_add_dependent | done].
Qed.

Lemma agree_submitTask task uuid s s' :
  submitTask task uuid s = Ok s' -> agree s -> agree s'.
Proof.
  unfold submitTask. destruct (_ >=? _); [done|]. intros Hsub Hs.
  assert (agree (updateDependencyGraph (length (heap s))
            (with_tasks
               (JsMap.set (id (new_instance task uuid)) (length (heap s))
                  (tasks (with_heap (heap s ++ [new_instance task uuid]) s)))
               (with_heap (heap s ++ [new_instance task uuid]) s)))) as H3.
  { apply agree_updateDependencyGraph.
    change (agree (with_heap (heap s ++ [new_instance task uuid]) s)).
    apply agree_heap; [|done]. intros r p Hr.
    rewrite lookup_app_l //. destruct (heap s !! r) eqn:E; [|done].
    by apply lookup_lt_Some in E. }
  destruct (canQueueTask _ _); injection Hsub as <-; [|done].
  by apply (agree_enqueue _ _ H3).
Qed.

Lemma agree_unregisterAgent agentId s : agree s -> agree (unregisterAgent agentId s).
Proof.
  intros Hs. unfold unregisterAgent.
  change (agree (fold_left reassign
            (filter (fun r => reassignable (with_agents (JsMap.delete agentId (agents s)) s)
                                agentId r = true)
               (JsMap.values (tasks s)))
            (with_agents (JsMap.delete agentId (agents s)) s))).
  apply agree_fold; [|done]. intros st r Hst. unfold reassign.
  by apply agree_enqueue, agree_modify.
Qed.

Lemma agree_cancel_each cancel ds :
  (forall d s s', cancel d s = Some s' -> agree s -> agree s') ->
  forall s s', cancel_each cancel ds s = Some s' -> agree s -> agree s'.
Proof.
  intros Hcancel. induction ds as [|d ds IH]; intros s s'; simpl.
  - by intros [= <-].
  - destruct (cancel d s) as [s1|] eqn:E; [|done]. eauto.
Qed.

Lemma agree_cancelTask fuel :
  forall taskId s s', cancelTask fuel taskId s = Some s' -> agree s -> agree s'.
Proof.
  induction fuel as [|fuel IH]; intros taskId s s'; [done|]. simpl.
  destruct (JsMap.get taskId (tasks s)) as [r|]; [|by intros [= <-]].
  destruct (heap s !! r) as [task|]; [|by intros [= <-]].
  destruct (cancel_each _ _ _) as [s4|] eqn:E; [|done]. intros [= <-] Hs.
  apply (agree_cancel_each _ _ IH) in E; [done|].
  apply agree_queue; [apply queue_remove_shrinks|].
  apply agree_modify; [done|].
  unfold request_cancel. destruct (TaskStatus_eqb _ _); [|done].
  by destruct (_ ≫= _).
Qed.

Lemma agree_handleTaskFailure r result now s :
  agree s -> agree (handleTaskFailure r result now s).
Proof.
  intros Hs. unfold handleTaskFailure. destruct (heap s !! r) as [task|]; [|done].
  destruct (shouldRetry _ _).
  - destruct (retryPolicy _); [|done].
    apply (agree_modify r _ (emit _ s)); done.
  - apply agree_fold; [|done]. intros st d Hst. unfold cascade_fail.
    destruct (JsMap.get _ _) as [r'|]; [|done].
    destruct (heap st !! r'); [|done]. destruct (TaskStatus_eqb _ _); [|done].
    by apply (agree_modify r' _ st).
Qed.

Lemma agree_handleTaskCompletion r s : agree s -> agree (handleTaskCompletion r s).
Proof.
  intros Hs. unfold handleTaskCompletion. destruct (heap s !! r) as [task|]; [|done].
  assert (agree (fold_left (unblock (id task)) (dependents task) s)) as H1.
  { apply agree_fold; [|done]. intros st d Hst. unfold unblock.
    destruct (JsMap.get _ _) as [r'|]; [|done].
    assert (agree (modify r' (fun dep =>
              set_dependencies (JsSet.delete (id task) (dependencies dep)) dep) st)) as H
      by (by apply agree_modify).
    destruct (canQueueTask _ _); [|done]. by apply (agree_enqueue _ _ H). }
  destruct (heap _ !! r); [|done]. by destruct (Nat.eqb _ _).
Qed.

Lemma agree_settle r agent o now s : agree s -> agree (executeTask_settle r agent o now s).
Proof.
  intros Hs. unfold executeTask_settle. destruct o as [result|error].
  - destruct (TaskStatus_eqb _ _).
    + apply agree_handleTaskCompletion. by apply (agree_modify r _ s).
    + apply agree_handleTaskFailure. by apply agree_modify.
  - destruct (heap s !! r); [|done].
    apply agree_handleTaskFailure. by apply agree_modify.
Qed.

Lemma agree_assignTaskToAgent r agent now s :
  agree s -> agree (assignTaskToAgent r agent now s).
Proof.
  intros Hs. unfold assignTaskToAgent. destruct (heap s !! r); [|done].
  unfold executeTask_begin. destruct (heap _ !! r).
  - apply agree_emit, agree_modify; [done|]. by apply agree_emit, agree_modify.
  - by apply agree_emit, agree_modify.
Qed.

Lemma agree_assignTasks_loop fuel now :
  forall available s s',
    assignTasks_loop fuel now available s = Some s' -> agree s -> agree s'.
Proof.
  induction fuel as [|fuel IH]; intros available s s'; simpl.
  - destruct (_ && _); [done|]. by intros [= <-].
  - destruct (_ && _); [|by intros [= <-]].
    destruct (queue_getNext (queue s)) as [[r q']|] eqn:E; [|by intros [= <-]].
    apply getNext_shrinks in E. intros Hloop Hs.
    assert (agree (with_queue q' s)) as Hpopped by (by apply agree_queue).
    destruct (ask_strategy _ _ _) as [agent|].
    + eapply IH; [exact Hloop|]. by apply agree_assignTaskToAgent.
    + injection Hloop as <-. by apply (agree_enqueue _ _ Hpopped).
Qed.

Lemma agree_processTasks now s s' : processTasks now s = Some s' -> agree s -> agree s'.
Proof.
  unfold processTasks. destruct (running s); [|by intros [= <-]].
  destruct (assignTasks _ _) as [s1|] eqn:E; [|done]. intros [= <-] Hs.
  apply agree_fold.
  { intros st r Hst. unfold time_out_if_late.
    destruct (heap st !! r); [|done]. destruct (startTime _); [|done].
    destruct (_ && _); [|done].
    apply agree_emit, agree_handleTaskFailure. by apply agree_modify. }
  eapply agree_assignTasks_loop; [exact E|].
  apply agree_fold.
  { intros st r Hst. unfold queue_if_met.
    destruct (heap st !! r); [|done]. destruct (_ && _); [|done].
    by apply agree_emit, agree_enqueue. }
  apply agree_fold; [|done].
  intros st r Hst. unfold retry_if_due.
  destruct (heap st !! r); [|done]. destruct (nextRetryTime _); [|done].
  destruct (_ && _); [|done].
  apply agree_emit, agree_modify; [done|]. by apply agree_enqueue.
Qed.

Lemma agree_step s s' : step s s' -> agree s -> agree s'.
Proof.
  intros Hstep Hs. destruct Hstep.
  - unfold start. by destruct (running s).
  - unfold stop. by destruct (running s).
  - done.
  - done.
  - by eapply agree_submitTask.
  - done.
  - by apply agree_unregisterAgent.
  - by eapply agree_cancelTask.
  - by eapply agree_processTasks.
  - by apply agree_settle.
Qed.

(** In every state that an orchestrator can be in, the queued tasks sit
    in the tier of their priority. *)
Lemma reachable_tiers_agree s : reachable s -> agree s.
Proof.
  intros [cfg Hsteps].
  assert (agree (new cfg)) as Hnew.
  { intros p r. unfold new. simpl. destruct (priorityQueueEnabled cfg), p; simpl;
      intros Hin; by apply elem_of_nil in Hin. }
  revert Hnew. induction Hsteps; eauto using agree_step.
Qed.
End Agreement.

(** C1, as amended: in every state that the orchestrator can be in,
    [getNext] takes the head of the highest non-empty tier, [add] appends
    at the tail of the task's tier (so a tier is in enqueue order), every
    iteration of the assignment loop pops that task and, when the
    strategy returns no agent for it, puts it back at the tail of its
    tier (behind every task then waiting in that tier) and ends the
    assignment phase; the phase always ends. *)
Theorem C1_assignment_pops_by_tier_and_requeues_at_tail
    (fuel : nat) (now : Z) (available : list string) (s : State)
    (c h m l : list ref) :
  reachable s ->
  queue s = PriorityTaskQueue c h m l ->
  c ++ h ++ m ++ l <> [] ->
  available <> [] ->
  (exists p r rest,
     tier p (queue s) = r :: rest /\
     (forall p', (rank p' < rank p)%nat -> tier p' (queue s) = []) /\
     queue_getNext (queue s) = Some (r, set_tier p rest (queue s)) /\
     let popped := with_queue (set_tier p rest (queue s)) s in
     match ask_strategy popped r available with
     | Some agent =>
         assignTasks_loop (S fuel) now available s =
         assignTasks_loop fuel now (remove_agent agent available)
           (assignTaskToAgent r agent now popped)
     | None =>
         assignTasks_loop (S fuel) now available s =
         Some (with_queue (set_tier p (rest ++ [r]) (queue s)) s)
     end) /\
  (forall (r : ref) (p : Priority),
     heap s !! r ≫= priority = Some p ->
     tier p (queue_add (heap s) r (queue s)) = tier p (queue s) ++ [r] /\
     forall p', p <> p' -> tier p' (queue_add (heap s) r (queue s)) = tier p' (queue s)) /\
  (exists s', assignTasks now s = Some s').
Proof.
  intros Hagree%reachable_tiers_agree Hq Hne Havail. split_and!.
  - by eapply assignTasks_loop_step.
  - intros r p Hprio. rewrite Hq (queue_add_priority _ _ p) //. split.
    + apply tier_set_tier_eq.
    + intros p' Hp'. by apply tier_set_tier_ne.
  - apply assignTasks_total.
Qed.

Lemma reachable_new cfg : reachable (new cfg).
Proof. exists cfg. apply rtc_refl. Qed.

Lemma reachable_step s s' : reachable s -> step s s' -> reachable s'.
Proof. intros [cfg Hs] Hstep. exists cfg. by eapply rtc_r. Qed.

Lemma reachable_submitted t s :
  reachable s -> reachable (Scenarios.submitted t s).
Proof.
  intros Hs. rewrite /Scenarios.submitted.
  destruct (submitTask t "0000" s) as [s'|e] eqn:Hsub; [|done].
  eapply reachable_step; [done|]. by eapply step_submitTask.
Qed.

Lemma two_medium_reachable : reachable Scenarios.two_medium_no_agent.
Proof.
  rewrite /Scenarios.two_medium_no_agent.
  eapply reachable_step; [|apply step_registerAgent].
  do 2 apply reachable_submitted.
  eapply reachable_step; [|apply step_start].
  apply reachable_new.
Qed.

Lemma C1_witness :
  let s := Scenarios.two_medium_no_agent in
  reachable s /\
  queue s = PriorityTaskQueue [] [] [0; 1]%nat [] /\
  assignTasks_loop 1 5 ["w1"] s =
    Some (with_queue (PriorityTaskQueue [] [] [1; 0]%nat []) s).
Proof.
  intros s. split; [apply two_medium_reachable|]. split; [reflexivity|].
  destruct (C1_assignment_pops_by_tier_and_requeues_at_tail
              0 5 ["w1"] s [] [] [0; 1]%nat [] two_medium_reachable eq_refl)
    as [(p & r & rest & Hp & Hhigher & Hnext & Hstep) _]; [done | done |].
  injection Hnext as <- Hrest.
  destruct p; try discriminate Hp.
  injection Hp as <-.
  exact Hstep.
Defined.

(** C1, as stated, fails: the task for which the strategy finds no agent
    is not the next one popped from its tier; it went to the tail, and
    the task enqueued after it is now at the head. *)
Lemma C1_requeued_task_is_not_at_the_head :
  let s := Scenarios.two_medium_no_agent in
  (fst <$> queue_getNext (queue s)) = Some 0%nat /\
  ask_strategy s 0%nat (JsMap.values (agents s)) = None /\
  exists s',
    assignTasks 5 s = Some s' /\
    tier MEDIUM (queue s') = [1; 0]%nat /\
    (fst <$> queue_getNext (queue s')) = Some 1%nat /\
    (fst <$> queue_getNext (queue s')) <> Some 0%nat.
Proof.
  intros s. split; [reflexivity|]. split; [reflexivity|].
  eexists. split; [reflexivity|]. split; [reflexivity|]. split; [reflexivity|].
  discriminate.
Qed.

(** *** Submission *)

Lemma set_dependents_same t : set_dependents (dependents t) t = t.
Proof. by destruct t. Qed.

Lemma dependents_frame_refl s : dependents_frame s s.
Proof.
  split_and!; try done. intros r t Hr. exists (dependents t).
  by rewrite set_dependents_same.
Qed.

Lemma dependents_frame_trans s1 s2 s3 :
  dependents_frame s1 s2 -> dependents_frame s2 s3 -> dependents_frame s1 s3.
Proof.
  intros (Hc1 & Ht1 & Hq1 & He1 & Hh1) (Hc2 & Ht2 & Hq2 & He2 & Hh2).
  split_and!; try congruence.
  intros r t Hr. destruct (Hh1 r t Hr) as [ds1 H1].
  destruct (Hh2 r _ H1) as [ds2 H2]. exists ds2. by rewrite H2.
Qed.

Lemma add_dependent_frame taskId s depId :
  dependents_frame s (add_dependent taskId s depId).
Proof.
  unfold add_dependent. destruct (JsMap.get depId (tasks s)) as [d|];
    [|apply dependents_frame_refl].
  split_and!; try done. intros r t Hr. simpl.
  destruct (decide (d = r)) as [->|Hne].
  - rewrite list_lookup_alter_eq Hr /=. eauto.
  - rewrite list_lookup_alter_ne // Hr. exists (dependents t).
    by rewrite set_dependents_same.
Qed.

Lemma fold_add_dependent_frame taskId deps s :
  dependents_frame s (fold_left (add_dependent taskId) deps s).
Proof.
  revert s. induction deps as [|d deps IH]; intros s; simpl.
  - apply dependents_frame_refl.
  - eapply dependents_frame_trans; [apply add_dependent_frame | apply IH].
Qed.

Lemma updateDependencyGraph_frame r s :
  dependents_frame s (updateDependencyGraph r s).
Proof.
  unfold updateDependencyGraph. destruct (heap s !! r) as [t|];
    [|apply dependents_frame_refl].
  eapply dependents_frame_trans; [|apply fold_add_dependent_frame].
  split_and!; try done. intros r' t' Hr'. exists (dependents t').
  by rewrite set_dependents_same.
Qed.

Lemma truthy_id_Some o i : truthy_id o = Some i -> o = Some i /\ i <> "".
Proof. destruct o as [[|c k]|]; simpl; intros [= <-]; done. Qed.

(** What [submitTask] stores, whatever the task map held under the id. *)
Lemma submitTask_stores_fresh (task : Task) (uuid taskId : string) (s : State) :
  truthy_id (t_id task) = Some taskId ->
  queue_size (queue s) < maxQueueSize (config s) ->
  exists s' inst,
    submitTask task uuid s = Ok s' /\
    JsMap.get taskId (tasks s') = Some (length (heap s)) /\
    task_of taskId s' = Some inst /\
    id inst = taskId /\ status inst = PENDING /\ attempts inst = 0 /\
    results inst = [] /\
    dependencies inst = JsSet.of_list (t_dependencies task).
Proof.
  intros Hid Hroom. unfold submitTask.
  assert ((queue_size (queue s) >=? maxQueueSize (config s)) = false) as ->
    by (rewrite Z.geb_leb; apply Z.leb_gt; lia).
  set (instance := new_instance task uuid).
  set (r := length (heap s)).
  set (s2 := with_tasks _ (with_heap _ s)).
  assert (id instance = taskId) as Hinst by (by rewrite /instance /new_instance /= Hid).
  assert (heap s2 !! r = Some instance) as Hr.
  { subst s2 r. simpl. by apply list_lookup_middle. }
  destruct (updateDependencyGraph_frame r s2) as (Hc & Ht & Hq & He & Hh).
  destruct (Hh r instance Hr) as [ds Hds].
  assert (JsMap.get taskId (tasks (updateDependencyGraph r s2)) = Some r) as Hget.
  { rewrite Ht -Hinst. subst s2. apply get_set_eq. }
  destruct (canQueueTask _ r); eexists _, (set_dependents ds instance);
    (split; [reflexivity|]);
    rewrite /task_of /emit /enqueue /= Hget /= Hds; split_and!; done.
Qed.

(** C5, as amended: [submitTask] throws only when the queue is full;
    for an id that is already in the task map, live or terminal, it is
    neither rejected nor idempotent: the id is bound to a newly created
    instance (PENDING, no attempts, no results, the dependencies of the
    submitted task), and the coordinator hands that same id back. *)
Theorem C5_submit_binds_the_id_to_a_fresh_instance
    (task : Task) (uuid taskId : string) (s : State) :
  truthy_id (t_id task) = Some taskId ->
  queue_size (queue s) < maxQueueSize (config s) ->
  exists s' inst,
    submitTask task uuid s = Ok s' /\
    JsMap.get taskId (tasks s') = Some (length (heap s)) /\
    task_of taskId s' = Some inst /\
    id inst = taskId /\ status inst = PENDING /\ attempts inst = 0 /\
    results inst = [] /\
    dependencies inst = JsSet.of_list (t_dependencies task) /\
    forall c : SwarmCoordinator.State,
      SwarmCoordinator._state c = SwarmCoordinator.RUNNING ->
      SwarmCoordinator.taskOrchestrator c = s ->
      t_name task <> "" -> t_type task <> None -> t_priority task <> None ->
      SwarmCoordinator.submitTask task uuid c =
        Ok (taskId, SwarmCoordinator.mkState SwarmCoordinator.RUNNING s').
Proof.
  intros Hid Hroom.
  destruct (submitTask_stores_fresh task uuid taskId s Hid Hroom)
    as (s' & inst & Hsub & Hget & Htask & H1 & H2 & H3 & H4 & H5).
  exists s', inst. split_and!; try done.
  intros [st o] Hst Ho Hname Htype Hprio. simpl in Hst, Ho. subst st o.
  unfold SwarmCoordinator.submitTask, SwarmCoordinator.validateTask. simpl.
  destruct task as [tid tname ttype tprio tdeps]. simpl in *.
  destruct tname; [done|]. destruct ttype; [|done]. destruct tprio; [|done].
  simpl. rewrite Hid. apply truthy_id_Some in Hid as [-> _].
  by rewrite Hsub.
Qed.

Lemma C5_witness :
  let s := Scenarios.solo_running in
  getTaskStatus "solo" s = RUNNING /\
  exists s' inst,
    submitTask (Scenarios.task "solo" MEDIUM []) "1111" s = Ok s' /\
    JsMap.get "solo" (tasks s') = Some 1%nat /\
    task_of "solo" s' = Some inst /\
    id inst = "solo" /\ status inst = PENDING /\ attempts inst = 0 /\
    results inst = [] /\
    dependencies inst = JsSet.of_list [] /\
    forall c : SwarmCoordinator.State,
      SwarmCoordinator._state c = SwarmCoordinator.RUNNING ->
      SwarmCoordinator.taskOrchestrator c = s ->
      "solo" <> "" -> Some PROCESS <> None -> Some MEDIUM <> None ->
      SwarmCoordinator.submitTask (Scenarios.task "solo" MEDIUM []) "1111" c =
        Ok ("solo", SwarmCoordinator.mkState SwarmCoordinator.RUNNING s').
Proof.
  intros s. split; [reflexivity|].
  apply (C5_submit_binds_the_id_to_a_fresh_instance
           (Scenarios.task "solo" MEDIUM []) "1111" "solo" s); reflexivity.
Defined.

(** C5, as stated, fails: a submission under the id of a running task
    succeeds and replaces the stored state (the attempt count and the
    RUNNING status are gone), and a submission under the id of a task
    that ended FAILED succeeds as well instead of being rejected. *)
Lemma C5_resubmission_is_neither_rejected_nor_idempotent :
  (getTaskStatus "solo" Scenarios.solo_running = RUNNING /\
   (attempts <$> task_of "solo" Scenarios.solo_running) = Some 1 /\
   submitTask (Scenarios.task "solo" MEDIUM []) "1111" Scenarios.solo_running
     = Ok Scenarios.solo_resubmitted /\
   getTaskStatus "solo" Scenarios.solo_resubmitted = PENDING /\
   (attempts <$> task_of "solo" Scenarios.solo_resubmitted) = Some 0 /\
   task_of "solo" Scenarios.solo_resubmitted <> task_of "solo" Scenarios.solo_running) /\
  (getTaskStatus "job" Scenarios.lone_failed = FAILED /\
   (length <$> (results <$> task_of "job" Scenarios.lone_failed)) = Some 1%nat /\
   submitTask (Scenarios.task "job" MEDIUM []) "1111" Scenarios.lone_failed
     = Ok Scenarios.lone_failed_resubmitted /\
   getTaskStatus "job" Scenarios.lone_failed_resubmitted = PENDING /\
   (results <$> task_of "job" Scenarios.lone_failed_resubmitted) = Some []).
Proof.
  split.
  - split_and!; try (vm_compute; reflexivity).
    vm_compute. discriminate.
  - split_and!; vm_compute; reflexivity.
Qed.

(** *** Cancellation *)

Lemma cancelled_kept_refl s : cancelled_kept s s.
Proof. by split. Qed.

Lemma cancelled_kept_trans s1 s2 s3 :
  cancelled_kept s1 s2 -> cancelled_kept s2 s3 -> cancelled_kept s1 s3.
Proof. intros [Ht1 Hs1] [Ht2 Hs2]. split; [congruence | auto]. Qed.

Lemma status_of_modify_eq r f s :
  status_of (heap (modify r f s)) r = status <$> (f <$> heap s !! r).
Proof. by rewrite /status_of heap_modify_eq. Qed.

Lemma cancel_step_kept taskId task r s :
  heap s !! r = Some task ->
  let s2 := modify r (set_status CANCELLED) (request_cancel taskId task s) in
  let s3 := with_queue (queue_remove (heap s2) taskId (queue s2)) s2 in
  cancelled_kept s s3 /\ status_of (heap s3) r = Some CANCELLED.
Proof.
  intros Hr s2 s3.
  assert (heap (request_cancel taskId task s) = heap s) as Hh.
  { unfold request_cancel. destruct (TaskStatus_eqb _ _); [|done].
    by destruct (_ ≫= _). }
  assert (tasks (request_cancel taskId task s) = tasks s) as Ht.
  { unfold request_cancel. destruct (TaskStatus_eqb _ _); [|done].
    by destruct (_ ≫= _). }
  split; [split|].
  - done.
  - intros r' Hr'. subst s3 s2. simpl. rewrite Hh.
    destruct (decide (r = r')) as [<-|Hne].
    + by rewrite /status_of list_lookup_alter_eq Hr.
    + by rewrite /status_of list_lookup_alter_ne.
  - subst s3 s2. simpl. by rewrite Hh /status_of list_lookup_alter_eq Hr.
Qed.

Lemma cancel_each_kept cancel ds :
  (forall d s s', cancel d s = Some s' -> cancelled_kept s s') ->
  forall s s', cancel_each cancel ds s = Some s' -> cancelled_kept s s'.
Proof.
  intros Hcancel. induction ds as [|d ds IH]; intros s s'; simpl.
  - intros [= <-]. apply cancelled_kept_refl.
  - destruct (cancel d s) as [s1|] eqn:E; [|done]. intros Hrest.
    eapply cancelled_kept_trans; eauto.
Qed.

Lemma cancelTask_kept fuel :
  forall taskId s s', cancelTask fuel taskId s = Some s' -> cancelled_kept s s'.
Proof.
  induction fuel as [|fuel IH]; intros taskId s s'; [done|]. simpl.
  destruct (JsMap.get taskId (tasks s)) as [r|]; [|intros [= <-]; apply cancelled_kept_refl].
  destruct (heap s !! r) as [task|] eqn:Hr; [|intros [= <-]; apply cancelled_kept_refl].
  destruct (cancel_each _ _ _) as [s4|] eqn:E; [|done]. intros [= <-].
  destruct (cancel_step_kept taskId task r s Hr) as [Hkept _].
  apply cancel_each_kept in E; [|exact IH].
  destruct Hkept as [Ht1 Hs1], E as [Ht2 Hs2]. split.
  - etransitivity; [exact Ht2 | exact Ht1].
  - intros r' Hr'. apply Hs2, Hs1, Hr'.
Qed.

(** C4, what the code does: whenever [cancelTask] returns, the task it
    was called on is CANCELLED, whatever its status was before, a
    terminal one included. *)
Theorem C4_cancelTask_overwrites_any_status
    (fuel : nat) (taskId : string) (s s' : State) (task : TaskInstance) :
  task_of taskId s = Some task ->
  cancelTask fuel taskId s = Some s' ->
  getTaskStatus taskId s' = CANCELLED.
Proof.
  unfold task_of. destruct (JsMap.get taskId (tasks s)) as [r|] eqn:Hget; [|done].
  simpl. intros Hr Hcancel. destruct fuel as [|fuel]; [done|]. simpl in Hcancel.
  rewrite Hget Hr in Hcancel.
  destruct (cancel_each _ _ _) as [s4|] eqn:E; [|done]. injection Hcancel as <-.
  destruct (cancel_step_kept taskId task r s Hr) as [[Ht _] Hst].
  apply cancel_each_kept in E as [Ht4 Hs4]; [|apply cancelTask_kept].
  specialize (Hs4 r Hst).
  rewrite /getTaskStatus /task_of /= Ht4 Ht Hget /=.
  unfold status_of in Hs4. destruct (heap s4 !! r); [|done].
  by injection Hs4.
Qed.

Lemma C4_witness :
  getTaskStatus "A" Scenarios.chain_two_completed = COMPLETED /\
  getTaskStatus "B" Scenarios.chain_two_completed = COMPLETED /\
  cancelTask 3 "A" Scenarios.chain_two_completed = Some Scenarios.chain_cancelled /\
  getTaskStatus "A" Scenarios.chain_cancelled = CANCELLED /\
  getTaskStatus "B" Scenarios.chain_cancelled = CANCELLED.
Proof.
  split; [vm_compute; reflexivity|]. split; [vm_compute; reflexivity|].
  split; [vm_compute; reflexivity|]. split.
  - apply (C4_cancelTask_overwrites_any_status 3 "A" Scenarios.chain_two_completed
             Scenarios.chain_cancelled
             (mkTaskInstance "A" "A" (Some PROCESS) (Some MEDIUM) COMPLETED (Some "w1") 1
                [mkTaskResult "A" (Some "w1") COMPLETED (Some "done") None None 20]
                [] ["B"] (Some 10) (Some 20) None));
      vm_compute; reflexivity.
  - vm_compute; reflexivity.
Defined.

(** The same for a task that ended FAILED. *)
Lemma cancelTask_overwrites_failed :
  getTaskStatus "job" Scenarios.lone_failed = FAILED /\
  (getTaskStatus "job" <$> cancelTask 1 "job" Scenarios.lone_failed) = Some CANCELLED.
Proof. split; vm_compute; reflexivity. Qed.

(** *** Tasks that a tick leaves alone

    A task that is neither PENDING nor RUNNING and is not in the ready
    queue is out of reach of [processTasks]: the retry and dependency
    passes look at PENDING tasks, the assignment phase at queued ones,
    the timeout sweep at RUNNING ones and at their PENDING dependents. *)

Lemma queue_add_elements hp r' q x :
  x ∈ queue_elements (queue_add hp r' q) -> x = r' \/ x ∈ queue_elements q.
Proof.
  destruct q as [c h m l|l]; simpl.
  - destruct (hp !! r' ≫= priority) as [[]|]; simpl; set_solver.
  - set_solver.
Qed.

Lemma getNext_elem q r' q' :
  queue_getNext q = Some (r', q') ->
  r' ∈ queue_elements q /\ forall x, x ∈ queue_elements q' -> x ∈ queue_elements q.
Proof.
  destruct q as [c h m l|l].
  - destruct c as [|x c]; [destruct h as [|x h]; [destruct m as [|x m]; [destruct l as [|x l]|]|]|];
      simpl; intros [= <- <-]; simpl; set_solver.
  - destruct l; simpl; intros [= <- <-]; set_solver.
Qed.

Section Untouched.
Variable r : ref.
Variable t : TaskInstance.
Hypothesis not_pending : status t <> PENDING.
Hypothesis not_running : status t <> RUNNING.

Lemma untouched_emit e s : untouched r t s -> untouched r t (emit e s).
Proof. done. Qed.

Lemma untouched_modify r' f s :
  r' <> r -> untouched r t s -> untouched r t (modify r' f s).
Proof.
  intros Hne [Hr Hq]. split; [|done]. by rewrite heap_modify_ne.
Qed.

Lemma untouched_enqueue r' s :
  r' <> r -> untouched r t s -> untouched r t (enqueue r' s).
Proof.
  intros Hne [Hr Hq]. split; [done|]. simpl.
  intros [->|Hin]%queue_add_elements; done.
Qed.

Lemma untouched_fold {A} (f : State -> A -> State) (l : list A) s :
  (forall st a, untouched r t st -> untouched r t (f st a)) ->
  untouched r t s -> untouched r t (fold_left f l s).
Proof.
  intros Hf. revert s. induction l as [|a l IH]; intros s Hs; simpl; auto.
Qed.

(** A reference whose task has another status than [t] is not [r]. *)
Lemma other_ref r' task s :
  untouched r t s -> heap s !! r' = Some task -> status task <> status t -> r' <> r.
Proof. intros [Hr _] Hr' Hst ->. congruence. Qed.

Lemma untouched_retry_if_due now s r' :
  untouched r t s -> untouched r t (retry_if_due now s r').
Proof.
  intros Hs. unfold retry_if_due.
  destruct (heap s !! r') as [task|] eqn:Hr'; [|done].
  destruct (nextRetryTime task); [|done].
  destruct (TaskStatus_eqb (status task) PENDING) eqn:Hst; [|done].
  destruct (_ <=? _); [|done]. apply TaskStatus_eqb_eq in Hst.
  assert (r' <> r) by (eapply other_ref; eauto; congruence).
  by apply untouched_emit, untouched_modify, untouched_enqueue.
Qed.

Lemma untouched_queue_if_met s r' :
  untouched r t s -> untouched r t (queue_if_met s r').
Proof.
  intros Hs. unfold queue_if_met.
  destruct (heap s !! r') as [task|] eqn:Hr'; [|done].
  destruct (TaskStatus_eqb (status task) PENDING) eqn:Hst; [|done].
  destruct (negb _); [|done]. destruct (canQueueTask s r'); [|done].
  apply TaskStatus_eqb_eq in Hst.
  assert (r' <> r) by (eapply other_ref; eauto; congruence).
  by apply untouched_emit, untouched_enqueue.
Qed.

Lemma untouched_executeTask_begin r' agent s :
  r' <> r -> untouched r t s -> untouched r t (executeTask_begin r' agent s).
Proof.
  intros Hne Hs. unfold executeTask_begin.
  destruct (heap s !! r'); [|done].
  by apply untouched_emit, untouched_modify.
Qed.

Lemma untouched_assignTaskToAgent r' agent now s :
  r' <> r -> untouched r t s -> untouched r t (assignTaskToAgent r' agent now s).
Proof.
  intros Hne Hs. unfold assignTaskToAgent.
  destruct (heap s !! r') as [task|] eqn:Hr'; [|done].
  apply untouched_executeTask_begin; [done|].
  by apply untouched_emit, untouched_modify.
Qed.

Lemma untouched_assignTasks_loop fuel now :
  forall available s s',
    untouched r t s ->
    assignTasks_loop fuel now available s = Some s' ->
    untouched r t s'.
Proof.
  induction fuel as [|fuel IH]; intros available s s' Hs; simpl.
  - destruct (_ && _); [done|]. by intros [= <-].
  - destruct (_ && _); [|by intros [= <-]].
    destruct (queue_getNext (queue s)) as [[r' q']|] eqn:E; [|by intros [= <-]].
    apply getNext_elem in E as [Hin Hsub].
    assert (r' <> r) as Hne by (intros ->; by destruct Hs).
    assert (untouched r t (with_queue q' s)) as Hpopped.
    { destruct Hs as [Hr Hq]. split; [done|]. simpl. intros Hx. by apply Hq, Hsub. }
    destruct (ask_strategy _ _ _) as [agent|].
    + apply IH. by apply untouched_assignTaskToAgent.
    + intros [= <-]. by apply untouched_enqueue.
Qed.

Lemma untouched_cascade_fail s depId :
  untouched r t s -> untouched r t (cascade_fail s depId).
Proof.
  intros Hs. unfold cascade_fail.
  destruct (JsMap.get depId (tasks s)) as [d|]; [|done].
  destruct (heap s !! d) as [dependent|] eqn:Hd; [|done].
  destruct (TaskStatus_eqb (status dependent) PENDING) eqn:Hst; [|done].
  apply TaskStatus_eqb_eq in Hst.
  assert (d <> r) by (eapply other_ref; eauto; congruence).
  by apply untouched_emit, untouched_modify.
Qed.

Lemma untouched_handleTaskFailure r' result now s :
  r' <> r -> untouched r t s -> untouched r t (handleTaskFailure r' result now s).
Proof.
  intros Hne Hs. unfold handleTaskFailure.
  destruct (heap s !! r') as [task|]; [|done].
  destruct (shouldRetry _ _).
  - destruct (retryPolicy _); [|by apply untouched_emit].
    by apply untouched_emit, untouched_modify, untouched_emit.
  - apply untouched_fold; [intros; by apply untouched_cascade_fail|].
    by apply untouched_emit.
Qed.

Lemma untouched_time_out_if_late now s r' :
  untouched r t s -> untouched r t (time_out_if_late now s r').
Proof.
  intros Hs. unfold time_out_if_late.
  destruct (heap s !! r') as [task|] eqn:Hr'; [|done].
  destruct (startTime task); [|done].
  destruct (TaskStatus_eqb (status task) RUNNING) eqn:Hst; [|done].
  destruct (_ <? _); [|done]. apply TaskStatus_eqb_eq in Hst.
  assert (r' <> r) by (eapply other_ref; eauto; congruence).
  by apply untouched_emit, untouched_handleTaskFailure, untouched_modify.
Qed.

Lemma untouched_processTasks now s s' :
  untouched r t s -> processTasks now s = Some s' -> untouched r t s'.
Proof.
  intros Hs. unfold processTasks. destruct (running s); [|by intros [= <-]].
  destruct (assignTasks _ _) as [s1|] eqn:E; [|done]. intros [= <-].
  apply untouched_fold; [intros; by apply untouched_time_out_if_late|].
  eapply untouched_assignTasks_loop; [|exact E].
  apply untouched_fold; [intros; by apply untouched_queue_if_met|].
  apply untouched_fold; [intros; by apply untouched_retry_if_due|].
  done.
Qed.

Lemma untouched_ticks nows s :
  untouched r t s -> untouched r t (Scenarios.ticks nows s).
Proof.
  intros Hs. apply untouched_fold; [|done].
  intros st now Hst. unfold Scenarios.tick.
  destruct (processTasks now st) eqn:E; [|done].
  by eapply untouched_processTasks.
Qed.
End Untouched.

(** *** The cascade of an exhausted failure *)

Lemma cascade_fail_frame s depId :
  tasks (cascade_fail s depId) = tasks s /\ queue (cascade_fail s depId) = queue s.
Proof.
  unfold cascade_fail. destruct (JsMap.get _ _); [|done].
  destruct (heap s !! _); [|done]. by destruct (TaskStatus_eqb _ _).
Qed.

Lemma fold_cascade_fail_frame ds s :
  tasks (fold_left cascade_fail ds s) = tasks s /\
  queue (fold_left cascade_fail ds s) = queue s.
Proof.
  revert s. induction ds as [|d ds IH]; intros s; simpl; [done|].
  destruct (IH (cascade_fail s d)) as [-> ->]. apply cascade_fail_frame.
Qed.

(** The cascade moves statuses from PENDING to FAILED only. *)
Lemma cascade_fail_status s depId r :
  status_of (heap (cascade_fail s depId)) r = status_of (heap s) r \/
  (status_of (heap s) r = Some PENDING /\
   status_of (heap (cascade_fail s depId)) r = Some FAILED).
Proof.
  unfold cascade_fail. destruct (JsMap.get _ _) as [d|]; [|by left].
  destruct (heap s !! d) as [dependent|] eqn:Hd; [|by left].
  destruct (TaskStatus_eqb _ _) eqn:Hst; [|by left].
  apply TaskStatus_eqb_eq in Hst. simpl.
  destruct (decide (d = r)) as [->|Hne].
  - right. by rewrite /status_of list_lookup_alter_eq Hd /= Hst.
  - left. by rewrite /status_of list_lookup_alter_ne.
Qed.

Lemma cascade_fail_hit s depId d :
  JsMap.get depId (tasks s) = Some d ->
  status_of (heap s) d = Some PENDING ->
  status_of (heap (cascade_fail s depId)) d = Some FAILED.
Proof.
  intros Hget Hst. unfold cascade_fail. rewrite Hget.
  unfold status_of in Hst. destruct (heap s !! d) as [dependent|] eqn:Hd; [|done].
  injection Hst as Hst. rewrite Hst /=.
  by rewrite /status_of list_lookup_alter_eq Hd.
Qed.

Lemma fold_cascade_fail_keeps_failed ds s r :
  status_of (heap s) r = Some FAILED ->
  status_of (heap (fold_left cascade_fail ds s)) r = Some FAILED.
Proof.
  revert s. induction ds as [|d ds IH]; intros s Hst; simpl; [done|].
  apply IH. destruct (cascade_fail_status s d r) as [->|[? _]]; congruence.
Qed.

Lemma fold_cascade_fail_hits ds s depId d :
  depId ∈ ds ->
  JsMap.get depId (tasks s) = Some d ->
  status_of (heap s) d = Some PENDING \/ status_of (heap s) d = Some FAILED ->
  status_of (heap (fold_left cascade_fail ds s)) d = Some FAILED.
Proof.
  revert s. induction ds as [|x ds IH]; intros s Hin Hget Hst.
  - by apply elem_of_nil in Hin.
  - simpl. destruct (decide (depId = x)) as [<-|Hne].
    + apply fold_cascade_fail_keeps_failed. destruct Hst as [Hst|Hst].
      * by apply cascade_fail_hit.
      * destruct (cascade_fail_status s depId d) as [->|[? _]]; congruence.
    + apply elem_of_cons in Hin as [?|Hin]; [done|].
      apply IH; [done | by destruct (cascade_fail_frame s x) as [-> _] |].
      destruct (cascade_fail_status s x d) as [->|[_ ->]]; auto.
Qed.

Lemma fan_cascade_events i :
  i = "B" \/ i = "C" -> TaskCascadeFailed i ∈ events Scenarios.fan_root_failed.
Proof.
  intros [->| ->]; vm_compute; apply list_elem_of_In; simpl; tauto.
Qed.

Lemma fan_never_started i agent :
  i = "B" \/ i = "C" -> TaskStarted i agent ∉ events Scenarios.fan_root_failed.
Proof.
  intros [->| ->] Hin; vm_compute in Hin; apply list_elem_of_In in Hin; simpl in Hin;
    repeat (destruct Hin as [Hin|Hin]; [discriminate Hin|]); done.
Qed.

Lemma fan_untouched r ds nows :
  (r = 1%nat /\ ds = Scenarios.cascaded "B" ["D"]) \/
  (r = 2%nat /\ ds = Scenarios.cascaded "C" []) ->
  untouched r ds (Scenarios.ticks nows Scenarios.fan_root_failed).
Proof.
  intros [[-> ->]|[-> ->]]; apply untouched_ticks; try done;
    (split; [vm_compute; reflexivity|]); vm_compute;
    intros Hin; by apply elem_of_nil in Hin.
Qed.

(** C2, as amended: when a task fails and the policy grants no further
    retry, every direct dependent that the task map holds and that is
    PENDING becomes FAILED (the status enumeration has no separate
    cascade value; the cascade shows in a [task:cascade-failed] event),
    and neither the task map nor the ready queue changes; in the graph
    [A -> {B, C}], when [A] has failed beyond its retry, [B] and [C] are
    FAILED without ever having been started, and no later tick of the
    processing loop touches or queues them. *)
Theorem C2_exhausted_failure_fails_pending_direct_dependents
    (s : State) (r : ref) (result : TaskResult) (now : Z) (task : TaskInstance) :
  heap s !! r = Some task ->
  shouldRetry s task = false ->
  let s' := handleTaskFailure r result now s in
  (tasks s' = tasks s /\ queue s' = queue s /\
   forall depId d,
     depId ∈ dependents task ->
     JsMap.get depId (tasks s) = Some d ->
     status_of (heap s) d = Some PENDING ->
     status_of (heap s') d = Some FAILED) /\
  (let fan := Scenarios.fan_root_failed in
   getTaskStatus "A" fan = FAILED /\
   getTaskStatus "B" fan = FAILED /\
   getTaskStatus "C" fan = FAILED /\
   TaskCascadeFailed "B" ∈ events fan /\
   TaskCascadeFailed "C" ∈ events fan /\
   (forall agent, TaskStarted "B" agent ∉ events fan) /\
   (forall agent, TaskStarted "C" agent ∉ events fan) /\
   forall nows : list Z,
     untouched 1%nat (Scenarios.cascaded "B" ["D"]) (Scenarios.ticks nows fan) /\
     untouched 2%nat (Scenarios.cascaded "C" []) (Scenarios.ticks nows fan)).
Proof.
  intros Hr Hretry s'. split.
  - subst s'. unfold handleTaskFailure. rewrite Hr.
    change (shouldRetry (emit _ s) task) with (shouldRetry s task). rewrite Hretry.
    destruct (fold_cascade_fail_frame (dependents task)
                (emit (TaskFailed (id task) (r_error result)) s)) as [-> ->].
    split_and!; [done | done |].
    intros depId d Hin Hget Hst. apply (fold_cascade_fail_hits _ _ depId); auto.
  - intros fan.
    split; [vm_compute; reflexivity|]. split; [vm_compute; reflexivity|].
    split; [vm_compute; reflexivity|].
    split; [apply (fan_cascade_events "B"); by left|].
    split; [apply (fan_cascade_events "C"); by right|].
    split; [intros agent; apply fan_never_started; by left|].
    split; [intros agent; apply fan_never_started; by right|].
    intros nows. split.
    + apply fan_untouched; by left.
    + apply fan_untouched; by right.
Qed.

Lemma C2_witness :
  let s := Scenarios.fan_second_attempt in
  heap s !! 0%nat = Some Scenarios.fan_root_running /\
  shouldRetry s Scenarios.fan_root_running = false /\
  status Scenarios.fan_root_running = RUNNING /\
  status_of (heap s) 1%nat = Some PENDING /\
  status_of (heap (handleTaskFailure 0%nat Scenarios.second_failure 700 s)) 1%nat
    = Some FAILED.
Proof.
  intros s.
  assert (heap s !! 0%nat = Some Scenarios.fan_root_running) as Hr
    by (vm_compute; reflexivity).
  assert (shouldRetry s Scenarios.fan_root_running = false) as Hretry
    by (vm_compute; reflexivity).
  split; [exact Hr|]. split; [exact Hretry|].
  split; [vm_compute; reflexivity|]. split; [vm_compute; reflexivity|].
  destruct (C2_exhausted_failure_fails_pending_direct_dependents
              s 0%nat Scenarios.second_failure 700 Scenarios.fan_root_running Hr Hretry)
    as [(_ & _ & Hcascade) _].
  apply (Hcascade "B").
  - vm_compute. apply list_elem_of_In. simpl. tauto.
  - vm_compute; reflexivity.
  - vm_compute; reflexivity.
Defined.

(** C2, as stated, fails: in the fan extended by a task [D] that waits
    for [B], the failure of [A] beyond its retry leaves the descendant
    [D], never started, in the state PENDING, also after further ticks;
    and what [B] and [C] reach is the plain FAILED that [A] itself has. *)
Lemma C2_cascade_stops_at_direct_dependents :
  let fan := Scenarios.fan_root_failed in
  getTaskStatus "A" fan = FAILED /\
  (attempts <$> task_of "A" fan) = Some 2 /\
  (dependencies <$> task_of "B" fan) = Some ["A"] /\
  (dependencies <$> task_of "D" fan) = Some ["B"] /\
  (attempts <$> task_of "D" fan) = Some 0 /\
  getTaskStatus "D" fan = PENDING /\
  getTaskStatus "D" (Scenarios.ticks [800; 900; 400000] fan) = PENDING /\
  getTaskStatus "B" fan = getTaskStatus "A" fan.
Proof.
  intros fan. split_and!; vm_compute; reflexivity.
Qed.

End OrchestratorFacts.

(** ** The hive mind *)

Module HiveMindFacts.
Import HiveMind HiveWellformed.

(** *** The eviction order *)

Lemma evicted_before_trans a b c :
  evicted_before a b -> evicted_before b c -> evicted_before a c.
Proof.
  unfold evicted_before, lower, same.
  destruct (confidence a) as [x| |], (confidence b) as [y| |],
           (confidence c) as [z| |]; try tauto.
  - intros [Hxy|[Hxy Ht1]] [Hyz|[Hyz Ht2]].
    + left. by eapply Qlt_trans.
    + left. by rewrite -Hyz.
    + left. by rewrite Hxy.
    + right. split; [by rewrite Hxy | lia].
  - intros [[]|[_ Ht1]] [[]|[_ Ht2]]. right. split; [done|lia].
Qed.

Lemma compare_not_Gt a b :
  confidence (snd a) <> NaN -> confidence (snd b) <> NaN ->
  compare_entries a b <> Gt -> evicted_before_keyed a b.
Proof.
  unfold compare_entries, evicted_before_keyed, evicted_before, neq,
    sign_of_difference, lower, same.
  destruct (confidence (snd a)) as [x| |], (confidence (snd b)) as [y| |];
    try done; intros _ _.
  - destruct (Qeq_bool x y) eqn:E; simpl.
    + apply Qeq_bool_iff in E. intros Ht. right. split; [done|].
      by apply Z.compare_le_iff.
    + apply Qeq_bool_neq in E. intros Hc. left.
      destruct (Qcompare_spec x y); done.
  - intros _. by left.
  - intros Ht. right. split; [done|]. by apply Z.compare_le_iff.
Qed.

Lemma compare_Gt a b :
  confidence (snd a) <> NaN -> confidence (snd b) <> NaN ->
  compare_entries a b = Gt -> evicted_before_keyed b a.
Proof.
  unfold compare_entries, evicted_before_keyed, evicted_before, neq,
    sign_of_difference, lower, same.
  destruct (confidence (snd a)) as [x| |], (confidence (snd b)) as [y| |];
    try done; intros _ _.
  - destruct (Qeq_bool x y) eqn:E; simpl.
    + apply Qeq_bool_iff in E. intros Ht%Z.compare_gt_iff. right.
      split; [by symmetry | lia].
    + intros Hc%Qgt_alt. by left.
  - intros _. by left.
  - intros Ht%Z.compare_gt_iff. right. split; [done | lia].
Qed.

(** *** The sort *)

Lemma insert_sorted_elem {A} (cmp : A -> A -> comparison) x y l :
  y ∈ insert_sorted cmp x l <-> y = x \/ y ∈ l.
Proof.
  induction l as [|z l IH]; simpl; [set_solver|].
  destruct (cmp x z); set_solver.
Qed.

Lemma insert_sorted_perm {A} (cmp : A -> A -> comparison) x l :
  insert_sorted cmp x l ≡ₚ x :: l.
Proof.
  induction l as [|z l IH]; simpl; [done|].
  destruct (cmp x z); try done. by rewrite IH Permutation_swap.
Qed.

Lemma sort_perm {A} (cmp : A -> A -> comparison) l : sort cmp l ≡ₚ l.
Proof.
  induction l as [|x l IH]; simpl; [done|]. by rewrite insert_sorted_perm IH.
Qed.

Lemma insert_sorted_sorted x l :
  confidence (snd x) <> NaN -> numbers_only l ->
  StronglySorted evicted_before_keyed l ->
  StronglySorted evicted_before_keyed (insert_sorted compare_entries x l).
Proof.
  intros Hx Hl Hsorted. induction Hsorted as [|y l Hsorted IH Hy]; simpl.
  - repeat constructor.
  - apply Forall_cons in Hl as [Hyn Hl].
    destruct (compare_entries x y) eqn:E.
    + assert (evicted_before_keyed x y) as Hxy by (apply compare_not_Gt; congruence).
      constructor; [by constructor|]. constructor; [done|].
      eapply Forall_impl; [exact Hy|]. intros z Hyz.
      by eapply evicted_before_trans.
    + assert (evicted_before_keyed x y) as Hxy by (apply compare_not_Gt; congruence).
      constructor; [by constructor|]. constructor; [done|].
      eapply Forall_impl; [exact Hy|]. intros z Hyz.
      by eapply evicted_before_trans.
    + constructor; [by apply IH|].
      apply Forall_forall. intros z [->|Hz]%insert_sorted_elem.
      * by apply compare_Gt.
      * by eapply Forall_forall in Hy.
Qed.

Lemma sort_sorted l :
  numbers_only l -> StronglySorted evicted_before_keyed (sort compare_entries l).
Proof.
  induction l as [|x l IH]; simpl; [constructor|].
  intros [Hx Hl]%Forall_cons. apply insert_sorted_sorted; [done| |by apply IH].
  unfold numbers_only. by rewrite sort_perm.
Qed.

(** *** Deleting the evicted keys *)

Lemma get_fold_delete (rm m : list (string * KnowledgeEntry)) k :
  JsMap.get k (fold_left (fun m ke => JsMap.delete (fst ke) m) rm m) =
  match decide (k ∈ JsMap.keys rm) with
  | left _ => None
  | right _ => JsMap.get k m
  end.
Proof.
  revert m. induction rm as [|[k' e'] rm IH]; intros m; simpl.
  - done.
  - rewrite IH.
    destruct (decide (k ∈ JsMap.keys rm)) as [Hin|Hin];
      destruct (decide (k ∈ k' :: JsMap.keys rm)) as [Hin'|Hin']; try done.
    + exfalso. apply Hin'. by right.
    + apply elem_of_cons in Hin' as [->|?]; [|done]. apply get_delete_eq.
    + apply get_delete_ne. intros ->. apply Hin'. by left.
Qed.

Lemma length_delete_present {V} (m : list (string * V)) k :
  NoDup (JsMap.keys m) -> k ∈ JsMap.keys m ->
  S (length (JsMap.delete k m)) = length m.
Proof.
  induction m as [|[k' v'] m IH]; simpl.
  - intros _ H. by apply elem_of_nil in H.
  - intros [Hk' Hnd]%NoDup_cons Hin.
    destruct (String.eqb_spec k k') as [->|Hne].
    + f_equal. clear IH Hin Hnd. induction m as [|[k2 v2] m IH]; simpl; [done|].
      simpl in Hk'. apply not_elem_of_cons in Hk' as [Hne Hk'].
      apply String.eqb_neq in Hne as ->. simpl. f_equal. by apply IH.
    + apply elem_of_cons in Hin as [?|Hin]; [done|]. simpl. f_equal. by apply IH.
Qed.

Lemma length_fold_delete (rm m : list (string * KnowledgeEntry)) :
  NoDup (JsMap.keys m) -> NoDup (JsMap.keys rm) ->
  (forall k, k ∈ JsMap.keys rm -> k ∈ JsMap.keys m) ->
  (length (fold_left (fun m ke => JsMap.delete (fst ke) m) rm m) + length rm
   = length m)%nat.
Proof.
  revert m. induction rm as [|[k e] rm IH]; intros m Hm Hrm Hsub; simpl; [lia|].
  simpl in Hrm, Hsub. apply NoDup_cons in Hrm as [Hk Hrm].
  assert (S (length (JsMap.delete k m)) = length m) as <-
    by (apply length_delete_present; [done | apply Hsub; by left]).
  assert (length (fold_left (fun m ke => JsMap.delete (fst ke) m) rm (JsMap.delete k m))
          + length rm = length (JsMap.delete k m))%nat as Hrest; [|lia].
  apply IH; [by apply NoDup_keys_delete | done |].
  intros k' Hk'. rewrite keys_delete. apply list_elem_of_filter. split.
  - intros ->. done.
  - apply Hsub. by right.
Qed.

(** The entries that [enforceMemoryLimits] removes, and those it keeps. *)
Lemma sorted_split (s : State) :
  sort compare_entries (knowledge s) =
  to_remove s ++
  drop (Z.to_nat (JsMap.size (knowledge s) - maxMemorySize s))
    (sort compare_entries (knowledge s)).
Proof. unfold to_remove, slice0. by rewrite take_drop. Qed.

Lemma to_remove_keys (s : State) :
  NoDup (JsMap.keys (knowledge s)) ->
  NoDup (JsMap.keys (to_remove s)) /\
  (forall k, k ∈ JsMap.keys (to_remove s) -> k ∈ JsMap.keys (knowledge s)).
Proof.
  intros Hnd.
  assert (JsMap.keys (sort compare_entries (knowledge s)) ≡ₚ JsMap.keys (knowledge s))
    as Hperm by (unfold JsMap.keys; by rewrite sort_perm).
  assert (JsMap.keys (to_remove s) `sublist_of`
          JsMap.keys (sort compare_entries (knowledge s))) as Hsub.
  { rewrite /to_remove /slice0 /JsMap.keys fmap_take. apply sublist_take. }
  split.
  - eapply sublist_NoDup; [|exact Hsub]. by rewrite Hperm.
  - intros k Hk. rewrite -Hperm. eapply elem_of_sublist; eauto.
Qed.

Lemma length_to_remove (s : State) :
  0 <= maxMemorySize s < JsMap.size (knowledge s) ->
  Z.of_nat (length (to_remove s)) = JsMap.size (knowledge s) - maxMemorySize s.
Proof.
  intros Hmax. rewrite /to_remove /slice0 length_take.
  rewrite (Permutation_length (sort_perm compare_entries (knowledge s))).
  unfold JsMap.size in *. lia.
Qed.

(** *** The memory limit *)

Lemma enforceMemoryLimits_spec (s : State) :
  NoDup (JsMap.keys (knowledge s)) ->
  numbers_only (knowledge s) ->
  0 <= maxMemorySize s < JsMap.size (knowledge s) ->
  let s' := enforceMemoryLimits s in
  JsMap.size (knowledge s') = maxMemorySize s /\
  (forall k e, JsMap.get k (knowledge s') = Some e ->
               JsMap.get k (knowledge s) = Some e) /\
  (forall k e k' e',
     JsMap.get k (knowledge s) = Some e ->
     JsMap.get k (knowledge s') = None ->
     JsMap.get k' (knowledge s') = Some e' ->
     evicted_before e e').
Proof.
  intros Hnd Hnum Hmax s'.
  assert (knowledge s' =
          fold_left (fun m ke => JsMap.delete (fst ke) m) (to_remove s) (knowledge s))
    as Hk.
  { subst s'. unfold enforceMemoryLimits.
    assert ((JsMap.size (knowledge s) <=? maxMemorySize s) = false) as ->
      by (apply Z.leb_gt; lia).
    by destruct (0 <? _). }
  destruct (to_remove_keys s Hnd) as [Hrm_nd Hrm_sub].
  split; [|split].
  - pose proof (length_fold_delete (to_remove s) (knowledge s) Hnd Hrm_nd Hrm_sub) as Hlen.
    pose proof (length_to_remove s Hmax) as Hrm.
    rewrite Hk. unfold JsMap.size in *. lia.
  - intros k e. rewrite Hk get_fold_delete. by case_decide.
  - intros k e k' e' Hin Hgone Hkept.
    rewrite Hk get_fold_delete in Hgone. rewrite Hk get_fold_delete in Hkept.
    destruct (decide (k ∈ JsMap.keys (to_remove s))) as [Hk_rm|]; [|congruence].
    destruct (decide (k' ∈ JsMap.keys (to_remove s))) as [|Hk'_rm]; [done|].
    clear Hgone.
    pose proof (sort_sorted (knowledge s) Hnum) as Hsorted.
    rewrite sorted_split in Hsorted.
    apply (StronglySorted_app_1_elem_of _ _ _ (k, e) (k', e')) in Hsorted; [done| |].
    + apply list_elem_of_fmap in Hk_rm as ([k0 e0] & -> & Hin0). simpl in *.
      assert ((k0, e0) ∈ knowledge s) as Hin1.
      { rewrite -(sort_perm compare_entries (knowledge s)) sorted_split.
        apply elem_of_app. by left. }
      apply elem_get_NoDup in Hin1; [|done]. congruence.
    + assert ((k', e') ∈ sort compare_entries (knowledge s)) as Hin'.
      { rewrite (sort_perm compare_entries (knowledge s)). by apply get_Some_elem. }
      rewrite sorted_split in Hin'. apply elem_of_app in Hin' as [Hin'|Hin']; [|done].
      exfalso. apply Hk'_rm. by apply (list_elem_of_fmap_2 fst) in Hin'.
Qed.

Lemma enforceMemoryLimits_within (s : State) :
  JsMap.size (knowledge s) <= maxMemorySize s -> enforceMemoryLimits s = s.
Proof.
  intros H. unfold enforceMemoryLimits.
  by assert ((JsMap.size (knowledge s) <=? maxMemorySize s) = true) as ->
    by (apply Z.leb_le; lia).
Qed.

(** *** [share] *)

Lemma knowledge_detectPatterns k v now s :
  knowledge (detectPatterns k v now s) = knowledge s /\
  agents (detectPatterns k v now s) = agents s /\
  consensusRequests (detectPatterns k v now s) = consensusRequests s /\
  maxMemorySize (detectPatterns k v now s) = maxMemorySize s /\
  consensusThreshold (detectPatterns k v now s) = consensusThreshold s.
Proof.
  unfold detectPatterns. destruct (before_colon k); [|done].
  by destruct (JsMap.get _ _).
Qed.

Lemma knowledge_share agent k v conf ttl_ now s :
  knowledge (share agent k v conf ttl_ now s) =
  knowledge (enforceMemoryLimits (store agent k v conf ttl_ now s)).
Proof. unfold share. apply knowledge_detectPatterns. Qed.

Lemma store_frame agent k v conf ttl_ now s :
  let s1 := store agent k v conf ttl_ now s in
  agents s1 = agents s /\ consensusRequests s1 = consensusRequests s /\
  maxMemorySize s1 = maxMemorySize s /\ consensusThreshold s1 = consensusThreshold s.
Proof.
  unfold store. simpl. by destruct (JsMap.get k (knowledge s)).
Qed.

Lemma div_sizes_number a b : a <> 0 -> div_sizes a b <> NaN.
Proof.
  intros Ha. unfold div_sizes. destruct (b =? 0); [|done].
  by apply Z.eqb_neq in Ha as ->.
Qed.

Lemma size_set_pos {V} k (v : V) m : JsMap.size (JsMap.set k v m) <> 0.
Proof. unfold JsMap.size. destruct m as [|[k' v'] m]; simpl; [done|]. destruct (_ =? _)%string; simpl; lia. Qed.

Lemma numbers_only_set k e m :
  confidence e <> NaN -> numbers_only m -> numbers_only (JsMap.set k e m).
Proof.
  intros He. induction 1 as [|[k' e'] m Hx Hm IH]; simpl.
  - by repeat constructor.
  - destruct (_ =? _)%string; constructor; done.
Qed.

(** What [store] leaves in the knowledge map. *)
Lemma store_knowledge agent k v conf ttl_ now s :
  exists e,
    knowledge (store agent k v conf ttl_ now s) = JsMap.set k e (knowledge s) /\
    match JsMap.get k (knowledge s) with
    | None =>
        e = mkEntry (uuid_source s (uuid_drawn s)) k v agent now ttl_ conf [(agent, true)]
    | Some existing =>
        votes e = JsMap.set agent true (votes existing) /\
        confidence e = div_sizes (JsMap.size (votes e)) (JsSet.size (agents s))
    end.
Proof.
  unfold store. simpl. destruct (JsMap.get k (knowledge s)) as [existing|] eqn:E.
  - unfold mergeKnowledge. simpl. eexists. split; [reflexivity|].
    destruct (gt conf _); done.
  - eexists. split; [reflexivity|]. done.
Qed.

Lemma store_wellformed agent k v conf ttl_ now s :
  conf <> NaN ->
  NoDup (JsMap.keys (knowledge s)) -> numbers_only (knowledge s) ->
  NoDup (JsMap.keys (knowledge (store agent k v conf ttl_ now s))) /\
  numbers_only (knowledge (store agent k v conf ttl_ now s)).
Proof.
  intros Hconf Hnd Hnum.
  destruct (store_knowledge agent k v conf ttl_ now s) as (e & -> & He).
  split; [by apply NoDup_keys_set|]. apply numbers_only_set; [|done].
  destruct (JsMap.get k (knowledge s)); [|by subst e].
  destruct He as [Hv ->]. apply div_sizes_number. rewrite Hv. apply size_set_pos.
Qed.

(** C8: when [share] has stored its entry and the count exceeds
    [maxMemorySize], what remains are exactly [maxMemorySize] entries,
    each as it was stored, and every removed entry had a lower confidence
    than every remaining one, or the same confidence and an earlier or
    equal timestamp; with capacity 3 and four keys of confidence 0.9,
    0.8, 0.2 and 0.7, the 0.2 entry is gone, [retrieve] answers [null] for
    it and the stored value for each of the other three. *)
Theorem C8_eviction_by_confidence_then_age
    (agent k : string) (v : Value) (conf : Num) (ttl_ : option Z) (now : Z)
    (s : State) :
  conf <> NaN ->
  NoDup (JsMap.keys (knowledge s)) ->
  numbers_only (knowledge s) ->
  let stored := store agent k v conf ttl_ now s in
  let s' := share agent k v conf ttl_ now s in
  0 <= maxMemorySize s < JsMap.size (knowledge stored) ->
  (JsMap.size (knowledge s') = maxMemorySize s /\
   (forall k1 e1, JsMap.get k1 (knowledge s') = Some e1 ->
                  JsMap.get k1 (knowledge stored) = Some e1) /\
   (forall k1 e1 k2 e2,
      JsMap.get k1 (knowledge stored) = Some e1 ->
      JsMap.get k1 (knowledge s') = None ->
      JsMap.get k2 (knowledge s') = Some e2 ->
      evicted_before e1 e2)) /\
  (let four := HiveScenarios.four_keys in
   JsMap.keys (knowledge four) = ["k1"; "k2"; "k4"] /\
   fst (retrieve "k3" 5 four) = None /\
   fst (retrieve "k1" 5 four) = Some (Opaque "v1") /\
   fst (retrieve "k2" 5 four) = Some (Opaque "v2") /\
   fst (retrieve "k4" 5 four) = Some (Opaque "v4")).
Proof.
  intros Hconf Hnd Hnum stored s' Hmax. split.
  - destruct (store_wellformed agent k v conf ttl_ now s Hconf Hnd Hnum) as [Hnd1 Hnum1].
    destruct (store_frame agent k v conf ttl_ now s) as (_ & _ & Hmax1 & _).
    fold stored in Hnd1, Hnum1, Hmax1.
    subst s'. rewrite knowledge_share -/stored -Hmax1.
    apply enforceMemoryLimits_spec; [done | done | by rewrite Hmax1].
  - intros four. split_and!; vm_compute; reflexivity.
Qed.

Lemma C8_witness :
  let s := share "w1" "k3" (Opaque "v3") (Fin (2 # 10)) None 3
             (share "w1" "k2" (Opaque "v2") (Fin (8 # 10)) None 2
                (share "w1" "k1" (Opaque "v1") (Fin (9 # 10)) None 1
                   HiveScenarios.three_slots)) in
  JsMap.size (knowledge (store "w1" "k4" (Opaque "v4") (Fin (7 # 10)) None 4 s)) = 4 /\
  maxMemorySize s = 3 /\
  JsMap.size (knowledge (share "w1" "k4" (Opaque "v4") (Fin (7 # 10)) None 4 s)) = 3.
Proof.
  intros s. split; [vm_compute; reflexivity|]. split; [vm_compute; reflexivity|].
  assert (NoDup (JsMap.keys (knowledge s))) as Hnd.
  { vm_compute. repeat (constructor; [set_solver|]). constructor. }
  assert (numbers_only (knowledge s)) as Hnum.
  { vm_compute. repeat (constructor; [discriminate|]). constructor. }
  destruct (C8_eviction_by_confidence_then_age "w1" "k4" (Opaque "v4") (Fin (7 # 10))
              None 4 s ltac:(discriminate) Hnd Hnum) as [[Hsize _] _].
  - vm_compute. split; [discriminate | reflexivity].
  - exact Hsize.
Defined.

(** *** Confidence *)

Lemma get_enforceMemoryLimits k e s :
  JsMap.get k (knowledge (enforceMemoryLimits s)) = Some e ->
  JsMap.get k (knowledge s) = Some e.
Proof.
  unfold enforceMemoryLimits. destruct (_ <=? _); [done|].
  assert (forall s1 : State,
            knowledge s1 = fold_left (fun m ke => JsMap.delete (fst ke) m)
                             (to_remove s) (knowledge s) ->
            JsMap.get k (knowledge s1) = Some e -> JsMap.get k (knowledge s) = Some e)
    as Hdel.
  { intros s1 ->. rewrite get_fold_delete. by case_decide. }
  destruct (0 <? _); by apply Hdel.
Qed.

Lemma get_map_values {V W} (f : V -> W) k (m : list (string * V)) :
  JsMap.get k (map (fun kv => (fst kv, f (snd kv))) m) = f <$> JsMap.get k m.
Proof.
  induction m as [|[k' v'] m IH]; simpl; [done|]. by destruct (_ =? _)%string.
Qed.

(** C6, as amended: after a [share] onto a key that was already stored,
    the entry (if the memory limit did not evict it) counts the sharing
    worker among its votes and has confidence [|votes| / |agents|];
    after the first [share] of a key the entry holds the one vote of its
    author and the confidence that the caller passed; entries under other
    keys are as they were; registering a worker leaves every entry as it
    was; after a worker is unregistered and at least one worker remains,
    every entry has confidence [|votes| / |agents|]. *)
Theorem C6_confidence_after_share_and_registration
    (agent k : string) (v : Value) (conf : Num) (ttl_ : option Z) (now : Z)
    (s : State) :
  let s' := share agent k v conf ttl_ now s in
  (forall e',
     JsMap.get k (knowledge s') = Some e' ->
     match JsMap.get k (knowledge s) with
     | Some existing =>
         votes e' = JsMap.set agent true (votes existing) /\
         confidence e' = div_sizes (JsMap.size (votes e')) (JsSet.size (agents s'))
     | None =>
         votes e' = [(agent, true)] /\ confidence e' = conf
     end) /\
  (forall k1 e1,
     k1 <> k -> JsMap.get k1 (knowledge s') = Some e1 ->
     JsMap.get k1 (knowledge s) = Some e1) /\
  (forall a, knowledge (registerAgent a s) = knowledge s) /\
  (forall a k1 e1,
     0 < JsSet.size (agents (unregisterAgent a s)) ->
     JsMap.get k1 (knowledge (unregisterAgent a s)) = Some e1 ->
     confidence e1 =
       div_sizes (JsMap.size (votes e1)) (JsSet.size (agents (unregisterAgent a s)))).
Proof.
  intros s'.
  assert (agents s' = agents s) as Hagents.
  { subst s'. unfold share.
    destruct (knowledge_detectPatterns k v now
                (enforceMemoryLimits (store agent k v conf ttl_ now s)))
      as (_ & -> & _).
    destruct (store_frame agent k v conf ttl_ now s) as (Ha & _).
    rewrite -Ha. unfold enforceMemoryLimits.
    destruct (_ <=? _); [done|]. by destruct (0 <? _). }
  destruct (store_knowledge agent k v conf ttl_ now s) as (e & Hstore & He).
  split; [|split; [|split]].
  - intros e' Hget. subst s'. rewrite knowledge_share in Hget.
    apply get_enforceMemoryLimits in Hget. rewrite Hstore get_set_eq in Hget.
    injection Hget as <-. rewrite Hagents.
    destruct (JsMap.get k (knowledge s)); [done|]. by subst e.
  - intros k1 e1 Hne Hget. subst s'. rewrite knowledge_share in Hget.
    apply get_enforceMemoryLimits in Hget. by rewrite Hstore get_set_ne in Hget.
  - done.
  - intros a k1 e1 Hpos. unfold unregisterAgent, cleanupAgentData. simpl.
    rewrite get_map_values. destruct (JsMap.get k1 (knowledge s)) as [e0|]; [|done].
    simpl. intros [= <-]. unfold forget_agent.
    simpl in Hpos. apply Z.ltb_lt in Hpos. by rewrite Hpos.
Qed.

Lemma C6_witness :
  let merged := mkEntry "id" "fact" (Opaque "v") "w1" 1 None (Fin (2 # 2))
                  [("w1", true); ("w2", true)] in
  let left_ := mkEntry "id" "fact" (Opaque "v") "w1" 1 None (Fin (1 # 2))
                 [("w1", true)] in
  (JsMap.get "fact" (knowledge HiveScenarios.affirmed) = Some merged /\
   confidence merged =
     div_sizes (JsMap.size (votes merged)) (JsSet.size (agents HiveScenarios.affirmed))) /\
  (0 < JsSet.size (agents HiveScenarios.second_left) /\
   JsMap.get "fact" (knowledge HiveScenarios.second_left) = Some left_ /\
   confidence left_ =
     div_sizes (JsMap.size (votes left_)) (JsSet.size (agents HiveScenarios.second_left))).
Proof.
  intros merged left_. split.
  - assert (JsMap.get "fact" (knowledge HiveScenarios.affirmed) = Some merged) as Hget
      by (vm_compute; reflexivity).
    split; [exact Hget|].
    destruct (C6_confidence_after_share_and_registration
                "w2" "fact" (Opaque "v") (Fin (9 # 10)) None 2 HiveScenarios.first_share)
      as (Hshare & _).
    destruct (Hshare merged Hget) as [_ Hc]. exact Hc.
  - assert (0 < JsSet.size (agents HiveScenarios.second_left)) as Hpos
      by (vm_compute; reflexivity).
    assert (JsMap.get "fact" (knowledge HiveScenarios.second_left) = Some left_) as Hget
      by (vm_compute; reflexivity).
    split; [exact Hpos|]. split; [exact Hget|].
    destruct (C6_confidence_after_share_and_registration
                "w2" "fact" (Opaque "v") (Fin (9 # 10)) None 2 HiveScenarios.third_joined)
      as (_ & _ & _ & Hleft).
    exact (Hleft "w2" "fact" left_ Hpos Hget).
Defined.

(** C6, as stated, fails: the entry that a first [share] creates has the
    confidence its author passed (0.9), not one vote over two workers;
    and when a third worker registers, the entry keeps the confidence 2/2
    that it had among two workers. *)
Lemma C6_confidence_is_not_the_vote_ratio :
  HiveScenarios.stored_confidence "fact" HiveScenarios.first_share = Some (Fin (9 # 10)) /\
  HiveScenarios.vote_ratio "fact" HiveScenarios.first_share = Some (Fin (1 # 2)) /\
  ~ same (Fin (9 # 10)) (Fin (1 # 2)) /\
  HiveScenarios.stored_confidence "fact" HiveScenarios.third_joined = Some (Fin (2 # 2)) /\
  HiveScenarios.vote_ratio "fact" HiveScenarios.third_joined = Some (Fin (2 # 3)) /\
  ~ same (Fin (2 # 2)) (Fin (2 # 3)).
Proof.
  split_and!; try (vm_compute; reflexivity); vm_compute; discriminate.
Qed.

(** *** Consensus *)

Lemma enforceMemoryLimits_frame s :
  let s' := enforceMemoryLimits s in
  agents s' = agents s /\ consensusRequests s' = consensusRequests s /\
  maxMemorySize s' = maxMemorySize s /\ consensusThreshold s' = consensusThreshold s.
Proof.
  unfold enforceMemoryLimits. destruct (_ <=? _); [done|]. by destruct (0 <? _).
Qed.

Lemma share_frame agent k v conf ttl_ now s :
  let s' := share agent k v conf ttl_ now s in
  agents s' = agents s /\ consensusRequests s' = consensusRequests s /\
  maxMemorySize s' = maxMemorySize s /\ consensusThreshold s' = consensusThreshold s.
Proof.
  unfold share.
  destruct (knowledge_detectPatterns k v now
              (enforceMemoryLimits (store agent k v conf ttl_ now s)))
    as (_ & -> & -> & -> & ->).
  destruct (enforceMemoryLimits_frame (store agent k v conf ttl_ now s))
    as (-> & -> & -> & ->).
  apply store_frame.
Qed.

Lemma outcome_not_pending s request : outcome s request <> PENDING.
Proof. unfold outcome. destruct (negb _); [done|]. by destruct (Qle_bool _ _). Qed.

Lemma is_pending_true st : is_pending st = true <-> st = PENDING.
Proof. destruct st; simpl; split; congruence. Qed.

(** [finalizeConsensus] on a pending request. *)
Lemma finalizeConsensus_pending requestId now s request :
  JsMap.get requestId (consensusRequests s) = Some request ->
  c_status request = PENDING ->
  consensusRequests (finalizeConsensus requestId now s) =
  JsMap.set requestId (set_c_status (outcome s request) request) (consensusRequests s).
Proof.
  intros Hget Hst. unfold finalizeConsensus. rewrite Hget Hst /=.
  by destruct (share_frame "hive-mind" ("consensus:" +:+ topic request)
    (ConsensusOutcome (proposal request) (outcome s request)
       (approvalRate_of (c_votes request))
       (div_by_size (totalConfidence (c_votes request)) (JsMap.size (c_votes request))))
    (Fin 1) None now
    (emit (ConsensusFinalized requestId (outcome s request))
       (with_consensusRequests
          (JsMap.set requestId (set_c_status (outcome s request) request)
             (consensusRequests s)) s))) as (_ & -> & _).
Qed.

Lemma finalizeConsensus_frame requestId now s :
  agents (finalizeConsensus requestId now s) = agents s /\
  consensusThreshold (finalizeConsensus requestId now s) = consensusThreshold s.
Proof.
  unfold finalizeConsensus.
  destruct (JsMap.get requestId (consensusRequests s)) as [request|]; [|done].
  destruct (is_pending (c_status request)); [|done].
  by destruct (share_frame "hive-mind" ("consensus:" +:+ topic request)
    (ConsensusOutcome (proposal request) (outcome s request)
       (approvalRate_of (c_votes request))
       (div_by_size (totalConfidence (c_votes request)) (JsMap.size (c_votes request))))
    (Fin 1) None now
    (emit (ConsensusFinalized requestId (outcome s request))
       (with_consensusRequests
          (JsMap.set requestId (set_c_status (outcome s request) request)
             (consensusRequests s)) s))) as (-> & _ & _ & ->).
Qed.

(** A request that is not pending is out of reach of every step. *)
Section Finality.
Variable requestId : string.
Variable request : ConsensusRequest.
Hypothesis finalized : c_status request <> PENDING.

Lemma settled_finalizeConsensus other now s :
  settled requestId request s ->
  settled requestId request (finalizeConsensus other now s).
Proof.
  intros Hs. unfold settled.
  destruct (JsMap.get other (consensusRequests s)) as [r|] eqn:Hget;
    [|by rewrite /finalizeConsensus Hget].
  destruct (is_pending (c_status r)) eqn:Hp;
    [|by rewrite /finalizeConsensus Hget Hp].
  apply is_pending_true in Hp.
  rewrite (finalizeConsensus_pending other now s r) //.
  rewrite get_set_ne //. intros <-. unfold settled in Hs. congruence.
Qed.

Lemma settled_vote agent other value_ conf reasoning now s s' :
  settled requestId request s ->
  vote agent other value_ conf reasoning now s = Ok s' ->
  settled requestId request s'.
Proof.
  intros Hs. unfold vote.
  destruct (JsMap.get other (consensusRequests s)) as [r|] eqn:Hget; [|done].
  destruct (is_pending (c_status r)) eqn:Hp; [|done].
  apply is_pending_true in Hp.
  assert (requestId <> other) as Hne by (intros <-; unfold settled in Hs; congruence).
  set (s1 := with_consensusRequests _ s).
  assert (settled requestId request s1) as Hs1 by (by rewrite /settled /s1 /= get_set_ne).
  destruct (enough_votes _ _); intros [= <-]; [|done].
  by apply settled_finalizeConsensus.
Qed.

Lemma settled_processPendingConsensus now s :
  settled requestId request s ->
  settled requestId request (processPendingConsensus now s).
Proof.
  unfold processPendingConsensus.
  generalize (JsMap.keys (consensusRequests s)). intros ids. revert s.
  induction ids as [|i ids IH]; intros s Hs; simpl; [done|].
  apply IH. unfold finalize_if_overdue.
  destruct (JsMap.get i (consensusRequests s)); [|done].
  destruct (_ && _); [|done]. by apply settled_finalizeConsensus.
Qed.

Lemma settled_step s s' :
  step s s' -> settled requestId request s -> settled requestId request s'.
Proof.
  intros Hstep Hs. destruct Hstep; unfold settled in *.
  - done.
  - done.
  - by destruct (share_frame agent k v conf ttl_ now s) as (_ & -> & _).
  - unfold retrieve. destruct (JsMap.get k (knowledge s)); [|done].
    by destruct (expired now _).
  - simpl. rewrite get_set_ne //. intros ->. congruence.
  - by eapply settled_vote.
  - by apply settled_finalizeConsensus.
  - unfold sync. simpl. apply settled_processPendingConsensus.
    unfold settled, cleanExpiredKnowledge. by destruct (0 <? _).
  - done.
Qed.

Lemma settled_steps s s' :
  rtc step s s' -> settled requestId request s -> settled requestId request s'.
Proof. induction 1; eauto using settled_step. Qed.
End Finality.

(** [vote] on a pending request. *)
Lemma vote_pending agent requestId value_ conf reasoning now s request :
  JsMap.get requestId (consensusRequests s) = Some request ->
  c_status request = PENDING ->
  let ballot := mkVote agent value_ conf reasoning now in
  let counted := set_c_votes (JsMap.set agent ballot (c_votes request)) request in
  exists s',
    vote agent requestId value_ conf reasoning now s = Ok s' /\
    agents s' = agents s /\ consensusThreshold s' = consensusThreshold s /\
    JsMap.get requestId (consensusRequests s') =
      Some (if enough_votes s counted
            then set_c_status (outcome s counted) counted
            else counted).
Proof.
  intros Hget Hst ballot counted. unfold vote. rewrite Hget Hst /=.
  fold ballot. fold counted.
  set (s1 := with_consensusRequests _ s).
  change (enough_votes s1 counted) with (enough_votes s counted).
  destruct (enough_votes s counted).
  - eexists. split; [reflexivity|].
    assert (JsMap.get requestId (consensusRequests s1) = Some counted) as Hget1
      by apply get_set_eq.
    destruct (finalizeConsensus_frame requestId now s1) as [-> ->].
    rewrite (finalizeConsensus_pending requestId now s1 counted) //.
    split_and!; [done | done |]. apply get_set_eq.
  - eexists. split; [reflexivity|]. split_and!; [done | done |]. apply get_set_eq.
Qed.

(** C7, as amended: [vote] throws when the request is unknown or no
    longer pending; on a pending request it is accepted, also when the
    worker has voted before: the new vote then takes the place of the
    earlier one, so that the request keeps one vote per worker; when the
    number of votes then reaches [consensusThreshold * |agents|] the
    request is finalized in the same call; and once a request is not
    pending, no step of the hive mind changes it. *)
Theorem C7_vote_replaces_and_finalizes
    (agent requestId : string) (value_ : bool) (conf : Q) (reasoning : option string)
    (now : Z) (s : State) :
  ((forall request,
      JsMap.get requestId (consensusRequests s) = Some request ->
      c_status request <> PENDING) ->
   vote agent requestId value_ conf reasoning now s
     = Throw "Invalid or completed consensus request") /\
  (forall request,
     JsMap.get requestId (consensusRequests s) = Some request ->
     c_status request = PENDING ->
     exists s' request',
       vote agent requestId value_ conf reasoning now s = Ok s' /\
       JsMap.get requestId (consensusRequests s') = Some request' /\
       c_votes request' =
         JsMap.set agent (mkVote agent value_ conf reasoning now) (c_votes request) /\
       JsMap.get agent (c_votes request') = Some (mkVote agent value_ conf reasoning now) /\
       (NoDup (JsMap.keys (c_votes request)) -> NoDup (JsMap.keys (c_votes request'))) /\
       (agent ∈ JsMap.keys (c_votes request) ->
        JsMap.size (c_votes request') = JsMap.size (c_votes request)) /\
       ((inject_Z (JsSet.size (agents s)) * consensusThreshold s
         <= inject_Z (JsMap.size (c_votes request')))%Q ->
        c_status request' <> PENDING) /\
       (~ (inject_Z (JsSet.size (agents s)) * consensusThreshold s
           <= inject_Z (JsMap.size (c_votes request')))%Q ->
        c_status request' = PENDING)) /\
  (forall request s',
     JsMap.get requestId (consensusRequests s) = Some request ->
     c_status request <> PENDING ->
     rtc step s s' ->
     JsMap.get requestId (consensusRequests s') = Some request).
Proof.
  split; [|split].
  - intros Hnot. unfold vote.
    destruct (JsMap.get requestId (consensusRequests s)) as [request|]; [|done].
    specialize (Hnot request eq_refl).
    destruct (is_pending (c_status request)) eqn:Hp; [|done].
    by apply is_pending_true in Hp.
  - intros request Hget Hst.
    destruct (vote_pending agent requestId value_ conf reasoning now s request Hget Hst)
      as (s' & Hvote & _ & _ & Hget').
    set (ballot := mkVote agent value_ conf reasoning now) in *.
    set (counted := set_c_votes (JsMap.set agent ballot (c_votes request)) request) in *.
    exists s'. eexists. split; [exact Hvote|]. split; [exact Hget'|].
    assert (forall b, c_votes (if b then set_c_status (outcome s counted) counted
                               else counted)
                      = JsMap.set agent ballot (c_votes request)) as Hvotes
      by (by intros []).
    rewrite Hvotes. split_and!.
    + done.
    + apply get_set_eq.
    + apply NoDup_keys_set.
    + apply size_set_present.
    + intros Henough%Qle_bool_iff.
      assert (enough_votes s counted = true) as -> by exact Henough.
      apply outcome_not_pending.
    + intros Hfew.
      assert (enough_votes s counted = false) as ->; [|exact Hst].
      destruct (enough_votes s counted) eqn:E; [|done].
      exfalso. apply Hfew. by apply Qle_bool_iff.
  - intros request s' Hget Hst Hsteps.
    by apply (settled_steps requestId request Hst s s').
Qed.

Lemma C7_witness :
  (c_status (HiveScenarios.request_in HiveScenarios.voted_yes) = PENDING /\
   exists s' request',
     vote "w1" "id" false (1 # 2) None 2 HiveScenarios.voted_yes = Ok s' /\
     JsMap.get "id" (consensusRequests s') = Some request' /\
     JsMap.get "w1" (c_votes request') = Some (mkVote "w1" false (1 # 2) None 2)) /\
  (c_status (HiveScenarios.request_in HiveScenarios.three_yes) = APPROVED /\
   vote "w4" "id" true 1 None 9 HiveScenarios.three_yes
     = Throw "Invalid or completed consensus request" /\
   JsMap.get "id" (consensusRequests
                     (sync 2000 (unregisterAgent "w1" HiveScenarios.three_yes)))
     = Some (HiveScenarios.request_in HiveScenarios.three_yes)).
Proof.
  split.
  - assert (JsMap.get "id" (consensusRequests HiveScenarios.voted_yes)
            = Some (HiveScenarios.request_in HiveScenarios.voted_yes)) as Hget
      by (vm_compute; reflexivity).
    assert (c_status (HiveScenarios.request_in HiveScenarios.voted_yes) = PENDING) as Hst
      by (vm_compute; reflexivity).
    split; [exact Hst|].
    destruct (C7_vote_replaces_and_finalizes "w1" "id" false (1 # 2) None 2
                HiveScenarios.voted_yes) as (_ & Haccept & _).
    destruct (Haccept _ Hget Hst) as (s' & request' & Hvote & Hget' & _ & Hballot & _).
    exists s', request'. by split_and!.
  - assert (JsMap.get "id" (consensusRequests HiveScenarios.three_yes)
            = Some (HiveScenarios.request_in HiveScenarios.three_yes)) as Hget
      by (vm_compute; reflexivity).
    assert (c_status (HiveScenarios.request_in HiveScenarios.three_yes) = APPROVED) as Hst
      by (vm_compute; reflexivity).
    split; [exact Hst|].
    destruct (C7_vote_replaces_and_finalizes "w4" "id" true 1 None 9
                HiveScenarios.three_yes) as (Hreject & _ & Hfinal).
    split.
    + apply Hreject. intros request Hget2. rewrite Hget in Hget2.
      injection Hget2 as <-. by rewrite Hst.
    + apply (Hfinal _ _ Hget); [by rewrite Hst|].
      eapply rtc_l; [apply step_unregisterAgent|].
      eapply rtc_l; [apply step_sync|]. apply rtc_refl.
Defined.

(** C7, as stated, fails: a worker that has voted yes votes again on the
    pending request; the call is accepted, and the vote on record for the
    worker is now the second one (no), still one vote in the count. *)
Lemma C7_repeated_vote_replaces_the_earlier_one :
  HiveScenarios.session_status HiveScenarios.voted_yes = Some PENDING /\
  HiveScenarios.recorded_vote "w1" HiveScenarios.voted_yes = Some true /\
  HiveScenarios.vote_count HiveScenarios.voted_yes = Some 1 /\
  vote "w1" "id" false (1 # 2) None 2 HiveScenarios.voted_yes
    = Ok HiveScenarios.voted_yes_then_no /\
  HiveScenarios.recorded_vote "w1" HiveScenarios.voted_yes_then_no = Some false /\
  HiveScenarios.vote_count HiveScenarios.voted_yes_then_no = Some 1.
Proof. split_and!; vm_compute; reflexivity. Qed.

End HiveMindFacts.

(** ** The ready queue on its own *)

Module QueueFacts.
Import Orchestrator Consumer OrchestratorFacts.

Lemma getNext_head q r q' :
  queue_getNext q = Some (r, q') -> queue_elements q = r :: queue_elements q'.
Proof.
  destruct q as [c h m l|l].
  - destruct c as [|x c]; [destruct h as [|x h]; [destruct m as [|x m]; [destruct l as [|x l]|]|]|];
      simpl; intros [= <- <-]; done.
  - destruct l; simpl; intros [= <- <-]; done.
Qed.

Lemma getNext_null q : queue_getNext q = None -> queue_elements q = [].
Proof.
  destruct q as [c h m l|l].
  - by destruct c as [|x c]; [destruct h as [|x h]; [destruct m as [|x m]; [destruct l as [|x l]|]|]|].
  - by destruct l.
Qed.

Lemma drain_elements fuel q :
  (length (queue_elements q) <= fuel)%nat -> drain fuel q = queue_elements q.
Proof.
  revert q. induction fuel as [|fuel IH]; intros q Hlen; simpl.
  - by destruct (queue_elements q); [|simpl in Hlen; lia].
  - destruct (queue_getNext q) as [[r q']|] eqn:E.
    + apply getNext_head in E. rewrite E in Hlen |- *. simpl in Hlen.
      rewrite IH; [lia|done].
    + by apply getNext_null in E.
Qed.

Lemma tier_add_all hp rs p c h m l :
  tier p (add_all hp rs (PriorityTaskQueue c h m l)) =
  tier p (PriorityTaskQueue c h m l) ++ of_priority hp p rs.
Proof.
  revert c h m l. induction rs as [|r rs IH]; intros c h m l.
  - by rewrite /of_priority /= app_nil_r.
  - rewrite /add_all /= -/(add_all hp rs _) /of_priority filter_cons.
    case_decide as Hp.
    + rewrite Hp. destruct p; simpl; rewrite IH /= -?app_assoc //.
    + destruct (hp !! r ≫= priority) as [p'|]; [|apply IH].
      destruct p, p'; try done; simpl; rewrite IH //.
Qed.

Lemma length_queue_add hp r q :
  (length (queue_elements (queue_add hp r q)) <= S (length (queue_elements q)))%nat.
Proof.
  destruct q as [c h m l|l]; simpl.
  - destruct (hp !! r ≫= priority) as [[]|]; simpl; rewrite !length_app /=; lia.
  - rewrite length_app /=. lia.
Qed.

Lemma length_add_all hp rs q :
  (length (queue_elements (add_all hp rs q)) <= length rs + length (queue_elements q))%nat.
Proof.
  revert q. induction rs as [|r rs IH]; intros q; [simpl; lia|].
  rewrite /add_all /= -/(add_all hp rs _).
  pose proof (IH (queue_add hp r q)). pose proof (length_queue_add hp r q). lia.
Qed.

Lemma add_all_priority hp rs c h m l :
  exists c' h' m' l', add_all hp rs (PriorityTaskQueue c h m l) = PriorityTaskQueue c' h' m' l'.
Proof.
  revert c h m l. induction rs as [|r rs IH]; intros c h m l; [by eauto|].
  rewrite /add_all /= -/(add_all hp rs _).
  destruct (hp !! r ≫= priority) as [[]|]; simpl; apply IH.
Qed.

Lemma elements_tiers q c h m l :
  q = PriorityTaskQueue c h m l ->
  queue_elements q = tier CRITICAL q ++ tier HIGH q ++ tier MEDIUM q ++ tier LOW q.
Proof. by intros ->. Qed.

(** X1: a priority queue hands out the tasks that were added to it by
    priority, CRITICAL first, and within one priority in the order in
    which they were added; a task without a priority was dropped by
    [add] and is never handed out; after that [getNext] answers [null]. *)
Theorem priority_queue_drains_by_priority_then_age
    (hp : Heap) (rs : list ref) (n : nat) :
  drain (length rs + n) (add_all hp rs (PriorityTaskQueue [] [] [] [])) =
    of_priority hp CRITICAL rs ++ of_priority hp HIGH rs ++
    of_priority hp MEDIUM rs ++ of_priority hp LOW rs.
Proof.
  destruct (add_all_priority hp rs [] [] [] []) as (c & h & m & l & Hq).
  assert (queue_elements (add_all hp rs (PriorityTaskQueue [] [] [] [])) =
          of_priority hp CRITICAL rs ++ of_priority hp HIGH rs ++
          of_priority hp MEDIUM rs ++ of_priority hp LOW rs) as Hel.
  { rewrite (elements_tiers _ _ _ _ _ Hq) !tier_add_all //. }
  rewrite drain_elements; [|done].
  pose proof (length_add_all hp rs (PriorityTaskQueue [] [] [] [])). simpl in *. lia.
Qed.

(** X2: the queue of an orchestrator that was configured without
    priorities hands out the tasks in the order in which they were
    added, whatever their priorities, and then answers [null]. *)
Theorem simple_queue_drains_in_arrival_order
    (hp : Heap) (rs : list ref) (n : nat) :
  drain (length rs + n) (add_all hp rs (SimpleQueue [])) = rs.
Proof.
  assert (forall l, add_all hp rs (SimpleQueue l) = SimpleQueue (l ++ rs)) as Hq.
  { induction rs as [|r rs IH]; intros l; [by rewrite app_nil_r|].
    rewrite /add_all /= -/(add_all hp rs _) IH -app_assoc //. }
  rewrite drain_elements Hq /=; [lia|done].
Qed.

Lemma remove_first_app f l1 l2 :
  remove_first f (l1 ++ l2) =
  match remove_first f l1 with
  | Some l1' => Some (l1' ++ l2)
  | None => (fun l2' => l1 ++ l2') <$> remove_first f l2
  end.
Proof.
  induction l1 as [|x l1 IH]; simpl.
  - by destruct (remove_first f l2).
  - destruct (f x); [done|]. rewrite IH.
    destruct (remove_first f l1); [done|]. by destruct (remove_first f l2).
Qed.

Lemma remove_first_Some f l l' :
  remove_first f l = Some l' -> existsb f l = true /\ length l = S (length l').
Proof.
  revert l'. induction l as [|x l IH]; intros l'; [done|]. simpl.
  destruct (f x); [by intros [= <-]|].
  destruct (remove_first f l) as [l''|]; [|done]. intros [= <-].
  destruct (IH l'' eq_refl) as [-> ->]. done.
Qed.

Lemma remove_first_None f l : remove_first f l = None -> existsb f l = false.
Proof.
  induction l as [|x l IH]; [done|]. simpl.
  destruct (f x); [done|]. destruct (remove_first f l); [done|]. auto.
Qed.

Lemma remove_first_length f l :
  length (without_first f l) = (length l - (if existsb f l then 1 else 0))%nat.
Proof.
  unfold without_first. destruct (remove_first f l) as [l'|] eqn:E.
  - apply remove_first_Some in E as [-> ->]. lia.
  - apply remove_first_None in E as ->. lia.
Qed.

(** X3: [remove(taskId)] takes out the first queued task with that id
    in the order in which [getNext] would hand the tasks out, and that
    one only: the queue shrinks by one when the id is queued and is
    unchanged otherwise, so a task that was queued twice is still
    queued after it. *)
Theorem queue_remove_takes_first_occurrence_only
    (hp : Heap) (taskId : string) (q : TaskQueue) :
  queue_elements (queue_remove hp taskId q) =
    without_first (id_is hp taskId) (queue_elements q) /\
  queue_size (queue_remove hp taskId q) =
    queue_size q - (if existsb (id_is hp taskId) (queue_elements q) then 1 else 0).
Proof.
  assert (queue_elements (queue_remove hp taskId q) =
          without_first (id_is hp taskId) (queue_elements q)) as Hel.
  { unfold without_first. destruct q as [c h m l|l]; simpl.
    - rewrite !remove_first_app.
      destruct (remove_first _ c); [done|].
      destruct (remove_first _ h); [done|].
      destruct (remove_first _ m); [done|].
      by destruct (remove_first _ l).
    - by destruct (remove_first _ l). }
  split; [done|].
  rewrite !queue_size_elements Hel remove_first_length.
  destruct (existsb _ _) eqn:E; [|lia].
  destruct (queue_elements q); [done|simpl; lia].
Qed.

End QueueFacts.

(** ** Submission, agents and cancellation *)

Module SchedulingFacts.
Import Orchestrator Wellformed Conditions OrchestratorFacts.

(** A task without dependencies goes from [submitTask] to [queue.add]. *)
Lemma submitTask_no_dependencies (task : Task) (uuid : string) (s : State) :
  t_dependencies task = [] ->
  queue_size (queue s) < maxQueueSize (config s) ->
  let instance := new_instance task uuid in
  let r := length (heap s) in
  let s3 := with_dependencyGraph (JsMap.set (id instance) r (dependencyGraph s))
              (with_tasks (JsMap.set (id instance) r (tasks s))
                 (with_heap (heap s ++ [instance]) s)) in
  submitTask task uuid s = Ok (emit (TaskQueued (id instance)) (enqueue r s3)) /\
  heap s3 !! r = Some instance.
Proof.
  intros Hdeps Hroom instance r s3.
  assert (heap s3 !! r = Some instance) as Hr.
  { subst s3 r. simpl. by apply list_lookup_middle. }
  split; [|done]. unfold submitTask.
  assert ((queue_size (queue s) >=? maxQueueSize (config s)) = false) as ->
    by (rewrite Z.geb_leb; apply Z.leb_gt; lia).
  fold instance. fold r.
  set (s2 := with_tasks _ (with_heap _ s)).
  assert (heap s2 !! r = Some instance) as Hr2 by exact Hr.
  assert (dependencies instance = []) as Hnodeps by (by rewrite /instance /= Hdeps).
  assert (updateDependencyGraph r s2 = s3) as ->.
  { by rewrite /updateDependencyGraph Hr2 Hnodeps. }
  by rewrite /canQueueTask Hr Hnodeps.
Qed.

(** X4: on a priority queue, [submitTask] of a task that has no
    dependencies and no priority succeeds and announces the task as
    queued, although [add] found no array for it: the queue is as it was
    and the task is PENDING in the task map. *)
Theorem submitTask_without_priority_is_announced_but_not_queued
    (task : Task) (uuid : string) (s : State) (c h m l : list ref) :
  queue s = PriorityTaskQueue c h m l ->
  t_priority task = None ->
  t_dependencies task = [] ->
  queue_size (queue s) < maxQueueSize (config s) ->
  exists s',
    submitTask task uuid s = Ok s' /\
    queue s' = queue s /\
    last (events s') = Some (TaskQueued (id (new_instance task uuid))) /\
    getTaskStatus (id (new_instance task uuid)) s' = PENDING.
Proof.
  intros Hq Hprio Hdeps Hroom.
  destruct (submitTask_no_dependencies task uuid s Hdeps Hroom) as [-> Hr].
  set (instance := new_instance task uuid) in *.
  set (r := length (heap s)) in *.
  set (s3 := with_dependencyGraph _ _) in *.
  eexists. split; [reflexivity|].
  assert (priority instance = None) as Hnoprio by (by rewrite /instance /= Hprio).
  assert (enqueue r s3 = s3) as ->.
  { rewrite /enqueue /queue_add. replace (queue s3) with (PriorityTaskQueue c h m l) by done.
    rewrite Hr. change (Some instance ≫= priority) with (priority instance).
    rewrite Hnoprio -Hq. reflexivity. }
  split_and!.
  - done.
  - by rewrite /emit /= last_snoc.
  - rewrite /getTaskStatus /task_of.
    change (tasks (emit (TaskQueued (id instance)) s3))
      with (JsMap.set (id instance) r (tasks s)).
    rewrite get_set_eq.
    change (heap (emit (TaskQueued (id instance)) s3)) with (heap s3).
    change (Some r ≫= (fun r0 => heap s3 !! r0)) with (heap s3 !! r).
    by rewrite Hr.
Qed.

Lemma submitTask_without_priority_witness :
  exists s',
    submitTask (mkTask (Some "plain") "plain" (Some PROCESS) None []) "0000"
      (new (Scenarios.config_with Scenarios.first_available 3 EXPONENTIAL)) = Ok s' /\
    queue s' = PriorityTaskQueue [] [] [] [] /\
    last (events s') = Some (TaskQueued "plain") /\
    getTaskStatus "plain" s' = PENDING.
Proof.
  apply (submitTask_without_priority_is_announced_but_not_queued
           (mkTask (Some "plain") "plain" (Some PROCESS) None []) "0000"
           (new (Scenarios.config_with Scenarios.first_available 3 EXPONENTIAL))
           [] [] [] []); reflexivity.
Defined.

Lemma elem_queue_add hp r inst p q :
  hp !! r = Some inst -> priority inst = Some p ->
  r ∈ queue_elements (queue_add hp r q).
Proof.
  intros Hr Hp. destruct q as [c h m l|l]; simpl.
  - rewrite Hr /= Hp. destruct p; simpl; set_solver.
  - set_solver.
Qed.

(** X5: a task that the coordinator accepts always has a priority,
    MEDIUM when the caller gave none, so one without dependencies is in
    the ready queue when [submitTask] returns, under the id that the
    coordinator hands back. *)
Theorem coordinator_queues_an_accepted_task_without_dependencies
    (task : Task) (uuid taskId : string) (c c' : SwarmCoordinator.State) :
  SwarmCoordinator.submitTask task uuid c = Ok (taskId, c') ->
  t_dependencies task = [] ->
  exists r inst,
    r ∈ queue_elements (queue (SwarmCoordinator.taskOrchestrator c')) /\
    heap (SwarmCoordinator.taskOrchestrator c') !! r = Some inst /\
    id inst = taskId /\
    priority inst = Some (default MEDIUM (t_priority task)) /\
    last (events (SwarmCoordinator.taskOrchestrator c')) = Some (TaskQueued taskId).
Proof.
  intros Hsub Hdeps. unfold SwarmCoordinator.submitTask in Hsub.
  destruct (SwarmCoordinator._state c); try done.
  unfold SwarmCoordinator.validateTask in Hsub.
  destruct (t_name task) eqn:Hname; [done|].
  destruct (t_type task) eqn:Htype; [|done]. cbn [t_id t_name t_type t_priority t_dependencies] in Hsub.
  set (taskId' := match truthy_id (t_id task) with Some i => i | None => "task-" +:+ uuid end) in *.
  set (task2 := mkTask (Some taskId') _ _ _ _) in *.
  set (o := SwarmCoordinator.taskOrchestrator c) in *.
  destruct (submitTask task2 uuid o) as [o'|] eqn:Ho; [|done].
  injection Hsub as <- <-. cbn [SwarmCoordinator.taskOrchestrator].
  assert (queue_size (queue o) < maxQueueSize (config o)) as Hroom.
  { unfold submitTask in Ho. destruct (_ >=? _) eqn:E; [done|].
    rewrite Z.geb_leb in E. by apply Z.leb_gt in E. }
  destruct (submitTask_no_dependencies task2 uuid o Hdeps Hroom) as [Heq Hr].
  rewrite Heq in Ho. injection Ho as <-.
  set (instance := new_instance task2 uuid) in *.
  set (r := length (heap o)) in *.
  set (s3 := with_dependencyGraph _ _) in *.
  assert (priority instance = Some (default MEDIUM (t_priority task))) as Hp.
  { rewrite /instance /=. by destruct (t_priority task). }
  assert (id instance = taskId') as Hid.
  { rewrite /instance /new_instance /= /taskId'.
    destruct (truthy_id (t_id task)) as [i|] eqn:Ht.
    - apply truthy_id_Some in Ht as [_ Hne]. by destruct i.
    - simpl. done. }
  exists r, instance. split_and!.
  - by eapply elem_queue_add.
  - done.
  - done.
  - done.
  - change (last (events (emit (TaskQueued (id instance)) (enqueue r s3))) =
            Some (TaskQueued taskId')).
    rewrite /emit. cbn [events]. by rewrite last_snoc Hid.
Qed.

Lemma coordinator_queues_witness :
  exists r inst,
    r ∈ queue_elements (queue (SwarmCoordinator.taskOrchestrator Runs.swarm_accepted)) /\
    heap (SwarmCoordinator.taskOrchestrator Runs.swarm_accepted) !! r = Some inst /\
    id inst = "task-0000" /\
    priority inst = Some MEDIUM /\
    last (events (SwarmCoordinator.taskOrchestrator Runs.swarm_accepted)) =
      Some (TaskQueued "task-0000").
Proof.
  apply (coordinator_queues_an_accepted_task_without_dependencies
           Runs.anonymous "0000" "task-0000" Runs.swarm_running Runs.swarm_accepted);
    reflexivity.
Defined.

(** *** Agents that leave *)

Lemma tasks_reassign s r : tasks (reassign s r) = tasks s.
Proof. done. Qed.

Lemma tasks_fold {A} (f : State -> A -> State) (l : list A) s :
  (forall st a, tasks (f st a) = tasks st) ->
  tasks (fold_left f l s) = tasks s.
Proof.
  intros Hf. revert s. induction l as [|a l IH]; intros s; simpl; [done|].
  by rewrite IH Hf.
Qed.

(** A loop over references whose body updates the object behind its
    own reference with an idempotent [g] and no other object. *)
Lemma heap_fold_own (body : State -> ref -> State) (g : TaskInstance -> TaskInstance)
    (l : list ref) (s : State) (r : ref) :
  (forall st r0 r', heap (body st r0) !! r' =
     match decide (r' = r0) with
     | left _ => g <$> heap st !! r'
     | right _ => heap st !! r'
     end) ->
  (forall t, g (g t) = g t) ->
  heap (fold_left body l s) !! r =
    match decide (r ∈ l) with
    | left _ => g <$> heap s !! r
    | right _ => heap s !! r
    end.
Proof.
  intros Hbody Hg. revert s. induction l as [|r0 l IH]; intros s; simpl.
  - destruct (decide (r ∈ [])) as [Hin|]; [set_solver|done].
  - rewrite IH Hbody.
    destruct (decide (r ∈ l)) as [Hin|Hnin], (decide (r = r0)) as [->|Hne],
      (decide (_ ∈ _ :: l)) as [Hin'|Hnin']; try done; try set_solver.
    destruct (heap s !! r0); simpl; [|done]. by rewrite Hg.
Qed.

Lemma heap_reassign s r0 r' :
  heap (reassign s r0) !! r' =
    match decide (r' = r0) with
    | left _ => (fun t => set_status PENDING (set_assignedAgent None t)) <$> heap s !! r'
    | right _ => heap s !! r'
    end.
Proof.
  rewrite /reassign /enqueue /modify /update /=.
  destruct (decide (r' = r0)) as [->|Hne].
  - by rewrite list_lookup_alter_eq.
  - by rewrite list_lookup_alter_ne.
Qed.

Lemma values_get {V} k (v : V) m : JsMap.get k m = Some v -> v ∈ JsMap.values m.
Proof.
  intros H%get_Some_elem. rewrite /JsMap.values.
  apply list_elem_of_fmap. by exists (k, v).
Qed.

Lemma agents_fold_reassign l s : agents (fold_left reassign l s) = agents s.
Proof. revert s. induction l as [|r l IH]; intros s; simpl; [done|]. by rewrite IH. Qed.

(** What [unregisterAgent] does to the tasks of the task map. *)
Lemma task_of_unregisterAgent (agentId taskId : string) (s : State) :
  task_of taskId (unregisterAgent agentId s) =
    (fun t => if running_on agentId t
              then set_status PENDING (set_assignedAgent None t) else t)
      <$> task_of taskId s.
Proof.
  unfold unregisterAgent.
  set (s1 := with_agents _ s).
  set (L := filter _ _).
  rewrite /task_of.
  change (tasks (emit (AgentUnregistered agentId) (fold_left reassign L s1)))
    with (tasks (fold_left reassign L s1)).
  rewrite (tasks_fold reassign L s1 tasks_reassign).
  change (tasks s1) with (tasks s).
  destruct (JsMap.get taskId (tasks s)) as [r|] eqn:Hget; [|done].
  change (heap (emit (AgentUnregistered agentId) (fold_left reassign L s1)) !! r =
          (fun t => if running_on agentId t
                    then set_status PENDING (set_assignedAgent None t) else t)
            <$> heap s !! r).
  rewrite (heap_fold_own reassign _ L s1 r heap_reassign); [done|].
  change (heap s1) with (heap s).
  destruct (heap s !! r) as [t|] eqn:Hr; [|by destruct (decide _)]. simpl.
  assert (reassignable s1 agentId r = running_on agentId t) as Hcond.
  { rewrite /reassignable /running_on. change (heap s1) with (heap s). by rewrite Hr. }
  subst L. destruct (running_on agentId t) eqn:Hrun.
  - destruct (decide _) as [|Hnin]; [done|]. exfalso. apply Hnin.
    apply list_elem_of_filter. split; [done|]. by eapply values_get.
  - destruct (decide _) as [Hin|]; [|done].
    apply list_elem_of_filter in Hin as [Hre _]. congruence.
Qed.

(** X6: [unregisterAgent] takes the agent out of the agent map and
    hands every task of the task map that was RUNNING on it back:
    such a task is PENDING again and unassigned, with its attempt count
    and every other field as they were; every other task is as it was. *)
Theorem unregisterAgent_hands_back_the_running_tasks_of_the_agent
    (agentId taskId : string) (s : State) :
  JsMap.get agentId (agents (unregisterAgent agentId s)) = None /\
  task_of taskId (unregisterAgent agentId s) =
    (fun t => if running_on agentId t
              then set_status PENDING (set_assignedAgent None t) else t)
      <$> task_of taskId s.
Proof.
  split; [|apply task_of_unregisterAgent].
  rewrite /unregisterAgent /emit /= agents_fold_reassign /=. apply get_delete_eq.
Qed.

(** *** Cancellation along [dependents] *)

Lemma request_cancel_frame taskId task s :
  heap (request_cancel taskId task s) = heap s /\
  tasks (request_cancel taskId task s) = tasks s.
Proof.
  unfold request_cancel. destruct (TaskStatus_eqb _ _); [|done].
  by destruct (_ ≫= _).
Qed.

(** [cancelTask] changes neither the task map nor a [dependents] set. *)
Lemma cancelTask_links fuel :
  forall taskId s s',
    cancelTask fuel taskId s = Some s' ->
    tasks s' = tasks s /\
    forall r, dependents <$> heap s' !! r = dependents <$> heap s !! r.
Proof.
  induction fuel as [|fuel IH]; intros taskId s s'; [done|]. simpl.
  destruct (JsMap.get taskId (tasks s)) as [r|]; [|by intros [= <-]].
  destruct (heap s !! r) as [task|] eqn:Hr; [|by intros [= <-]].
  destruct (request_cancel_frame taskId task s) as [Hh Ht].
  set (s3 := with_queue _ _).
  assert (tasks s3 = tasks s /\
          forall r', dependents <$> heap s3 !! r' = dependents <$> heap s !! r') as Hs3.
  { split; [subst s3; simpl; by rewrite Ht|]. intros r'. subst s3. simpl. rewrite Hh.
    destruct (decide (r = r')) as [<-|Hne].
    - rewrite list_lookup_alter_eq Hr //.
    - rewrite list_lookup_alter_ne //. }
  clearbody s3. revert s3 Hs3.
  induction (dependents task) as [|d ds IHds]; intros s3 [Ht3 Hd3]; simpl.
  - by intros [= <-].
  - destruct (cancelTask fuel d s3) as [s4|] eqn:E; [|done].
    apply IH in E as [Ht4 Hd4]. apply IHds. split; [congruence|].
    intros r'. by rewrite Hd4.
Qed.

(** X7: a task that is its own dependent, as one that was submitted
    with its own id among its dependencies is, cannot be cancelled:
    [cancelTask] calls itself on the task again before it returns, at
    every depth. *)
Theorem cancelTask_of_a_self_dependent_task_never_returns
    (fuel : nat) (taskId : string) (s : State) (r : ref) (task : TaskInstance) :
  JsMap.get taskId (tasks s) = Some r ->
  heap s !! r = Some task ->
  taskId ∈ dependents task ->
  cancelTask fuel taskId s = None.
Proof.
  revert s task. induction fuel as [|fuel IH]; intros s task Hget Hr Hself; [done|].
  simpl. rewrite Hget Hr.
  destruct (request_cancel_frame taskId task s) as [Hh Ht].
  set (s3 := with_queue _ _).
  assert (JsMap.get taskId (tasks s3) = Some r /\
          dependents <$> heap s3 !! r = Some (dependents task)) as Hs3.
  { split; [subst s3; simpl; by rewrite Ht|]. subst s3. simpl.
    rewrite Hh list_lookup_alter_eq Hr //. }
  clearbody s3.
  enough (forall ds st,
            taskId ∈ ds ->
            JsMap.get taskId (tasks st) = Some r /\
            dependents <$> heap st !! r = Some (dependents task) ->
            cancel_each (cancelTask fuel) ds st = None) as Hloop.
  { by rewrite Hloop. }
  induction ds as [|d ds IHds]; intros st Hin [Hget3 Hd3]; [set_solver|]. simpl.
  destruct (cancelTask fuel d st) as [s4|] eqn:E; [|done].
  destruct (decide (d = taskId)) as [->|Hne].
  - destruct (heap st !! r) as [task3|] eqn:Hr3; [|done].
    injection Hd3 as Hd3.
    rewrite (IH st task3) in E; [done..|by rewrite Hd3|done].
  - apply cancelTask_links in E as [Ht4 Hd4].
    apply IHds; [set_solver|]. split; [congruence|]. by rewrite Hd4.
Qed.

Lemma cancelTask_self_dependent_witness :
  cancelTask 100 "loop" Runs.self_dependent = None.
Proof.
  apply (cancelTask_of_a_self_dependent_task_never_returns 100 "loop"
           Runs.self_dependent 0
           (mkTaskInstance "loop" "loop" (Some PROCESS) (Some MEDIUM) PENDING None 0 []
              ["loop"] ["loop"] None None None)).
  - reflexivity.
  - reflexivity.
  - apply list_elem_of_here.
Defined.
(** *** The passes of a tick *)

Lemma occurrences_app r l1 l2 :
  occurrences_of r (l1 ++ l2) = (occurrences_of r l1 + occurrences_of r l2)%nat.
Proof. by rewrite /occurrences_of filter_app length_app. Qed.

Lemma occurrences_self r : occurrences_of r [r] = 1%nat.
Proof. rewrite /occurrences_of filter_cons. by destruct (decide (r = r)). Qed.

Lemma occurrences_queue_add_ge hp r r' q :
  (occurrences_of r (queue_elements q) <=
   occurrences_of r (queue_elements (queue_add hp r' q)))%nat.
Proof.
  destruct q as [c h m l|l]; simpl.
  - destruct (hp !! r' ≫= priority) as [[]|]; simpl; rewrite !occurrences_app; lia.
  - rewrite occurrences_app. lia.
Qed.

Lemma occurrences_queue_add_self hp r t p q :
  hp !! r = Some t -> priority t = Some p ->
  occurrences_of r (queue_elements (queue_add hp r q)) =
    S (occurrences_of r (queue_elements q)).
Proof.
  intros Hr Hp. destruct q as [c h m l|l]; simpl.
  - rewrite Hr /= Hp. destruct p; simpl; rewrite !occurrences_app occurrences_self; lia.
  - rewrite occurrences_app occurrences_self. lia.
Qed.

Lemma queue_if_met_frame s r :
  heap (queue_if_met s r) = heap s /\ tasks (queue_if_met s r) = tasks s.
Proof.
  unfold queue_if_met. destruct (heap s !! r); [|done]. by destruct (_ && _).
Qed.

Lemma canQueueTask_frame s s' r :
  heap s' = heap s -> tasks s' = tasks s -> canQueueTask s' r = canQueueTask s r.
Proof.
  intros Hh Ht. rewrite /canQueueTask Hh. destruct (heap s !! r); [|done].
  f_equal. rewrite /dependency_completed Hh Ht //.
Qed.

Lemma occurrences_queue_if_met_ge s r r' :
  (occurrences_of r (queue_elements (queue s)) <=
   occurrences_of r (queue_elements (queue (queue_if_met s r'))))%nat.
Proof.
  unfold queue_if_met. destruct (heap s !! r'); [|done].
  destruct (_ && _); [|done]. apply occurrences_queue_add_ge.
Qed.

(** X8: the dependency pass does not look into the queue: a PENDING
    task whose dependency set is not empty and holds completed tasks only
    is added to the ready queue by every pass, once more each time,
    whether or not it is queued already. *)
Theorem checkDependencies_queues_a_ready_task_once_more
    (s : State) (r : ref) (task : TaskInstance) (p : Priority) :
  r ∈ JsMap.values (tasks s) ->
  heap s !! r = Some task ->
  status task = PENDING ->
  dependencies task <> [] ->
  priority task = Some p ->
  canQueueTask s r = true ->
  (occurrences_of r (queue_elements (queue s)) <
   occurrences_of r (queue_elements (queue (checkDependencies s))))%nat.
Proof.
  intros Hin Hr Hst Hdeps Hp Hcan. unfold checkDependencies.
  revert Hin. generalize (JsMap.values (tasks s)) as L.
  intros L. revert s Hr Hcan. induction L as [|r0 L IH]; intros s Hr Hcan Hin; [set_solver|].
  simpl. destruct (queue_if_met_frame s r0) as [Hh Ht].
  destruct (decide (r = r0)) as [<-|Hne].
  - assert (occurrences_of r (queue_elements (queue (queue_if_met s r))) =
            S (occurrences_of r (queue_elements (queue s)))) as Hstep.
    { rewrite /queue_if_met Hr Hst Hcan /=.
      destruct (dependencies task); [done|]. simpl.
      by eapply occurrences_queue_add_self. }
    assert (forall st, (occurrences_of r (queue_elements (queue st)) <=
              occurrences_of r (queue_elements (queue (fold_left queue_if_met L st))))%nat)
      as Hmono.
    { clear. induction L as [|r1 L IH]; intros st; simpl; [lia|].
      etransitivity; [apply (occurrences_queue_if_met_ge st r r1)|apply IH]. }
    specialize (Hmono (queue_if_met s r)). lia.
  - pose proof (occurrences_queue_if_met_ge s r r0).
    assert (occurrences_of r (queue_elements (queue (queue_if_met s r0))) <
            occurrences_of r (queue_elements (queue
              (fold_left queue_if_met L (queue_if_met s r0)))))%nat; [|lia].
    apply IH; [by rewrite Hh | by rewrite (canQueueTask_frame s) | set_solver].
Qed.

Lemma checkDependencies_witness :
  (occurrences_of 3 (queue_elements (queue Runs.late_dependent)) <
   occurrences_of 3 (queue_elements (queue (checkDependencies Runs.late_dependent))))%nat.
Proof.
  apply (checkDependencies_queues_a_ready_task_once_more Runs.late_dependent 3%nat
           (mkTaskInstance "D" "D" (Some PROCESS) (Some MEDIUM) PENDING None 0 []
              ["A"] [] None None None) MEDIUM).
  - vm_compute. set_solver.
  - reflexivity.
  - reflexivity.
  - done.
  - reflexivity.
  - reflexivity.
Defined.
Lemma heap_retry_if_due now s r0 r' :
  heap (retry_if_due now s r0) !! r' =
    match decide (r' = r0) with
    | left _ => (fun t => if retry_due now t then set_nextRetryTime None t else t)
                  <$> heap s !! r'
    | right _ => heap s !! r'
    end.
Proof.
  unfold retry_if_due, retry_due.
  destruct (decide (r' = r0)) as [->|Hne].
  - destruct (heap s !! r0) as [task|] eqn:Hr; [|done]. simpl.
    destruct (nextRetryTime task); [|by rewrite Hr].
    destruct (_ && _); [|by rewrite Hr].
    by rewrite /emit /modify /update /= list_lookup_alter_eq Hr.
  - destruct (heap s !! r0) as [task|] eqn:Hr; [|done].
    destruct (nextRetryTime task); [|done].
    destruct (_ && _); [|done].
    by rewrite /emit /modify /update /= list_lookup_alter_ne.
Qed.

Lemma tasks_retry_if_due now s r : tasks (retry_if_due now s r) = tasks s.
Proof.
  unfold retry_if_due. destruct (heap s !! r); [|done].
  destruct (nextRetryTime _); [|done]. by destruct (_ && _).
Qed.

Lemma elem_queue_add_mono hp r x q :
  x ∈ queue_elements q -> x ∈ queue_elements (queue_add hp r q).
Proof.
  destruct q as [c h m l|l]; simpl.
  - destruct (hp !! r ≫= priority) as [[]|]; simpl; set_solver.
  - set_solver.
Qed.

Lemma elem_retry_if_due_mono now s r x :
  x ∈ queue_elements (queue s) -> x ∈ queue_elements (queue (retry_if_due now s r)).
Proof.
  intros Hx. unfold retry_if_due. destruct (heap s !! r); [|done].
  destruct (nextRetryTime _); [|done]. destruct (_ && _); [|done].
  by apply elem_queue_add_mono.
Qed.

Lemma elem_fold_mono (body : State -> ref -> State) (l : list ref) s x :
  (forall st r, x ∈ queue_elements (queue st) -> x ∈ queue_elements (queue (body st r))) ->
  x ∈ queue_elements (queue s) -> x ∈ queue_elements (queue (fold_left body l s)).
Proof.
  intros Hbody. revert s. induction l as [|r l IH]; intros s Hx; simpl; auto.
Qed.

(** X9: after the retry pass at instant [now], every task of the task
    map whose retry was due (PENDING, with a retry time at or before
    [now]) has lost its retry time and is otherwise as it was, and every
    other task is as it was; a due task that has a priority is in the
    ready queue. *)
Theorem processRetries_requeues_the_due_retries
    (now : Z) (taskId : string) (s : State) :
  task_of taskId (processRetries now s) =
    (fun t => if retry_due now t then set_nextRetryTime None t else t)
      <$> task_of taskId s /\
  forall r t p,
    JsMap.get taskId (tasks s) = Some r -> heap s !! r = Some t ->
    retry_due now t = true -> priority t = Some p ->
    r ∈ queue_elements (queue (processRetries now s)).
Proof.
  unfold processRetries. split.
  - rewrite /task_of (tasks_fold _ _ _ (tasks_retry_if_due now)).
    destruct (JsMap.get taskId (tasks s)) as [r|] eqn:Hget; [|done]. simpl.
    rewrite (heap_fold_own _ _ _ s r (heap_retry_if_due now)).
    + intros t. destruct (retry_due now t) eqn:E; [|by rewrite E].
      rewrite /retry_due /=. done.
    + destruct (decide _) as [|Hnin]; [done|].
      destruct Hnin. by eapply values_get.
  - intros r t p Hget Hr Hdue Hp.
    apply values_get in Hget. revert Hget. generalize (JsMap.values (tasks s)) as L.
    intros L. revert s Hr. induction L as [|r0 L IH]; intros s Hr Hin; [set_solver|].
    simpl. destruct (decide (r = r0)) as [<-|Hne].
    + apply elem_fold_mono; [intros; by apply elem_retry_if_due_mono|].
      unfold retry_due in Hdue. rewrite /retry_if_due Hr.
      destruct (nextRetryTime t); [|done]. rewrite Hdue /=.
      by eapply elem_queue_add.
    + apply IH; [|set_solver]. rewrite heap_retry_if_due.
      destruct (decide _); [done|]. done.
Qed.
Lemma processRetries_witness :
  0%nat ∈ queue_elements
    (queue (processRetries 520 (BackoffScenario.first_failure EXPONENTIAL))).
Proof.
  destruct (processRetries_requeues_the_due_retries 520 "job"
              (BackoffScenario.first_failure EXPONENTIAL)) as [_ H].
  eapply (H 0%nat _ MEDIUM); [reflexivity | vm_compute; reflexivity | reflexivity | reflexivity].
Defined.
(** *** The timeout sweep *)

Lemma cascade_fail_heap s depId r x :
  heap s !! r = Some x ->
  heap (cascade_fail s depId) !! r = Some x \/
  (status x = PENDING /\ heap (cascade_fail s depId) !! r = Some (set_status FAILED x)).
Proof.
  intros Hr. unfold cascade_fail. destruct (JsMap.get _ _) as [d|]; [|by left].
  destruct (heap s !! d) as [dependent|] eqn:Hd; [|by left].
  destruct (TaskStatus_eqb _ _) eqn:Hst; [|by left].
  apply TaskStatus_eqb_eq in Hst. simpl.
  destruct (decide (d = r)) as [->|Hne].
  - right. rewrite list_lookup_alter_eq Hr /=. split; congruence.
  - left. by rewrite list_lookup_alter_ne.
Qed.

Lemma cascade_fail_heap_inv s depId r x :
  heap (cascade_fail s depId) !! r = Some x ->
  heap s !! r = Some x \/ status x = FAILED.
Proof.
  unfold cascade_fail. destruct (JsMap.get _ _) as [d|]; [|by left].
  destruct (heap s !! d) as [dependent|] eqn:Hd; [|by left].
  destruct (TaskStatus_eqb _ _) eqn:Hst; [|by left]. simpl.
  destruct (decide (d = r)) as [->|Hne].
  - rewrite list_lookup_alter_eq Hd /=. intros [= <-]. by right.
  - rewrite list_lookup_alter_ne //. by left.
Qed.

Lemma config_fold {A} (f : State -> A -> State) (l : list A) s :
  (forall st a, config (f st a) = config st) ->
  config (fold_left f l s) = config s.
Proof.
  intros Hf. revert s. induction l as [|a l IH]; intros s; simpl; [done|].
  by rewrite IH Hf.
Qed.

Lemma config_cascade_fail s depId : config (cascade_fail s depId) = config s.
Proof.
  unfold cascade_fail. destruct (JsMap.get _ _); [|done].
  destruct (heap s !! _); [|done]. by destruct (TaskStatus_eqb _ _).
Qed.

Lemma handleTaskFailure_frame r result now s :
  config (handleTaskFailure r result now s) = config s /\
  tasks (handleTaskFailure r result now s) = tasks s /\
  queue (handleTaskFailure r result now s) = queue s.
Proof.
  unfold handleTaskFailure. destruct (heap s !! r) as [task|]; [|done].
  destruct (shouldRetry _ _).
  - by destruct (retryPolicy _).
  - destruct (fold_cascade_fail_frame (dependents task)
                (emit (TaskFailed (id task) (r_error result)) s)) as [-> ->].
    by rewrite (config_fold _ _ _ config_cascade_fail).
Qed.

Lemma fold_cascade_fail_running_inv ds st r' x :
  heap (fold_left cascade_fail ds st) !! r' = Some x ->
  status x = RUNNING -> heap st !! r' = Some x.
Proof.
  revert st. induction ds as [|d ds IH]; intros st Hx Hst; [done|].
  simpl in Hx. apply IH in Hx; [|done].
  apply cascade_fail_heap_inv in Hx as [Hx|Hx]; [done|congruence].
Qed.

(** A task that [handleTaskFailure] leaves RUNNING was not touched. *)
Lemma handleTaskFailure_running_inv r result now s r' x :
  heap (handleTaskFailure r result now s) !! r' = Some x ->
  status x = RUNNING -> heap s !! r' = Some x.
Proof.
  unfold handleTaskFailure. destruct (heap s !! r) as [task|] eqn:Hr; [|done].
  destruct (shouldRetry _ _).
  - destruct (retryPolicy _); [|done]. simpl.
    destruct (decide (r = r')) as [<-|Hne].
    + rewrite list_lookup_alter_eq Hr /=. by intros [= <-].
    + by rewrite list_lookup_alter_ne.
  - intros Hx Hst. by apply fold_cascade_fail_running_inv in Hx.
Qed.

(** A task that is not PENDING and is not the failed one is out of
    reach of [handleTaskFailure]. *)
Lemma handleTaskFailure_other r result now s r' x :
  r' <> r -> heap s !! r' = Some x -> status x <> PENDING ->
  heap (handleTaskFailure r result now s) !! r' = Some x.
Proof.
  intros Hne Hx Hst. unfold handleTaskFailure.
  destruct (heap s !! r) as [task|] eqn:Hr; [|done].
  destruct (shouldRetry _ _).
  - destruct (retryPolicy _); [|done]. simpl. by rewrite list_lookup_alter_ne.
  - assert (heap (emit (TaskFailed (id task) (r_error result)) s) !! r' = Some x) as Hx'
      by done.
    revert Hx'. generalize (emit (TaskFailed (id task) (r_error result)) s) as st.
    induction (dependents task) as [|d ds IH]; intros st Hx'; [done|].
    simpl. apply IH.
    destruct (cascade_fail_heap st d r' x Hx') as [|[? _]]; [done|congruence].
Qed.

Lemma time_out_if_late_frame now s r :
  config (time_out_if_late now s r) = config s /\
  tasks (time_out_if_late now s r) = tasks s.
Proof.
  unfold time_out_if_late. destruct (heap s !! r) as [task|]; [|done].
  destruct (startTime task); [|done]. destruct (_ && _); [|done].
  rewrite /emit /=.
  match goal with |- context [handleTaskFailure ?a ?b ?c ?d] =>
    destruct (handleTaskFailure_frame a b c d) as (-> & -> & _) end.
  done.
Qed.

Lemma time_out_if_late_running_inv now s r0 r x :
  heap (time_out_if_late now s r0) !! r = Some x ->
  status x = RUNNING ->
  heap s !! r = Some x /\ (r = r0 -> overdue (timeout (config s)) now x = false).
Proof.
  unfold time_out_if_late, overdue.
  destruct (heap s !! r0) as [task|] eqn:Hr0; [|by intros ?? ; split; [|intros ->; congruence]].
  destruct (startTime task) as [st|] eqn:Hst.
  - destruct (_ && _) eqn:Hlate.
    + intros Hx Hrun. change (heap (emit _ ?st) !! r) with (heap st !! r) in Hx.
      apply handleTaskFailure_running_inv in Hx; [|done]. simpl in Hx.
      destruct (decide (r0 = r)) as [<-|Hne].
      * rewrite list_lookup_alter_eq Hr0 /= in Hx. injection Hx as <-. done.
      * rewrite list_lookup_alter_ne in Hx; [done|]. split; [done|]. by intros ->.
    + intros Hx Hrun. split; [done|]. intros ->.
      rewrite Hr0 in Hx. injection Hx as <-. by rewrite Hst.
  - intros Hx Hrun. split; [done|]. intros ->.
    rewrite Hr0 in Hx. injection Hx as <-. by rewrite Hst.
Qed.

Lemma time_out_if_late_keeps now s r0 r x :
  heap s !! r = Some x -> status x = RUNNING ->
  overdue (timeout (config s)) now x = false ->
  heap (time_out_if_late now s r0) !! r = Some x.
Proof.
  intros Hx Hrun Hok. unfold time_out_if_late.
  destruct (heap s !! r0) as [task|] eqn:Hr0; [|done].
  destruct (startTime task) as [st|] eqn:Hst; [|done].
  destruct (_ && _) eqn:Hlate; [|done].
  assert (r <> r0) as Hne.
  { intros ->. rewrite Hr0 in Hx. injection Hx as <-.
    rewrite /overdue Hst in Hok. congruence. }
  change (heap (emit _ ?st) !! r) with (heap st !! r).
  apply handleTaskFailure_other; [done| |congruence].
  simpl. by rewrite list_lookup_alter_ne.
Qed.

(** X10: the tasks of the task map that are RUNNING after the timeout
    sweep at instant [now] are the tasks that were RUNNING and had
    started no more than [timeout] milliseconds before [now], each as it
    was; a task that started exactly [timeout] milliseconds before is not
    timed out. *)
Theorem checkTimeouts_leaves_running_the_tasks_within_their_time
    (now : Z) (taskId : string) (s : State) :
  (forall t,
     task_of taskId (checkTimeouts now s) = Some t -> status t = RUNNING ->
     task_of taskId s = Some t /\ overdue (timeout (config s)) now t = false) /\
  (forall t,
     task_of taskId s = Some t -> status t = RUNNING ->
     overdue (timeout (config s)) now t = false ->
     task_of taskId (checkTimeouts now s) = Some t) /\
  (forall t st,
     startTime t = Some st -> status t = RUNNING ->
     (overdue (timeout (config s)) now t = false <-> now - st <= timeout (config s))).
Proof.
  unfold checkTimeouts.
  assert (forall L st, tasks (fold_left (time_out_if_late now) L st) = tasks st) as Htasks.
  { intros L st. apply tasks_fold. intros. apply time_out_if_late_frame. }
  assert (forall L st, config (fold_left (time_out_if_late now) L st) = config st) as Hconfig.
  { intros L st. apply config_fold. intros. apply time_out_if_late_frame. }
  split; [|split].
  - intros t. rewrite /task_of Htasks.
    destruct (JsMap.get taskId (tasks s)) as [r|] eqn:Hget; [|done]. simpl.
    apply values_get in Hget. revert Hget.
    generalize (JsMap.values (tasks s)) as L. intros L. revert s.
    induction L as [|r0 L IH]; intros s Hin Hx Hrun; [set_solver|]. simpl in Hx.
    destruct (time_out_if_late_frame now s r0) as [Hc _].
    destruct (decide (r ∈ L)) as [HinL|HninL].
    + destruct (IH _ HinL Hx Hrun) as [Hx1 Hok]. rewrite Hc in Hok.
      by destruct (time_out_if_late_running_inv now s r0 r t Hx1 Hrun).
    + assert (r = r0) as -> by set_solver.
      assert (heap (time_out_if_late now s r0) !! r0 = Some t) as Hx1.
      { clear -Hx Hrun. revert Hx. generalize (time_out_if_late now s r0) as st.
        induction L as [|r1 L IH]; intros st Hx; [done|]. simpl in Hx.
        apply IH in Hx. by destruct (time_out_if_late_running_inv now st r1 r0 t Hx Hrun). }
      destruct (time_out_if_late_running_inv now s r0 r0 t Hx1 Hrun) as [? Hok].
      split; [done|]. by apply Hok.
  - intros t. rewrite /task_of Htasks.
    destruct (JsMap.get taskId (tasks s)) as [r|]; [|done]. simpl.
    generalize (JsMap.values (tasks s)) as L. intros L. revert s.
    induction L as [|r0 L IH]; intros s Hx Hrun Hok; [done|]. simpl.
    destruct (time_out_if_late_frame now s r0) as [Hc _].
    apply IH; [|done|by rewrite Hc]. by apply time_out_if_late_keeps.
  - intros t st Hst Hrun. rewrite /overdue Hst Hrun /=. rewrite Z.ltb_ge. done.
Qed.
Lemma checkTimeouts_witness :
  exists t,
    task_of "solo" (checkTimeouts 300010 Scenarios.solo_running) = Some t /\
    status t = RUNNING /\ startTime t = Some 10.
Proof.
  destruct (checkTimeouts_leaves_running_the_tasks_within_their_time
              300010 "solo" Scenarios.solo_running) as (_ & H & _).
  eexists. split; [eapply H; [vm_compute; reflexivity | reflexivity | reflexivity]|].
  split; reflexivity.
Defined.

(** *** Results of failed executions *)

Lemma cascade_fail_results s depId r :
  results <$> heap (cascade_fail s depId) !! r = results <$> heap s !! r.
Proof.
  unfold cascade_fail. destruct (JsMap.get _ _) as [d|]; [|done].
  destruct (heap s !! d) as [dependent|] eqn:Hd; [|done].
  destruct (TaskStatus_eqb _ _); [|done]. simpl.
  destruct (decide (d = r)) as [->|Hne].
  - rewrite list_lookup_alter_eq. by destruct (heap s !! r).
  - by rewrite list_lookup_alter_ne.
Qed.

Lemma handleTaskFailure_results r result now s r' :
  results <$> heap (handleTaskFailure r result now s) !! r' = results <$> heap s !! r'.
Proof.
  unfold handleTaskFailure. destruct (heap s !! r) as [task|] eqn:Hr; [|done].
  destruct (shouldRetry _ _).
  - destruct (retryPolicy _); [|done]. simpl.
    destruct (decide (r = r')) as [<-|Hne].
    + rewrite list_lookup_alter_eq. by destruct (heap s !! r).
    + by rewrite list_lookup_alter_ne.
  - change (heap s) with (heap (emit (TaskFailed (id task) (r_error result)) s)).
    generalize (emit (TaskFailed (id task) (r_error result)) s) as st.
    induction (dependents task) as [|d ds IH]; intros st; [done|].
    simpl. by rewrite IH cascade_fail_results.
Qed.

Lemma last_result_of (o : option TaskInstance) (l : list TaskResult) :
  results <$> o = Some l ->
  match o with Some t => last (results t) | None => None end = last l.
Proof. destruct o; [|done]. by intros [= ->]. Qed.

(** X11: when an execution ends otherwise than with COMPLETED, by a
    result of another status or by a rejected promise, [getTaskResult]
    answers with that failure from then on: the agent's result, or, for
    a rejection, a FAILED result that carries the error, the agent, the
    duration since the start and [attempts - 1] retries; this holds
    whether a retry was scheduled or not. *)
Theorem getTaskResult_after_a_failed_execution
    (r : ref) (agent : string) (o : Settlement) (now : Z) (s : State)
    (task : TaskInstance) :
  heap s !! r = Some task ->
  JsMap.get (id task) (tasks s) = Some r ->
  match o with
  | Resolved result => r_status result <> COMPLETED
  | Rejected _ => True
  end ->
  getTaskResult (id task) (executeTask_settle r agent o now s) =
    Some match o with
         | Resolved result => result
         | Rejected error =>
             mkTaskResult (id task) (Some agent) FAILED None (Some error)
               (Some (mkTaskMetrics (startTime task) now (duration_of task now)
                        (attempts task - 1)))
               now
         end.
Proof.
  intros Hr Hget Hfail. unfold getTaskResult, task_of, executeTask_settle.
  destruct o as [result|error].
  - destruct (TaskStatus_eqb (r_status result) COMPLETED) eqn:E.
    { by apply TaskStatus_eqb_eq in E. }
    match goal with |- context [handleTaskFailure ?a ?b ?c ?d] =>
      destruct (handleTaskFailure_frame a b c d) as (_ & -> & _);
      pose proof (handleTaskFailure_results a b c d r) as Hres end.
    simpl in Hres |- *. rewrite Hget /=.
    rewrite list_lookup_alter_eq Hr /= in Hres.
    rewrite (last_result_of _ _ Hres). by rewrite last_snoc.
  - rewrite Hr.
    match goal with |- context [handleTaskFailure ?a ?b ?c ?d] =>
      destruct (handleTaskFailure_frame a b c d) as (_ & -> & _);
      pose proof (handleTaskFailure_results a b c d r) as Hres end.
    simpl in Hres |- *. rewrite Hget /=.
    rewrite list_lookup_alter_eq Hr /= in Hres.
    rewrite (last_result_of _ _ Hres). by rewrite last_snoc.
Qed.

Lemma getTaskResult_after_failure_witness :
  getTaskResult "solo"
    (executeTask_settle 0%nat "w1" (Rejected "boom") 50 Scenarios.solo_running) =
  Some (mkTaskResult "solo" (Some "w1") FAILED None (Some "boom")
          (Some (mkTaskMetrics (Some 10) 50 40 0)) 50).
Proof.
  apply (getTaskResult_after_a_failed_execution 0%nat "w1" (Rejected "boom") 50
           Scenarios.solo_running
           (mkTaskInstance "solo" "solo" (Some PROCESS) (Some MEDIUM) RUNNING (Some "w1")
              1 [] [] [] (Some 10) None None)); done.
Defined.
(** *** Dependencies that are not in the task map *)

Lemma JsSet_has_elem x s : JsSet.has x s = true <-> x ∈ s.
Proof.
  unfold JsSet.has. induction s as [|y s IH]; simpl; [set_solver|].
  rewrite orb_true_iff IH String.eqb_eq. set_solver.
Qed.

Lemma JsSet_add_elem x y s : x ∈ JsSet.add y s <-> x = y \/ x ∈ s.
Proof.
  unfold JsSet.add. destruct (JsSet.has y s) eqn:E.
  - apply JsSet_has_elem in E. set_solver.
  - set_solver.
Qed.

Lemma JsSet_of_list_elem x l : x ∈ JsSet.of_list l <-> x ∈ l.
Proof.
  unfold JsSet.of_list.
  enough (forall acc, x ∈ fold_left (fun s y => JsSet.add y s) l acc <-> x ∈ acc \/ x ∈ l)
    as H by (rewrite H; set_solver).
  induction l as [|y l IH]; intros acc; simpl; [set_solver|].
  rewrite IH JsSet_add_elem. set_solver.
Qed.

Lemma forallb_elem_false {A} (f : A -> bool) (l : list A) x :
  x ∈ l -> f x = false -> forallb f l = false.
Proof.
  intros Hin Hf. induction l as [|y l IH]; [set_solver|]. simpl.
  apply elem_of_cons in Hin as [<-|Hin].
  - by rewrite Hf.
  - rewrite IH; [done|]. apply andb_false_r.
Qed.

(** X12: a task that names a dependency which is not in the task map
    (never submitted, or completed without dependents and forgotten) is
    accepted by [submitTask], announced as waiting and kept out of the
    ready queue; the dependency pass does not queue it either while the
    id is unknown. *)
Theorem submitTask_with_an_unknown_dependency_waits
    (task : Task) (uuid dep : string) (s : State) :
  dep ∈ t_dependencies task ->
  JsMap.get dep (tasks s) = None ->
  dep <> id (new_instance task uuid) ->
  queue_size (queue s) < maxQueueSize (config s) ->
  exists s',
    submitTask task uuid s = Ok s' /\
    queue s' = queue s /\
    last (events s') = Some (TaskWaiting (id (new_instance task uuid))) /\
    getTaskStatus (id (new_instance task uuid)) s' = PENDING /\
    canQueueTask s' (length (heap s)) = false /\
    queue_if_met s' (length (heap s)) = s'.
Proof.
  intros Hdep Hunknown Hne Hroom. unfold submitTask.
  assert ((queue_size (queue s) >=? maxQueueSize (config s)) = false) as ->
    by (rewrite Z.geb_leb; apply Z.leb_gt; lia).
  set (instance := new_instance task uuid) in *.
  set (r := length (heap s)).
  set (s2 := with_tasks _ (with_heap _ s)).
  assert (heap s2 !! r = Some instance) as Hr.
  { subst s2 r. simpl. by apply list_lookup_middle. }
  destruct (updateDependencyGraph_frame r s2) as (Hc & Ht & Hq & He & Hh).
  destruct (Hh r instance Hr) as [ds Hds].
  set (s3 := updateDependencyGraph r s2) in *.
  assert (forall e, canQueueTask (emit e s3) r = false) as Hcan.
  { intros e. rewrite /canQueueTask. change (heap (emit e s3)) with (heap s3).
    rewrite Hds. cbn [dependencies set_dependents].
    apply (forallb_elem_false _ _ dep).
    - rewrite /instance /new_instance /=. by apply JsSet_of_list_elem.
    - rewrite /dependency_completed. change (tasks (emit e s3)) with (tasks s3).
      rewrite Ht. subst s2. cbn [tasks with_tasks with_heap].
      by rewrite get_set_ne // Hunknown. }
  assert (canQueueTask s3 r = false) as ->.
  { rewrite -(Hcan (TaskWaiting "")). apply canQueueTask_frame; done. }
  eexists. split; [reflexivity|]. split_and!.
  - done.
  - by rewrite /emit /= last_snoc.
  - rewrite /getTaskStatus /task_of.
    change (tasks (emit (TaskWaiting (id instance)) s3)) with (tasks s3).
    rewrite Ht. subst s2. cbn [tasks with_tasks with_heap].
    rewrite get_set_eq.
    change (Some r ≫= (fun r0 => heap (emit (TaskWaiting (id instance)) s3) !! r0))
      with (heap s3 !! r).
    by rewrite Hds.
  - apply Hcan.
  - rewrite /queue_if_met. change (heap (emit (TaskWaiting (id instance)) s3)) with (heap s3).
    rewrite Hds Hcan. by rewrite andb_false_r.
Qed.

Lemma submitTask_unknown_dependency_witness :
  exists s',
    submitTask (Scenarios.task "report" HIGH ["solo"]) "0000" Scenarios.solo_completed = Ok s' /\
    queue s' = queue Scenarios.solo_completed /\
    last (events s') = Some (TaskWaiting "report") /\
    getTaskStatus "report" s' = PENDING /\
    canQueueTask s' 1%nat = false /\
    queue_if_met s' 1%nat = s'.
Proof.
  apply (submitTask_with_an_unknown_dependency_waits
           (Scenarios.task "report" HIGH ["solo"]) "0000" "solo" Scenarios.solo_completed).
  - apply list_elem_of_here.
  - reflexivity.
  - done.
  - reflexivity.
Defined.
End SchedulingFacts.

(** ** Metrics, reports and snapshots *)

Module ReportingFacts.
Import Orchestrator Reporting Counting OrchestratorFacts.

Lemma TaskStatus_eqb_refl st : TaskStatus_eqb st st = true.
Proof. by destruct st. Qed.

Lemma count_or_0_set st st' n m :
  count_or_0 st (count_set st' n m) =
    if TaskStatus_eqb st st' then n else count_or_0 st m.
Proof.
  unfold count_or_0. induction m as [|[st0 n0] m IH]; simpl.
  - by destruct (TaskStatus_eqb st st').
  - destruct (TaskStatus_eqb st' st0) eqn:E0; simpl.
    + apply TaskStatus_eqb_eq in E0 as <-. by destruct (TaskStatus_eqb st st').
    + destruct (TaskStatus_eqb st st0) eqn:E1; [|done].
      apply TaskStatus_eqb_eq in E1 as <-.
      destruct (TaskStatus_eqb st st') eqn:E2; [|done].
      apply TaskStatus_eqb_eq in E2 as <-. by rewrite TaskStatus_eqb_refl in E0.
Qed.

Lemma statusCounts_tally_task acc task :
  statusCounts (tally_task acc task) =
    count_set (status task) (count_or_0 (status task) (statusCounts acc) + 1)
      (statusCounts acc).
Proof.
  unfold tally_task. destruct (startTime task), (endTime task); try done.
  by destruct (TaskStatus_eqb _ _).
Qed.

Lemma number_with_cons st t l :
  number_with st (t :: l) =
    (if TaskStatus_eqb (status t) st then 1 else 0) + number_with st l.
Proof.
  rewrite /number_with /with_status filter_cons.
  case_decide as E; rewrite ?E /=; [lia|].
  destruct (TaskStatus_eqb (status t) st); [done|lia].
Qed.

Lemma TaskStatus_eqb_sym a b : TaskStatus_eqb a b = TaskStatus_eqb b a.
Proof. by destruct a, b. Qed.

(** What the loop of [getMetrics] has counted. *)
Lemma count_fold_tally st l acc :
  count_or_0 st (statusCounts (fold_left tally_task l acc)) =
    count_or_0 st (statusCounts acc) + number_with st l.
Proof.
  revert acc. induction l as [|t l IH]; intros acc; simpl.
  - rewrite /number_with /=. lia.
  - rewrite IH statusCounts_tally_task count_or_0_set number_with_cons.
    rewrite (TaskStatus_eqb_sym st).
    destruct (TaskStatus_eqb (status t) st) eqn:E; [|lia].
    apply TaskStatus_eqb_eq in E as ->. lia.
Qed.

Lemma number_with_all l :
  number_with PENDING l + number_with ASSIGNED l + number_with RUNNING l +
  number_with COMPLETED l + number_with FAILED l + number_with TIMEOUT l +
  number_with CANCELLED l = Z.of_nat (length l).
Proof.
  induction l as [|t l IH]; [done|].
  rewrite !number_with_cons /=. destruct (status t); simpl; lia.
Qed.

Lemma length_omap_le {A B} (f : A -> option B) (l : list A) :
  (length (omap f l) <= length l)%nat.
Proof. induction l as [|x l IH]; csimpl; [done|]. destruct (f x); csimpl; lia. Qed.

Lemma length_task_objects s : Z.of_nat (length (task_objects s)) <= JsMap.size (tasks s).
Proof.
  rewrite /task_objects /JsMap.size /JsMap.values.
  pose proof (length_omap_le (fun r => heap s !! r) (snd <$> tasks s)) as H.
  rewrite length_fmap in H. lia.
Qed.

Lemma metrics_count s st :
  count_or_0 st (statusCounts (fold_left tally_task (task_objects s) (mkTally [] 0 0))) =
    number_with st (task_objects s).
Proof. by rewrite count_fold_tally. Qed.

(** X13: [getMetrics] reports, for each of COMPLETED, FAILED, RUNNING,
    PENDING and TIMEOUT, the number of tasks of the task map with that
    status; these five numbers add up to the number of tasks less the
    ASSIGNED and the CANCELLED ones, which no field counts, and never
    exceed [total]; so the success rate that the coordinator derives lies
    between 0 and 100. *)
Theorem getMetrics_counts_the_tasks_by_status (s : State) :
  let m := getMetrics s in
  let objs := task_objects s in
  completed m = number_with COMPLETED objs /\
  failed m = number_with FAILED objs /\
  running_ m = number_with RUNNING objs /\
  pending m = number_with PENDING objs /\
  timedOutTasks m = number_with TIMEOUT objs /\
  completed m + failed m + running_ m + pending m + timedOutTasks m =
    Z.of_nat (length objs) - number_with ASSIGNED objs - number_with CANCELLED objs /\
  completed m + failed m + running_ m + pending m + timedOutTasks m <= total m /\
  (0 <= successRate m <= 100 # 1)%Q.
Proof.
  intros m objs.
  pose proof (metrics_count s) as Hcount. fold objs in Hcount.
  pose proof (number_with_all objs) as Hall.
  pose proof (length_task_objects s) as Hlen. fold objs in Hlen.
  assert (forall st, 0 <= number_with st objs) as Hpos by (intros; rewrite /number_with; lia).
  pose proof (Hpos PENDING). pose proof (Hpos ASSIGNED). pose proof (Hpos RUNNING).
  pose proof (Hpos COMPLETED). pose proof (Hpos FAILED). pose proof (Hpos TIMEOUT).
  pose proof (Hpos CANCELLED).
  assert (completed m = number_with COMPLETED objs) as Hc by apply Hcount.
  assert (total m = JsMap.size (tasks s)) as Ht by done.
  split_and!; try apply Hcount.
  - rewrite /m /getMetrics /= !Hcount. lia.
  - rewrite /m /getMetrics /= !Hcount. lia.
  - rewrite /successRate Hc Ht. destruct (0 <? JsMap.size (tasks s)) eqn:E; [|done].
    apply Z.ltb_lt in E. rewrite /Qle /=. nia.
  - rewrite /successRate Hc Ht. destruct (0 <? JsMap.size (tasks s)) eqn:E; [|done].
    apply Z.ltb_lt in E. rewrite /Qle /=. rewrite Pos.mul_1_r Z2Pos.id; [done|]. lia.
Qed.

Lemma length_with_status_split st (l : list TaskInstance) :
  (length (filter (fun t => negb (TaskStatus_eqb (status t) st) = true) l) +
   length (with_status st l) = length l)%nat.
Proof.
  unfold with_status. induction l as [|t l IH]; [done|].
  rewrite !filter_cons. destruct (TaskStatus_eqb (status t) st) eqn:E; simpl.
  - repeat case_decide; try done. simpl. lia.
  - repeat case_decide; try done. simpl. lia.
Qed.

(** X14: every task of the task map is either counted as pending by
    [getMetrics] or has a report in [getTaskReports]: the number of
    reports and the pending count add up to the number of tasks, and no
    report has status PENDING. *)
Theorem getTaskReports_covers_the_tasks_that_left_pending (s : State) :
  Z.of_nat (length (getTaskReports s)) + pending (getMetrics s) =
    Z.of_nat (length (task_objects s)) /\
  Forall (fun report => rp_status report <> PENDING) (getTaskReports s).
Proof.
  split.
  - rewrite /getMetrics /= metrics_count /getTaskReports length_fmap /number_with.
    pose proof (length_with_status_split PENDING (task_objects s)). lia.
  - rewrite /getTaskReports. apply Forall_fmap, Forall_forall.
    intros t [Hst _]%list_elem_of_filter. simpl. intros Heq.
    rewrite Heq in Hst. done.
Qed.

(** *** [serialize] and [restore] *)

Lemma restore_item_tasks st item :
  tasks (restore_item st item) = JsMap.set (fst item) (length (heap st)) (tasks st).
Proof.
  unfold restore_item.
  match goal with |- tasks (updateDependencyGraph ?r ?s3) = _ =>
    destruct (updateDependencyGraph_frame r s3) as (_ & -> & _) end.
  by destruct (TaskStatus_eqb _ _).
Qed.

Lemma restore_item_queue st item :
  queue (restore_item st item) =
    if TaskStatus_eqb (status (snd item)) PENDING
    then queue_add (heap st ++ [set_dependents (JsSet.of_list (dependents (snd item)))
                                  (set_dependencies (JsSet.of_list (dependencies (snd item)))
                                     (snd item))])
           (length (heap st)) (queue st)
    else queue st.
Proof.
  unfold restore_item.
  match goal with |- queue (updateDependencyGraph ?r ?s3) = _ =>
    destruct (updateDependencyGraph_frame r s3) as (_ & _ & -> & _) end.
  simpl. by destruct (TaskStatus_eqb _ _).
Qed.

(** The objects that were in the heap stay, up to their [dependents];
    the new object sits behind the next reference. *)
Lemma restore_item_heap st item :
  (forall r x, heap st !! r = Some x ->
     status <$> heap (restore_item st item) !! r = Some (status x) /\
     results <$> heap (restore_item st item) !! r = Some (results x)) /\
  status <$> heap (restore_item st item) !! length (heap st) = Some (status (snd item)) /\
  results <$> heap (restore_item st item) !! length (heap st) = Some (results (snd item)).
Proof.
  unfold restore_item.
  set (task := set_dependents _ _).
  set (s3 := if TaskStatus_eqb _ _ then _ else _).
  assert (heap s3 = heap st ++ [task]) as Hh3.
  { subst s3. by destruct (TaskStatus_eqb _ _). }
  destruct (updateDependencyGraph_frame (length (heap st)) s3) as (_ & _ & _ & _ & Hh).
  split.
  - intros r x Hr. destruct (Hh r x) as [ds Hds].
    { rewrite Hh3. by apply lookup_app_l_Some. }
    by rewrite Hds.
  - destruct (Hh (length (heap st)) task) as [ds Hds].
    { rewrite Hh3. by apply list_lookup_middle. }
    by rewrite Hds.
Qed.

Lemma restore_fold_view (items : list (string * TaskInstance)) (st : State)
    (taskId : string) :
  (forall k r, JsMap.get k (tasks st) = Some r -> is_Some (heap st !! r)) ->
  NoDup (JsMap.keys items) ->
  (fun t => (status t, results t)) <$> task_of taskId (fold_left restore_item items st) =
    match JsMap.get taskId items with
    | Some t => Some (status t, results t)
    | None => (fun t => (status t, results t)) <$> task_of taskId st
    end.
Proof.
  revert st. induction items as [|[k t] items IH]; intros st Hvalid Hnd; [done|].
  simpl. apply NoDup_cons in Hnd as [Hk Hnd]. simpl in Hk.
  apply get_None_keys in Hk.
  destruct (restore_item_heap st (k, t)) as (Hold & Hnew1 & Hnew2).
  pose proof (restore_item_tasks st (k, t)) as Ht. simpl in Ht, Hnew1, Hnew2.
  assert (forall k' r', JsMap.get k' (tasks (restore_item st (k, t))) = Some r' ->
            is_Some (heap (restore_item st (k, t)) !! r')) as Hvalid'.
  { intros k' r'. rewrite Ht.
    destruct (decide (k' = k)) as [->|Hne].
    - rewrite get_set_eq. intros [= <-].
      by destruct (heap (restore_item st (k, t)) !! length (heap st)).
    - rewrite get_set_ne //. intros Hget.
      destruct (Hvalid _ _ Hget) as [x Hx]. destruct (Hold r' x Hx) as [Hx1 _].
      by destruct (heap (restore_item st (k, t)) !! r'). }
  rewrite (IH _ Hvalid' Hnd).
  destruct (String.eqb taskId k) eqn:E.
  - apply String.eqb_eq in E as ->.
    rewrite Hk.
    rewrite /task_of Ht get_set_eq /=.
    destruct (heap (restore_item st (k, t)) !! length (heap st)) as [x|]; [|done].
    simpl in *. congruence.
  - apply String.eqb_neq in E.
    destruct (JsMap.get taskId items); [done|].
    rewrite /task_of Ht get_set_ne //.
    destruct (JsMap.get taskId (tasks st)) as [r|] eqn:Hget; [|done]. simpl.
    destruct (Hvalid _ _ Hget) as [x Hx]. destruct (Hold r x Hx) as [Hx1 Hx2].
    rewrite Hx. destruct (heap (restore_item st (k, t)) !! r) as [x'|]; [|done].
    simpl in *. congruence.
Qed.

Lemma keys_snapshot_sub (h : Heap) (m : list (string * ref)) k :
  k ∈ JsMap.keys (omap (fun kr => (fun t => (fst kr, t)) <$> h !! snd kr) m) ->
  k ∈ JsMap.keys m.
Proof.
  induction m as [|[k0 r0] m IH]; csimpl; [done|].
  destruct (h !! r0); csimpl; set_solver.
Qed.

Lemma snapshot_get (h : Heap) (m : list (string * ref)) taskId :
  NoDup (JsMap.keys m) ->
  NoDup (JsMap.keys (omap (fun kr => (fun t => (fst kr, t)) <$> h !! snd kr) m)) /\
  JsMap.get taskId (omap (fun kr => (fun t => (fst kr, t)) <$> h !! snd kr) m) =
    JsMap.get taskId m ≫= (fun r => h !! r).
Proof.
  induction m as [|[k0 r0] m IH]; csimpl; [done|].
  intros [Hk Hnd]%NoDup_cons. destruct (IH Hnd) as [IH1 IH2].
  destruct (h !! r0) as [t|] eqn:Hr0; csimpl.
  - split.
    + apply NoDup_cons. split; [|done]. intros Hin. by apply keys_snapshot_sub in Hin.
    + destruct (String.eqb taskId k0); [by rewrite /= Hr0|done].
  - split; [done|]. destruct (String.eqb taskId k0) eqn:E; [|done].
    apply String.eqb_eq in E as ->. rewrite /= Hr0.
    apply get_None_keys. intros Hin. by apply keys_snapshot_sub in Hin.
Qed.

(** X15: an orchestrator that is restored from a snapshot answers
    [getTaskStatus] and [getTaskResult] for every id as the orchestrator
    that was serialized did, whatever it held before the restoration. *)
Theorem restore_of_a_snapshot_answers_as_the_original
    (now : Z) (s s0 : State) (taskId : string) :
  NoDup (JsMap.keys (tasks s)) ->
  getTaskStatus taskId (restore (serialize now s) s0) = getTaskStatus taskId s /\
  getTaskResult taskId (restore (serialize now s) s0) = getTaskResult taskId s.
Proof.
  intros Hnd. destruct (snapshot_get (heap s) (tasks s) taskId Hnd) as [Hnd' Hget].
  pose proof (restore_fold_view (sn_tasks (serialize now s))
                (with_dependencyGraph [] (with_queue (queue_clear (queue s0))
                   (with_tasks [] s0))) taskId) as Hview.
  rewrite /serialize /= in Hview. rewrite Hget in Hview.
  specialize (Hview ltac:(done) Hnd').
  rewrite /getTaskStatus /getTaskResult /restore /serialize /=.
  change (JsMap.get taskId (tasks s) ≫= (fun r => heap s !! r)) with (task_of taskId s)
    in Hview.
  destruct (task_of taskId s) as [t|], (task_of taskId (fold_left _ _ _)) as [t'|];
    simpl in Hview; try done. by injection Hview as -> ->.
Qed.

Lemma queue_size_add hp r t q :
  hp !! r = Some t ->
  queue_size (queue_add hp r q) = queue_size q + (if has_tier q t then 1 else 0).
Proof.
  intros Hr. destruct q as [c h m l|l]; simpl.
  - rewrite Hr /=. destruct (priority t) as [[]|]; simpl; rewrite ?length_app /=; lia.
  - rewrite length_app /=. lia.
Qed.

Lemma has_tier_add hp r q t : has_tier (queue_add hp r q) t = has_tier q t.
Proof.
  destruct q as [c h m l|l]; simpl; [|done].
  by destruct (hp !! r ≫= priority) as [[]|].
Qed.

(** X16: [restore] empties the ready queue and then queues every task
    of the snapshot that is PENDING and has an array in the queue,
    without a look at its dependencies or at a retry time: a task that
    was waiting when the snapshot was taken is ready to be assigned after
    the restoration. *)
Theorem restore_queues_every_pending_task (data : Snapshot) (s : State) :
  queue_size (queue (restore data s)) =
    Z.of_nat (length (filter
      (fun item => TaskStatus_eqb (status (snd item)) PENDING
                   && has_tier (queue s) (snd item) = true)
      (sn_tasks data))).
Proof.
  unfold restore.
  set (st0 := with_dependencyGraph _ _).
  assert (queue_size (queue st0) = 0) as Hzero by (subst st0; by destruct (queue s)).
  assert (forall t, has_tier (queue st0) t = has_tier (queue s) t) as Hkind
    by (intros t; subst st0; by destruct (queue s)).
  enough (forall items st,
            (forall t, has_tier (queue st) t = has_tier (queue s) t) ->
            queue_size (queue (fold_left restore_item items st)) =
              queue_size (queue st) +
              Z.of_nat (length (filter
                (fun item => TaskStatus_eqb (status (snd item)) PENDING
                             && has_tier (queue s) (snd item) = true) items))) as H.
  { rewrite H; [done|]. lia. }
  clear. induction items as [|[k t] items IH]; intros st Hkind; [simpl; lia|].
  cbn [fold_left]. rewrite IH.
  - intros t'. rewrite restore_item_queue -Hkind.
    destruct (TaskStatus_eqb _ _); [|done]. by rewrite has_tier_add.
  - rewrite restore_item_queue filter_cons. cbn [snd].
    destruct (TaskStatus_eqb (status t) PENDING) eqn:E.
    + erewrite queue_size_add; [|by apply list_lookup_middle].
      replace (has_tier (queue st) _) with (has_tier (queue s) t)
        by (rewrite -Hkind; by destruct (queue st)).
      case_decide as Hd; simpl in Hd; rewrite ?Hd /=; [lia|].
      destruct (has_tier (queue s) t); [done|lia].
    + case_decide as Hd; [done|]. lia.
Qed.

Lemma restore_of_a_snapshot_witness :
  let restored := restore (serialize 50 Scenarios.chain_two_completed)
                    (new (Scenarios.config_with Scenarios.first_available 0 EXPONENTIAL)) in
  getTaskStatus "B" restored = getTaskStatus "B" Scenarios.chain_two_completed /\
  getTaskResult "B" restored = getTaskResult "B" Scenarios.chain_two_completed.
Proof.
  apply (restore_of_a_snapshot_answers_as_the_original 50 Scenarios.chain_two_completed
           (new (Scenarios.config_with Scenarios.first_available 0 EXPONENTIAL)) "B").
  apply (bool_decide_unpack _). vm_compute. exact I.
Defined.
End ReportingFacts.

(** ** Knowledge over time *)

Module KnowledgeFacts.
Import HiveMind HiveWellformed HiveQueries HiveMindFacts.

Lemma enforceMemoryLimits_within_limit s :
  JsMap.size (knowledge s) <= maxMemorySize s -> enforceMemoryLimits s = s.
Proof.
  intros H. unfold enforceMemoryLimits. apply Z.leb_le in H. by rewrite H.
Qed.

(** The time to live that [retrieve] checks, read on the arguments of
    the [share] that stored the entry. *)
Lemma expired_fresh u k v agent now ttl_ conf vs later :
  expired later (mkEntry u k v agent now ttl_ conf vs) =
    match ttl_ with
    | Some t => negb (t =? 0) && (t <? later - now)
    | None => false
    end.
Proof. done. Qed.

(** X17: a value that is shared under a key which the hive does not
    hold yet, while the memory is not full, is what [retrieve] answers for
    that key as long as the time to live has not run out; a time to live
    of zero, like none at all, never runs out; once it has, [retrieve]
    answers [null] and the entry is gone. *)
Theorem retrieve_after_the_first_share_of_a_key
    (agent k : string) (v : Value) (conf : Num) (ttl_ : option Z) (now later : Z)
    (s : State) :
  JsMap.get k (knowledge s) = None ->
  JsMap.size (knowledge s) < maxMemorySize s ->
  let s' := share agent k v conf ttl_ now s in
  let run_out := match ttl_ with
                 | Some t => negb (t =? 0) && (t <? later - now)
                 | None => false
                 end in
  fst (retrieve k later s') = (if run_out then None else Some v) /\
  JsMap.get k (knowledge (snd (retrieve k later s'))) =
    (if run_out then None else JsMap.get k (knowledge s')).
Proof.
  intros Hnew Hroom s' run_out.
  destruct (store_knowledge agent k v conf ttl_ now s) as (e & Hstore & He).
  rewrite Hnew in He.
  assert (knowledge s' = JsMap.set k e (knowledge s)) as Hk.
  { subst s'. rewrite knowledge_share enforceMemoryLimits_within_limit //.
    destruct (store_frame agent k v conf ttl_ now s) as (_ & _ & -> & _).
    rewrite Hstore (size_set_absent k e (knowledge s) (proj1 (get_None_keys _ _) Hnew)).
    lia. }
  unfold retrieve. rewrite Hk get_set_eq.
  assert (expired later e = run_out) as -> by (by subst e).
  destruct run_out; simpl.
  - split; [done|]. apply get_delete_eq.
  - split; [by subst e|]. by rewrite Hk get_set_eq.
Qed.

Lemma retrieve_after_share_witness :
  fst (retrieve "k1" 100
         (share "w1" "k1" (Opaque "v1") (Fin (9 # 10)) (Some 50) 1
            HiveScenarios.three_slots)) = None /\
  JsMap.get "k1" (knowledge (snd (retrieve "k1" 100
         (share "w1" "k1" (Opaque "v1") (Fin (9 # 10)) (Some 50) 1
            HiveScenarios.three_slots)))) = None.
Proof.
  apply (retrieve_after_the_first_share_of_a_key "w1" "k1" (Opaque "v1") (Fin (9 # 10))
           (Some 50) 1 100 HiveScenarios.three_slots); reflexivity.
Defined.

(** X18: a [share] onto a key that the hive already holds keeps the
    stored entry's id, author and time to live; the value and the
    timestamp are replaced by the new ones only when the confidence
    that the caller passed is above the recomputed [|votes| / |agents|],
    so a key that is affirmed does not live longer for it. *)
Theorem share_onto_a_stored_key_keeps_its_origin
    (agent k : string) (v : Value) (conf : Num) (ttl_ : option Z) (now : Z)
    (s : State) (existing : KnowledgeEntry) :
  JsMap.get k (knowledge s) = Some existing ->
  JsMap.size (knowledge s) <= maxMemorySize s ->
  exists e',
    JsMap.get k (knowledge (share agent k v conf ttl_ now s)) = Some e' /\
    e_id e' = e_id existing /\ agentId e' = agentId existing /\
    ttl e' = ttl existing /\
    (value e', timestamp e') =
      (if gt conf (confidence e') then (v, now)
       else (value existing, timestamp existing)).
Proof.
  intros Hget Hroom.
  set (e2 := set_confidence
               (div_sizes (JsMap.size (JsMap.set agent true (votes existing)))
                  (JsSet.size (agents s)))
               (set_votes (JsMap.set agent true (votes existing)) existing)).
  set (e3 := if gt conf (confidence e2) then set_value_timestamp v now e2 else e2).
  assert (knowledge (store agent k v conf ttl_ now s) = JsMap.set k e3 (knowledge s)) as Hstore.
  { rewrite /store /= Hget /mergeKnowledge /=. done. }
  assert (knowledge (share agent k v conf ttl_ now s) = JsMap.set k e3 (knowledge s)) as Hk.
  { rewrite knowledge_share enforceMemoryLimits_within_limit //.
    destruct (store_frame agent k v conf ttl_ now s) as (_ & _ & -> & _).
    rewrite Hstore size_set_present; [|done].
    apply dec_stable. intros Hnin. apply get_None_keys in Hnin. congruence. }
  exists e3. rewrite Hk get_set_eq. split; [done|].
  subst e3. destruct (gt conf (confidence e2)) eqn:E; simpl; by rewrite ?E.
Qed.

Lemma share_onto_a_stored_key_witness :
  exists e',
    JsMap.get "fact" (knowledge (share "w2" "fact" (Opaque "v2") (Fin (9 # 10)) None 2
                                   HiveScenarios.first_share)) = Some e' /\
    e_id e' = "id" /\ agentId e' = "w1" /\ ttl e' = None /\
    (value e', timestamp e') =
      (if gt (Fin (9 # 10)) (confidence e') then (Opaque "v2", 2) else (Opaque "v", 1)).
Proof.
  apply (share_onto_a_stored_key_keeps_its_origin "w2" "fact" (Opaque "v2")
           (Fin (9 # 10)) None 2 HiveScenarios.first_share
           (mkEntry "id" "fact" (Opaque "v") "w1" 1 None (Fin (9 # 10)) [("w1", true)]));
    [reflexivity | done].
Defined.

(** *** Expiry *)

Lemma get_fold_delete_keys {V} (ks : list string) (m : list (string * V)) k :
  JsMap.get k (fold_left (fun m' k' => JsMap.delete k' m') ks m) =
  match decide (k ∈ ks) with
  | left _ => None
  | right _ => JsMap.get k m
  end.
Proof.
  revert m. induction ks as [|k' ks IH]; intros m; simpl.
  - by destruct (decide (k ∈ [])) as [Hin|]; [set_solver|].
  - rewrite IH.
    destruct (decide (k ∈ ks)) as [Hin|Hin];
      destruct (decide (k ∈ k' :: ks)) as [Hin'|Hin']; try done.
    + set_solver.
    + apply elem_of_cons in Hin' as [->|?]; [|done]. apply get_delete_eq.
    + apply get_delete_ne. intros ->. set_solver.
Qed.

Lemma knowledge_cleanExpiredKnowledge now s :
  knowledge (cleanExpiredKnowledge now s) =
    fold_left (fun m k => JsMap.delete k m)
      (JsMap.keys (filter (fun ke => expired now (snd ke) = true) (knowledge s)))
      (knowledge s).
Proof. unfold cleanExpiredKnowledge. by destruct (0 <? _). Qed.

(** X19: after [cleanExpiredKnowledge] at instant [now] the hive holds
    exactly the entries whose time to live had not run out at [now], each
    as it was: for every key [retrieve] answers after the cleaning what
    it would have answered before. *)
Theorem cleanExpiredKnowledge_removes_what_retrieve_would_refuse
    (now : Z) (k : string) (s : State) :
  NoDup (JsMap.keys (knowledge s)) ->
  JsMap.get k (knowledge (cleanExpiredKnowledge now s)) =
    match JsMap.get k (knowledge s) with
    | Some e => if expired now e then None else Some e
    | None => None
    end /\
  fst (retrieve k now (cleanExpiredKnowledge now s)) = fst (retrieve k now s).
Proof.
  intros Hnd.
  assert (JsMap.get k (knowledge (cleanExpiredKnowledge now s)) =
          match JsMap.get k (knowledge s) with
          | Some e => if expired now e then None else Some e
          | None => None
          end) as Hget.
  { rewrite knowledge_cleanExpiredKnowledge get_fold_delete_keys.
    destruct (decide _) as [Hin|Hnin].
    - apply list_elem_of_fmap in Hin as ([k' e] & -> & [He Hin]%list_elem_of_filter).
      simpl in *. by rewrite (elem_get_NoDup _ _ _ Hnd Hin) He.
    - destruct (JsMap.get k (knowledge s)) as [e|] eqn:E; [|done].
      destruct (expired now e) eqn:He; [|done].
      destruct Hnin. apply list_elem_of_fmap. exists (k, e). split; [done|].
      apply list_elem_of_filter. split; [done|]. by apply get_Some_elem. }
  split; [done|]. unfold retrieve. rewrite Hget.
  destruct (JsMap.get k (knowledge s)) as [e|]; [|done].
  destruct (expired now e) eqn:He; [done|]. by rewrite He.
Qed.

Lemma cleanExpiredKnowledge_witness :
  JsMap.get "k1" (knowledge (cleanExpiredKnowledge 100 HiveRuns.aging)) =
    match JsMap.get "k1" (knowledge HiveRuns.aging) with
    | Some e => if expired 100 e then None else Some e
    | None => None
    end /\
  fst (retrieve "k1" 100 (cleanExpiredKnowledge 100 HiveRuns.aging)) =
    fst (retrieve "k1" 100 HiveRuns.aging).
Proof.
  apply (cleanExpiredKnowledge_removes_what_retrieve_would_refuse 100 "k1" HiveRuns.aging).
  apply (bool_decide_unpack _). vm_compute. exact I.
Defined.

(** *** Requests past their deadline *)

Lemma outcome_frame s s' request :
  agents s' = agents s -> consensusThreshold s' = consensusThreshold s ->
  outcome s' request = outcome s request.
Proof. intros Ha Ht. by rewrite /outcome Ha Ht. Qed.

Lemma finalize_if_overdue_frame now s i :
  agents (finalize_if_overdue now s i) = agents s /\
  consensusThreshold (finalize_if_overdue now s i) = consensusThreshold s.
Proof.
  unfold finalize_if_overdue. destruct (JsMap.get i (consensusRequests s)); [|done].
  destruct (_ && _); [|done]. apply finalizeConsensus_frame.
Qed.

(** One iteration of the loop of [processPendingConsensus], read on the
    request map. *)
Lemma finalize_if_overdue_get now s i requestId :
  JsMap.get requestId (consensusRequests (finalize_if_overdue now s i)) =
    match decide (requestId = i) with
    | left _ =>
        (fun request =>
           if is_pending (c_status request) && (deadline request <? now)
           then set_c_status (outcome s request) request else request)
          <$> JsMap.get requestId (consensusRequests s)
    | right _ => JsMap.get requestId (consensusRequests s)
    end.
Proof.
  unfold finalize_if_overdue.
  destruct (JsMap.get i (consensusRequests s)) as [request|] eqn:Hget.
  - destruct (is_pending (c_status request)) eqn:Hp; simpl.
    + destruct (deadline request <? now) eqn:Hd; simpl.
      * apply is_pending_true in Hp.
        rewrite (finalizeConsensus_pending i now s request) //.
        destruct (decide (requestId = i)) as [->|Hne].
        -- by rewrite get_set_eq Hget /= Hp Hd.
        -- by rewrite get_set_ne.
      * destruct (decide (requestId = i)) as [->|Hne]; [|done].
        by rewrite Hget /= Hp Hd.
    + destruct (decide (requestId = i)) as [->|Hne]; [|done].
      by rewrite Hget /= Hp.
  - destruct (decide (requestId = i)) as [->|Hne]; [|done]. by rewrite Hget.
Qed.

(** X20: after [processPendingConsensus] at instant [now] every request
    that was PENDING with a deadline before [now] is finalized, with the
    outcome that the votes cast so far give, and every other request is as
    it was; so no request is left PENDING past its deadline. *)
Theorem processPendingConsensus_finalizes_the_overdue_requests
    (now : Z) (requestId : string) (s : State) :
  JsMap.get requestId (consensusRequests (processPendingConsensus now s)) =
    (fun request =>
       if is_pending (c_status request) && (deadline request <? now)
       then set_c_status (outcome s request) request else request)
      <$> JsMap.get requestId (consensusRequests s) /\
  forall request,
    JsMap.get requestId (consensusRequests (processPendingConsensus now s)) = Some request ->
    c_status request = PENDING -> now <= deadline request.
Proof.
  set (g := fun st request =>
              if is_pending (c_status request) && (deadline request <? now)
              then set_c_status (outcome st request) request else request).
  assert (forall ids st,
            agents st = agents s -> consensusThreshold st = consensusThreshold s ->
            JsMap.get requestId
              (consensusRequests (fold_left (finalize_if_overdue now) ids st)) =
              match decide (requestId ∈ ids) with
              | left _ => g s <$> JsMap.get requestId (consensusRequests st)
              | right _ => JsMap.get requestId (consensusRequests st)
              end) as Hfold.
  { induction ids as [|i ids IH]; intros st Ha Ht; simpl.
    - by destruct (decide (requestId ∈ [])) as [Hin|]; [set_solver|].
    - destruct (finalize_if_overdue_frame now st i) as [Ha' Ht'].
      rewrite IH; [congruence..|]. rewrite finalize_if_overdue_get.
      assert (forall request, outcome st request = outcome s request) as Hout
        by (intros; by apply outcome_frame).
      destruct (decide (requestId ∈ ids)) as [Hin|Hnin],
        (decide (requestId = i)) as [->|Hne],
        (decide (_ ∈ _ :: ids)) as [Hin'|Hnin']; try done; try set_solver.
      + destruct (JsMap.get i (consensusRequests st)) as [request|]; [|done]. simpl.
        f_equal. rewrite /g Hout.
        destruct (is_pending (c_status request) && (deadline request <? now)) eqn:E;
          [|by rewrite E].
        simpl. destruct (outcome s request) eqn:Eo; try done.
        by destruct (outcome_not_pending s request).
      + destruct (JsMap.get i (consensusRequests st)) as [request|]; [|done]. simpl.
        by rewrite /g Hout. }
  assert (JsMap.get requestId (consensusRequests (processPendingConsensus now s)) =
          g s <$> JsMap.get requestId (consensusRequests s)) as Hget.
  { rewrite /processPendingConsensus Hfold //.
    destruct (decide _) as [|Hnin]; [done|].
    apply get_None_keys in Hnin. by rewrite Hnin. }
  split; [exact Hget|].
  intros request. rewrite Hget.
  destruct (JsMap.get requestId (consensusRequests s)) as [r0|]; [|done]. simpl.
  rewrite /g. destruct (is_pending (c_status r0)) eqn:Hp; simpl.
  - destruct (deadline r0 <? now) eqn:Hd.
    + intros [= <-]. simpl. intros Ho. by destruct (outcome_not_pending s r0).
    + intros [= <-] _. by apply Z.ltb_ge in Hd.
  - intros [= <-] Hst. apply is_pending_true in Hst. congruence.
Qed.

Lemma processPendingConsensus_witness :
  exists request,
    JsMap.get "iid" (consensusRequests (processPendingConsensus 2000 HiveRuns.two_requests))
      = Some request /\
    c_status request = PENDING /\ 2000 <= deadline request.
Proof.
  destruct (processPendingConsensus_finalizes_the_overdue_requests 2000 "iid"
              HiveRuns.two_requests) as [_ H].
  eexists. split; [vm_compute; reflexivity|]. split; [reflexivity|].
  eapply H; [vm_compute; reflexivity | reflexivity].
Defined.

(** *** Agents that leave the hive *)

Lemma keys_map_values {V W} (f : V -> W) (m : list (string * V)) :
  JsMap.keys (map (fun kv => (fst kv, f (snd kv))) m) = JsMap.keys m.
Proof. rewrite /JsMap.keys. induction m as [|[k v] m IH]; csimpl; [done|]. by rewrite IH. Qed.

(** X21: [unregisterAgent] removes no entry, not even one that the
    agent wrote; it withdraws the agent's vote from every entry, and
    recomputes no confidence when the agent was the last one: the
    division by the number of agents is guarded. *)
Theorem unregisterAgent_withdraws_the_votes_of_the_agent
    (agent k : string) (s : State) :
  let s' := unregisterAgent agent s in
  JsMap.keys (knowledge s') = JsMap.keys (knowledge s) /\
  (forall e', JsMap.get k (knowledge s') = Some e' ->
     JsMap.get agent (votes e') = None /\
     exists e, JsMap.get k (knowledge s) = Some e /\
       value e' = value e /\ agentId e' = agentId e /\
       (JsSet.size (agents s') = 0 -> confidence e' = confidence e)).
Proof.
  intros s'. subst s'. unfold unregisterAgent, cleanupAgentData. simpl. split.
  - apply keys_map_values.
  - intros e'. rewrite get_map_values.
    destruct (JsMap.get k (knowledge s)) as [e|]; [|done]. simpl. intros [= <-].
    unfold forget_agent. split.
    + destruct (0 <? _); simpl; apply get_delete_eq.
    + exists e. split; [done|].
      destruct (0 <? JsSet.size (JsSet.delete agent (agents s))) eqn:E; simpl;
        split_and!; try done.
      intros Hz. rewrite Hz in E. done.
Qed.

Lemma unregisterAgent_witness :
  exists e',
    JsMap.get "fact" (knowledge HiveScenarios.second_left) = Some e' /\
    JsMap.get "w2" (votes e') = None /\ agentId e' = "w1".
Proof.
  destruct (unregisterAgent_withdraws_the_votes_of_the_agent "w2" "fact"
              HiveScenarios.third_joined) as [_ H].
  eexists. split; [vm_compute; reflexivity|].
  edestruct H as (Hvote & e & Hget & _ & Hauthor & _); [vm_compute; reflexivity|].
  split; [exact Hvote|]. reflexivity.
Defined.

(** *** Patterns *)

Lemma before_colon_spec k p :
  before_colon k = Some p -> exists rest, k = p +:+ ":" +:+ rest.
Proof.
  revert p. induction k as [|c k IH]; intros p; [done|]. simpl.
  destruct (Ascii.eqb c ":") eqn:E.
  - apply Ascii.eqb_eq in E as ->. intros [= <-]. by exists k.
  - destruct (before_colon k) as [pre|]; [|done]. intros [= <-].
    destruct (IH pre eq_refl) as [rest ->]. by exists rest.
Qed.

Lemma patterns_store agent k v conf ttl_ now s :
  patterns (store agent k v conf ttl_ now s) = patterns s.
Proof. unfold store. simpl. by destruct (JsMap.get k (knowledge s)). Qed.

Lemma patterns_enforceMemoryLimits s : patterns (enforceMemoryLimits s) = patterns s.
Proof. unfold enforceMemoryLimits. destruct (_ <=? _); [done|]. by destruct (0 <? _). Qed.

(** X22: a [share] under a key with a colon counts one more occurrence
    of the pattern named by the part of the key before the first colon,
    creating the pattern at its first occurrence, and files the value in
    the pattern's data under the key; the contributors of the pattern and
    every other pattern are as they were. A [share] under a key without a
    colon changes no pattern. *)
Theorem share_counts_an_occurrence_of_the_key_prefix
    (agent k : string) (v : Value) (conf : Num) (ttl_ : option Z) (now : Z)
    (s : State) :
  let s' := share agent k v conf ttl_ now s in
  match before_colon k with
  | None => patterns s' = patterns s
  | Some p =>
      (exists rest, k = p +:+ ":" +:+ rest) /\
      (exists pat,
         JsMap.get p (patterns s') = Some pat /\
         p_name pat = match JsMap.get p (patterns s) with
                      | Some q => p_name q
                      | None => p
                      end /\
         occurrences pat = match JsMap.get p (patterns s) with
                           | Some q => occurrences q + 1
                           | None => 1
                           end /\
         p_agents pat = match JsMap.get p (patterns s) with
                        | Some q => p_agents q
                        | None => []
                        end /\
         lastSeen pat = now /\
         JsMap.get k (data pat) = Some v) /\
      (forall p', p' <> p -> JsMap.get p' (patterns s') = JsMap.get p' (patterns s))
  end.
Proof.
  intros s'. subst s'. unfold share.
  set (st := enforceMemoryLimits (store agent k v conf ttl_ now s)).
  assert (patterns st = patterns s) as Hp
    by (subst st; by rewrite patterns_enforceMemoryLimits patterns_store).
  unfold detectPatterns. destruct (before_colon k) as [p|] eqn:Hk; [|done].
  split; [by apply before_colon_spec|].
  rewrite Hp. destruct (JsMap.get p (patterns s)) as [q|] eqn:Hq; simpl.
  - rewrite Hp. split.
    + eexists. rewrite get_set_eq. split; [reflexivity|]. simpl.
      split_and!; try done. apply get_set_eq.
    + intros p' Hne. by rewrite get_set_ne.
  - rewrite Hp. split.
    + eexists. rewrite get_set_eq. split; [reflexivity|]. simpl.
      split_and!; try done. by rewrite String.eqb_refl.
    + intros p' Hne. by rewrite get_set_ne.
Qed.

Lemma share_counts_an_occurrence_witness :
  exists pat,
    JsMap.get "solution"
      (patterns (share "w1" "solution:x" (Opaque "fix") (Fin 1) None 7
                   HiveScenarios.three_slots)) = Some pat /\
    occurrences pat = 1 /\ p_agents pat = [].
Proof.
  pose proof (share_counts_an_occurrence_of_the_key_prefix "w1" "solution:x"
                (Opaque "fix") (Fin 1) None 7 HiveScenarios.three_slots) as H.
  change (before_colon "solution:x") with (Some "solution") in H.
  destruct H as (_ & (pat & Hget & _ & Hocc & Hag & _) & _).
  exists pat. split; [exact Hget|]. split; [exact Hocc|exact Hag].
Defined.

(** *** [search] *)

Lemma search_fold (test : string -> bool) (now : Z) (k : string)
    (l : list (string * KnowledgeEntry)) (res : list (string * Value)) (st : State) :
  NoDup (JsMap.keys l) ->
  JsMap.get k (fst (fold_left (search_entry test now) l (res, st))) =
    match JsMap.get k l with
    | Some e => if test k && negb (expired now e) then Some (value e) else JsMap.get k res
    | None => JsMap.get k res
    end /\
  knowledge (snd (fold_left (search_entry test now) l (res, st))) =
    fold_left (fun m k' => JsMap.delete k' m)
      (JsMap.keys (filter (fun ke => test (fst ke) && expired now (snd ke) = true) l))
      (knowledge st).
Proof.
  revert res st. induction l as [|[k0 e0] l IH]; intros res st Hnd; [done|].
  apply NoDup_cons in Hnd as [Hk0 Hnd]. simpl in Hk0. apply get_None_keys in Hk0.
  cbn [fold_left]. rewrite filter_cons.
  unfold search_entry at 2 4. cbn [fst snd JsMap.get].
  destruct (test k0) eqn:Ht; [destruct (expired now e0) eqn:He|].
  - destruct (IH res (with_knowledge (JsMap.delete k0 (knowledge st)) st) Hnd) as [-> ->].
    case_decide as Hd; [|done]. split; [|done].
    destruct (String.eqb k k0) eqn:E; [|done].
    apply String.eqb_eq in E as ->. by rewrite Ht He Hk0.
  - destruct (IH (JsMap.set k0 (value e0) res) st Hnd) as [-> ->].
    case_decide as Hd; [done|]. split; [|done].
    destruct (String.eqb k k0) eqn:E.
    + apply String.eqb_eq in E as ->. by rewrite Ht He Hk0 get_set_eq.
    + apply String.eqb_neq in E. by rewrite get_set_ne.
  - destruct (IH res st Hnd) as [-> ->].
    case_decide as Hd; [done|]. split; [|done].
    destruct (String.eqb k k0) eqn:E; [|done].
    apply String.eqb_eq in E as ->. by rewrite Ht Hk0.
Qed.

(** X23: [search] answers, for every key that the pattern matches,
    what [retrieve] answers for that key, and nothing for any other key;
    on its way it removes from the hive the matching entries whose time to
    live has run out, and no other entry. *)
Theorem search_answers_as_retrieve_on_the_matching_keys
    (test : string -> bool) (now : Z) (k : string) (s : State) :
  NoDup (JsMap.keys (knowledge s)) ->
  JsMap.get k (fst (search test now s)) =
    (if test k then fst (retrieve k now s) else None) /\
  JsMap.get k (knowledge (snd (search test now s))) =
    match JsMap.get k (knowledge s) with
    | Some e => if test k && expired now e then None else Some e
    | None => None
    end.
Proof.
  intros Hnd. unfold search.
  destruct (search_fold test now k (knowledge s) [] s Hnd) as [-> ->]. split.
  - unfold retrieve. destruct (JsMap.get k (knowledge s)) as [e|]; [|by destruct (test k)].
    destruct (test k); [|done]. by destruct (expired now e).
  - rewrite get_fold_delete_keys. destruct (decide _) as [Hin|Hnin].
    + apply list_elem_of_fmap in Hin as ([k' e] & -> & [He Hin]%list_elem_of_filter).
      simpl in *. by rewrite (elem_get_NoDup _ _ _ Hnd Hin) He.
    + destruct (JsMap.get k (knowledge s)) as [e|] eqn:E; [|done].
      destruct (test k && expired now e) eqn:He; [|done].
      destruct Hnin. apply list_elem_of_fmap. exists (k, e). split; [done|].
      apply list_elem_of_filter. split; [done|]. by apply get_Some_elem.
Qed.

Lemma search_witness :
  JsMap.get "k2" (fst (search (fun _ => true) 100 HiveRuns.aging)) =
    fst (retrieve "k2" 100 HiveRuns.aging) /\
  JsMap.get "k2" (knowledge (snd (search (fun _ => true) 100 HiveRuns.aging))) =
    match JsMap.get "k2" (knowledge HiveRuns.aging) with
    | Some e => if true && expired 100 e then None else Some e
    | None => None
    end.
Proof.
  apply (search_answers_as_retrieve_on_the_matching_keys (fun _ => true) 100 "k2"
           HiveRuns.aging).
  apply (bool_decide_unpack _). vm_compute. exact I.
Defined.

(** *** The most trusted entries *)

Section SortedOn.
Context {A : Type} (cmp : A -> A -> comparison) (P : A -> Prop) (R : A -> A -> Prop).
Hypothesis R_trans : forall x y z, R x y -> R y z -> R x z.
Hypothesis not_Gt : forall x y, P x -> P y -> cmp x y <> Gt -> R x y.
Hypothesis is_Gt : forall x y, P x -> P y -> cmp x y = Gt -> R y x.

Lemma insert_sorted_on x l :
  P x -> Forall P l -> StronglySorted R l -> StronglySorted R (insert_sorted cmp x l).
Proof.
  intros Hx Hl Hs. induction Hs as [|y l Hs IH Hy]; simpl.
  - by repeat constructor.
  - apply Forall_cons in Hl as [Py Pl].
    assert (cmp x y <> Gt -> StronglySorted R (x :: y :: l)) as Hfront.
    { intros Hc. pose proof (not_Gt x y Hx Py Hc) as Hxy.
      constructor; [by constructor|]. constructor; [done|].
      eapply Forall_impl; [exact Hy|]. intros z Hz. by eapply R_trans. }
    destruct (cmp x y) eqn:Hc; try (apply Hfront; congruence).
    constructor; [by apply IH|].
    apply Forall_forall. intros z [->|Hz]%insert_sorted_elem.
    + by apply is_Gt.
    + by eapply Forall_forall in Hy.
Qed.

Lemma sort_sorted_on l : Forall P l -> StronglySorted R (sort cmp l).
Proof.
  induction l as [|x l IH]; simpl; [constructor|].
  intros [Px Pl]%Forall_cons. apply insert_sorted_on; [done| |by apply IH].
  by rewrite sort_perm.
Qed.
End SortedOn.

Lemma at_least_trans a b c : at_least a b -> at_least b c -> at_least a c.
Proof.
  destruct a as [x| |], b as [y| |], c as [z| |]; simpl; try done.
  intros H1 H2. by eapply Qle_trans.
Qed.

Lemma compare_top_not_Gt a b :
  confidence (snd a) <> NaN -> confidence (snd b) <> NaN ->
  compare_top a b <> Gt -> at_least (confidence (snd a)) (confidence (snd b)).
Proof.
  unfold compare_top, sign_of_difference, at_least.
  by destruct (confidence (snd a)) as [x| |], (confidence (snd b)) as [y| |].
Qed.

Lemma compare_top_Gt a b :
  confidence (snd a) <> NaN -> confidence (snd b) <> NaN ->
  compare_top a b = Gt -> at_least (confidence (snd b)) (confidence (snd a)).
Proof.
  unfold compare_top, sign_of_difference, at_least.
  destruct (confidence (snd a)) as [x| |], (confidence (snd b)) as [y| |]; try done.
  intros _ _ H. apply Qlt_le_weak. by apply Qgt_alt in H.
Qed.

Lemma StronglySorted_app_inv {A} (R : A -> A -> Prop) (l1 l2 : list A) :
  StronglySorted R (l1 ++ l2) ->
  StronglySorted R l1 /\ forall x y, x ∈ l1 -> y ∈ l2 -> R x y.
Proof.
  induction l1 as [|a l1 IH]; simpl; intros Hs.
  - split; [constructor|]. intros x y Hx. by apply elem_of_nil in Hx.
  - apply StronglySorted_inv in Hs as [Hs Ha]. destruct (IH Hs) as [IH1 IH2].
    apply Forall_app in Ha as [Ha1 Ha2]. split; [by constructor|].
    intros x y [->|Hx]%elem_of_cons Hy; [|by apply IH2].
    by eapply Forall_forall in Ha2.
Qed.

(** X24: when no stored confidence is [NaN], [getTopKnowledge(limit)]
    lists [limit] entries of the hive, or all of them when there are
    fewer, with their keys, confidences and numbers of votes, in the order
    of descending confidence, and each entry that it leaves out has a
    confidence that is not above that of any listed one. *)
Theorem getTopKnowledge_lists_the_most_trusted_entries (limit : Z) (s : State) :
  0 <= limit ->
  numbers_only (knowledge s) ->
  exists chosen rest,
    getTopKnowledge limit s =
      (fun ke => mkTopEntry (fst ke) (confidence (snd ke)) (JsMap.size (votes (snd ke))))
        <$> chosen /\
    chosen ++ rest ≡ₚ knowledge s /\
    Z.of_nat (length chosen) = Z.min limit (JsMap.size (knowledge s)) /\
    StronglySorted (fun a b => at_least (confidence (snd a)) (confidence (snd b))) chosen /\
    forall x y, x ∈ chosen -> y ∈ rest ->
      at_least (confidence (snd x)) (confidence (snd y)).
Proof.
  intros Hlimit Hnum.
  set (sorted := sort compare_top (knowledge s)).
  exists (take (Z.to_nat limit) sorted), (drop (Z.to_nat limit) sorted).
  assert (StronglySorted (fun a b => at_least (confidence (snd a)) (confidence (snd b)))
            sorted) as Hsorted.
  { apply (sort_sorted_on compare_top (fun ke => confidence (snd ke) <> NaN)); [| | |done].
    - intros x y z. apply at_least_trans.
    - intros x y. apply compare_top_not_Gt.
    - intros x y. apply compare_top_Gt. }
  rewrite -(take_drop (Z.to_nat limit) sorted) in Hsorted.
  apply StronglySorted_app_inv in Hsorted as [Hchosen Hrest].
  split_and!; try done.
  - by rewrite take_drop /sorted sort_perm.
  - rewrite length_take /sorted (Permutation_length (sort_perm _ _)) /JsMap.size. lia.
Qed.

Lemma getTopKnowledge_witness :
  exists chosen rest,
    getTopKnowledge 2 HiveScenarios.four_keys =
      (fun ke => mkTopEntry (fst ke) (confidence (snd ke)) (JsMap.size (votes (snd ke))))
        <$> chosen /\
    chosen ++ rest ≡ₚ knowledge HiveScenarios.four_keys /\
    Z.of_nat (length chosen) = Z.min 2 (JsMap.size (knowledge HiveScenarios.four_keys)) /\
    StronglySorted (fun a b => at_least (confidence (snd a)) (confidence (snd b))) chosen /\
    forall x y, x ∈ chosen -> y ∈ rest ->
      at_least (confidence (snd x)) (confidence (snd y)).
Proof.
  apply (getTopKnowledge_lists_the_most_trusted_entries 2 HiveScenarios.four_keys).
  - done.
  - vm_compute. repeat constructor; discriminate.
Defined.
End KnowledgeFacts.

(** ** The memory store and the persistence of knowledge *)

Module PersistenceFacts.
Import HiveMind HivePersistence.

Section StoreFacts.
Context {V : Type}.
Implicit Types (store : list (string * MemoryStore.Item V)).

(** X25: the in-memory store of the coordinator answers a [get] with
    the value that the last [set] of the key stored, as long as the time
    to live of that [set] has not run out; a time to live of zero, like
    none, never runs out. The expiry is lazy: [keys] lists the key until
    a [get] after the expiry has answered [null] and removed it; a [set]
    changes the answer for no other key. *)
Theorem memory_store_get_after_set
    (key : string) (v : V) (ttl : option Z) (now later : Z) store :
  let store' := MemoryStore.set key v ttl now store in
  let live := match ttl with
              | Some t => (t =? 0) || (now + t =? 0) || (later <=? now + t)
              | None => true
              end in
  MemoryStore.get key later store' =
    (if live then (Some v, store') else (None, MemoryStore.delete key store')) /\
  (key ∈ MemoryStore.keys store') /\
  (key ∉ MemoryStore.keys (MemoryStore.delete key store')) /\
  forall other,
    other <> key ->
    fst (MemoryStore.get other later store') = fst (MemoryStore.get other later store).
Proof.
  intros store' live. subst store' live.
  unfold MemoryStore.get, MemoryStore.set, MemoryStore.keys, MemoryStore.delete.
  split_and!.
  - rewrite get_set_eq /MemoryStore.stale /MemoryStore.expiry_of /=.
    destruct ttl as [t|]; [|done]. destruct (t =? 0) eqn:Et; simpl; [done|].
    destruct (now + t =? 0) eqn:E0; simpl; [done|].
    destruct (Z.ltb_spec (now + t) later), (Z.leb_spec later (now + t)); (done || lia).
  - apply dec_stable. intros Hnin. apply get_None_keys in Hnin.
    by rewrite get_set_eq in Hnin.
  - apply (proj1 (get_None_keys _ _)), get_delete_eq.
  - intros other Hne. rewrite get_set_ne //.
    destruct (JsMap.get other store) as [item|]; [|done].
    by destruct (MemoryStore.stale later item).
Qed.
End StoreFacts.

Lemma memory_store_witness :
  fst (MemoryStore.get "a" 7 (MemoryStore.set "b" 2 (Some 5) 1 [("a", MemoryStore.mkItem 1 None)]))
  = fst (MemoryStore.get "a" 7 [("a", MemoryStore.mkItem 1 None)]).
Proof.
  destruct (memory_store_get_after_set "b" 2 (Some 5) 1 7 [("a", MemoryStore.mkItem 1 None)])
    as (_ & _ & _ & H).
  by apply H.
Defined.

(** *** [persistKnowledge] and [loadKnowledge] *)

Lemma set_absent {V} k (v : V) m : k ∉ JsMap.keys m -> JsMap.set k v m = m ++ [(k, v)].
Proof.
  induction m as [|[k' v'] m IH]; simpl; [done|]. intros Hnin.
  destruct (String.eqb k k') eqn:E.
  - apply String.eqb_eq in E as ->. set_solver.
  - rewrite IH; [set_solver|done].
Qed.

Lemma append_inj p a b : p +:+ a = p +:+ b -> a = b.
Proof. induction p as [|c p IH]; simpl; [done|]. intros [= H]. by apply IH. Qed.

Lemma prefix_append p a : String.prefix p (p +:+ a) = true.
Proof.
  induction p as [|c p IH]; simpl; [by destruct a|].
  destruct (ascii_dec c c); [done|congruence].
Qed.

Lemma persist_fold now (l : list (string * KnowledgeEntry))
    (store : list (string * MemoryStore.Item KnowledgeEntry)) (n : Z) :
  NoDup (JsMap.keys store ++ ((fun k => prefix_ +:+ k) <$> JsMap.keys l)) ->
  fold_left
    (fun acc ke => (MemoryStore.set (prefix_ +:+ fst ke) (snd ke) None now (fst acc),
                    snd acc + 1))
    l (store, n) =
  (store ++ ((fun ke => (prefix_ +:+ fst ke, MemoryStore.mkItem (snd ke) None)) <$> l),
   n + Z.of_nat (length l)).
Proof.
  revert store n. induction l as [|[k e] l IH]; intros store n Hnd.
  - simpl. by rewrite app_nil_r Z.add_0_r.
  - cbn [fold_left fst snd]. rewrite /MemoryStore.set /MemoryStore.expiry_of.
    rewrite set_absent.
    { apply NoDup_app in Hnd as (_ & Hdis & _). intros Hin. apply (Hdis _ Hin).
      csimpl. set_solver. }
    rewrite IH.
    + rewrite /JsMap.keys fmap_app -app_assoc. exact Hnd.
    + rewrite -app_assoc /=. f_equal. lia.
Qed.

Lemma get_fmap_inj {V W} (f : string -> string) (g : V -> W) (m : list (string * V)) k :
  (forall a b, f a = f b -> a = b) ->
  JsMap.get (f k) ((fun kv => (f (fst kv), g (snd kv))) <$> m) = g <$> JsMap.get k m.
Proof.
  intros Hf. induction m as [|[k' v'] m IH]; csimpl; [done|].
  destruct (String.eqb k k') eqn:E.
  - apply String.eqb_eq in E as ->. by rewrite String.eqb_refl.
  - apply String.eqb_neq in E.
    destruct (String.eqb (f k) (f k')) eqn:E'; [|done].
    apply String.eqb_eq, Hf in E'. done.
Qed.

(** The reads of [loadKnowledge] on a store that holds the entries of
    [l] under the prefixed keys, none with an expiry. *)
Lemma read_fold later (l : list (string * KnowledgeEntry)) (ks : list string)
    (acc : list KnowledgeEntry) :
  let store := (fun ke => (prefix_ +:+ fst ke, MemoryStore.mkItem (snd ke) None)) <$> l in
  fold_left
    (fun acc key =>
       match MemoryStore.get key later (snd acc) with
       | (Some entry, store') => (fst acc ++ [entry], store')
       | (None, store') => (fst acc, store')
       end)
    ((fun k => prefix_ +:+ k) <$> ks) (acc, store) =
  (acc ++ omap (fun k => JsMap.get k l) ks, store).
Proof.
  intros store. revert acc. induction ks as [|k ks IH]; intros acc.
  - simpl. by rewrite app_nil_r.
  - cbn [fmap list_fmap fold_left snd fst]. csimpl.
    rewrite /MemoryStore.get.
    rewrite (get_fmap_inj (fun k => prefix_ +:+ k)
               (fun e : KnowledgeEntry => MemoryStore.mkItem e None) l k (append_inj prefix_)).
    destruct (JsMap.get k l) as [e|]; simpl.
    + rewrite IH -app_assoc //.
    + by rewrite IH.
Qed.

Lemma omap_get_other {V} k (v : V) (l : list (string * V)) (ks : list string) :
  k ∉ ks ->
  omap (fun k' => JsMap.get k' ((k, v) :: l)) ks = omap (fun k' => JsMap.get k' l) ks.
Proof.
  induction ks as [|k0 ks IH]; [done|]. intros Hnin. csimpl.
  destruct (String.eqb k0 k) eqn:E.
  - apply String.eqb_eq in E as ->. set_solver.
  - rewrite IH; [set_solver|done].
Qed.

Lemma omap_get_keys {V} (l : list (string * V)) :
  NoDup (JsMap.keys l) -> omap (fun k => JsMap.get k l) (JsMap.keys l) = snd <$> l.
Proof.
  induction l as [|[k v] l IH]; [done|]. intros [Hk Hnd]%NoDup_cons. csimpl.
  rewrite String.eqb_refl. f_equal. rewrite -(IH Hnd).
  by apply omap_get_other.
Qed.

Lemma load_fold (l acc : list (string * KnowledgeEntry)) :
  NoDup (JsMap.keys acc ++ JsMap.keys l) -> filed_by_key l ->
  fold_left (fun m e => JsMap.set (key e) e m) (snd <$> l) acc = acc ++ l.
Proof.
  revert acc. induction l as [|[k e] l IH]; intros acc Hnd Hfiled.
  - by rewrite app_nil_r.
  - apply Forall_cons in Hfiled as [Hk Hfiled]. simpl in Hk. csimpl. rewrite Hk.
    rewrite set_absent.
    { apply NoDup_app in Hnd as (_ & Hdis & _). intros Hin. apply (Hdis _ Hin).
      csimpl. set_solver. }
    rewrite IH; [|done|by rewrite -app_assoc].
    rewrite /JsMap.keys fmap_app -app_assoc. exact Hnd.
Qed.

Lemma filter_all {A} (P : A -> Prop) `{forall x, Decision (P x)} (l : list A) :
  Forall P l -> filter P l = l.
Proof.
  induction 1 as [|x l Hx Hl IH]; [done|].
  rewrite filter_cons. case_decide; [|done]. by rewrite IH.
Qed.

(** X26: knowledge that is persisted into an empty store and loaded
    from it into a hive without knowledge arrives whole and in order:
    every entry is read back under its key, whatever time has passed, and
    both events carry the number of entries. *)
Theorem knowledge_survives_persist_and_load (now later : Z) (s fresh : State) :
  NoDup (JsMap.keys (knowledge s)) ->
  filed_by_key (knowledge s) ->
  knowledge fresh = [] ->
  let persisted := persistKnowledge now s [] in
  let loaded := loadKnowledge_from later (fst persisted) fresh in
  knowledge (fst (fst loaded)) = knowledge s /\
  snd (fst loaded) = fst persisted /\
  snd persisted = JsMap.size (knowledge s) /\
  snd loaded = JsMap.size (knowledge s).
Proof.
  intros Hnd Hfiled Hfresh persisted loaded.
  assert (persisted =
          ((fun ke => (prefix_ +:+ fst ke, MemoryStore.mkItem (snd ke) None)) <$> knowledge s,
           JsMap.size (knowledge s))) as Hp.
  { subst persisted. rewrite /persistKnowledge persist_fold //=.
    apply NoDup_fmap_2; [|done]. intros a b. apply append_inj. }
  assert (read_entries later (fst persisted) = (snd <$> knowledge s, fst persisted)) as Hread.
  { rewrite Hp /=. rewrite /read_entries /MemoryStore.keys.
    assert (JsMap.keys ((fun ke => (prefix_ +:+ fst ke, MemoryStore.mkItem (snd ke) None))
                          <$> knowledge s) =
            (fun k => prefix_ +:+ k) <$> JsMap.keys (knowledge s)) as ->.
    { rewrite /JsMap.keys -!list_fmap_compose. done. }
    rewrite filter_all.
    { apply Forall_fmap, Forall_forall. intros k _. apply prefix_append. }
    rewrite read_fold /=. by rewrite omap_get_keys. }
  subst loaded. rewrite /loadKnowledge_from Hread /loadKnowledge /= Hfresh.
  rewrite load_fold //. by rewrite Hp.
Qed.

Lemma knowledge_survives_witness :
  let persisted := persistKnowledge 10 HiveScenarios.four_keys [] in
  let loaded := loadKnowledge_from 99 (fst persisted) HiveScenarios.three_slots in
  knowledge (fst (fst loaded)) = knowledge HiveScenarios.four_keys /\
  snd (fst loaded) = fst persisted /\
  snd persisted = JsMap.size (knowledge HiveScenarios.four_keys) /\
  snd loaded = JsMap.size (knowledge HiveScenarios.four_keys).
Proof.
  apply (knowledge_survives_persist_and_load 10 99 HiveScenarios.four_keys
           HiveScenarios.three_slots).
  - apply (bool_decide_unpack _). vm_compute. exact I.
  - vm_compute. repeat constructor.
  - reflexivity.
Defined.
End PersistenceFacts.

(** ** The life cycle of the coordinator *)

Module LifecycleFacts.
Import Orchestrator Conditions OrchestratorFacts SchedulingFacts.



(** X28: a running swarm can be paused and then resumed: while it is
    paused the ticks of the orchestrator change nothing and [submitTask]
    refuses, and after [resume] the swarm is RUNNING over an orchestrator
    that runs again and has the heap, task map, queue and agents that it
    had before the pause. *)
Theorem pause_and_resume_of_a_running_swarm (s : SwarmCoordinator.State) :
  SwarmCoordinator._state s = SwarmCoordinator.RUNNING ->
  exists p r,
    SwarmLifecycle.pause s = Ok p /\
    SwarmCoordinator._state p = SwarmCoordinator.PAUSED /\
    (forall now,
       processTasks now (SwarmCoordinator.taskOrchestrator p) =
         Some (SwarmCoordinator.taskOrchestrator p)) /\
    (forall task uuid,
       SwarmCoordinator.submitTask task uuid p =
         Throw "Cannot submit task in state: paused") /\
    SwarmLifecycle.resume p = Ok r /\
    SwarmCoordinator._state r = SwarmCoordinator.RUNNING /\
    running (SwarmCoordinator.taskOrchestrator r) = true /\
    heap (SwarmCoordinator.taskOrchestrator r) = heap (SwarmCoordinator.taskOrchestrator s) /\
    tasks (SwarmCoordinator.taskOrchestrator r) = tasks (SwarmCoordinator.taskOrchestrator s) /\
    queue (SwarmCoordinator.taskOrchestrator r) = queue (SwarmCoordinator.taskOrchestrator s) /\
    agents (SwarmCoordinator.taskOrchestrator r) = agents (SwarmCoordinator.taskOrchestrator s).
Proof.
  intros Hst. unfold SwarmLifecycle.pause. rewrite Hst.
  eexists _, _. split; [reflexivity|]. simpl. split_and!; done.
Qed.

Lemma pause_and_resume_witness :
  exists p r,
    SwarmLifecycle.pause Runs.swarm_accepted = Ok p /\
    SwarmCoordinator._state p = SwarmCoordinator.PAUSED /\
    (forall now,
       processTasks now (SwarmCoordinator.taskOrchestrator p) =
         Some (SwarmCoordinator.taskOrchestrator p)) /\
    (forall task uuid,
       SwarmCoordinator.submitTask task uuid p =
         Throw "Cannot submit task in state: paused") /\
    SwarmLifecycle.resume p = Ok r /\
    SwarmCoordinator._state r = SwarmCoordinator.RUNNING /\
    running (SwarmCoordinator.taskOrchestrator r) = true /\
    heap (SwarmCoordinator.taskOrchestrator r) =
      heap (SwarmCoordinator.taskOrchestrator Runs.swarm_accepted) /\
    tasks (SwarmCoordinator.taskOrchestrator r) =
      tasks (SwarmCoordinator.taskOrchestrator Runs.swarm_accepted) /\
    queue (SwarmCoordinator.taskOrchestrator r) =
      queue (SwarmCoordinator.taskOrchestrator Runs.swarm_accepted) /\
    agents (SwarmCoordinator.taskOrchestrator r) =
      agents (SwarmCoordinator.taskOrchestrator Runs.swarm_accepted).
Proof.
  apply (pause_and_resume_of_a_running_swarm Runs.swarm_accepted). reflexivity.
Defined.

Lemma running_on_reset a b t :
  running_on a (if running_on b t then set_status PENDING (set_assignedAgent None t) else t) =
    running_on a t && negb (running_on b t).
Proof.
  destruct (running_on b t) eqn:E; [|by rewrite andb_true_r].
  by rewrite andb_false_r.
Qed.

Lemma running_on_one_agent a b t :
  a <> b -> running_on a t = true -> running_on b t = false.
Proof.
  unfold running_on. destruct (assignedAgent t) as [x|]; [|done].
  intros Hne [Ha _]%andb_true_iff. apply String.eqb_eq in Ha as ->.
  destruct (String.eqb a b) eqn:E; [|done]. by apply String.eqb_eq in E.
Qed.

(** X29: when [scaleDown] returns, the swarm is RUNNING and no task of
    the task map is RUNNING on an agent that was removed; a task that was
    RUNNING on an agent that stays is still RUNNING on it. *)
Theorem scaleDown_leaves_no_task_running_on_a_removed_agent
    (removed : list string) (s s' : SwarmCoordinator.State) (taskId agent : string)
    (t : TaskInstance) :
  SwarmLifecycle.scaleDown removed s = Ok s' ->
  task_of taskId (SwarmCoordinator.taskOrchestrator s') = Some t ->
  SwarmCoordinator._state s' = SwarmCoordinator.RUNNING /\
  (agent ∈ removed -> running_on agent t = false) /\
  (agent ∉ removed ->
   exists t0, task_of taskId (SwarmCoordinator.taskOrchestrator s) = Some t0 /\
              running_on agent t = running_on agent t0).
Proof.
  unfold SwarmLifecycle.scaleDown.
  destruct (SwarmCoordinator._state s); try done. intros [= <-]. simpl.
  generalize (SwarmCoordinator.taskOrchestrator s) as o. intros o Ht.
  split; [done|].
  revert o t Ht. induction removed as [|b removed IH] using rev_ind; intros o t Ht.
  - simpl in Ht. split; [set_solver|]. intros _. by exists t.
  - rewrite fold_left_app /= task_of_unregisterAgent in Ht.
    destruct (task_of taskId (fold_left _ removed o)) as [t1|] eqn:Ht1; [|done].
    injection Ht as <-. destruct (IH o t1 Ht1) as [IH1 IH2].
    rewrite running_on_reset. split.
    + intros [Hin| ->%list_elem_of_singleton]%elem_of_app.
      * by rewrite IH1.
      * by destruct (running_on b t1).
    + intros Hnin. destruct IH2 as (t0 & Ht0 & Heq); [set_solver|].
      exists t0. split; [done|]. rewrite -Heq.
      assert (agent <> b) as Hne by set_solver.
      destruct (running_on agent t1) eqn:Ea; [|done].
      by rewrite (running_on_one_agent agent b t1 Hne Ea).
Qed.

Lemma scaleDown_witness :
  exists t,
    task_of "solo" (SwarmCoordinator.taskOrchestrator SwarmRuns.swarm_scaled_down) = Some t /\
    SwarmCoordinator._state SwarmRuns.swarm_scaled_down = SwarmCoordinator.RUNNING /\
    running_on "w1" t = false.
Proof.
  eexists. split; [vm_compute; reflexivity|].
  edestruct (scaleDown_leaves_no_task_running_on_a_removed_agent ["w1"]
               SwarmRuns.swarm_busy SwarmRuns.swarm_scaled_down "solo" "w1")
    as (Hst & Hgone & _); [reflexivity | vm_compute; reflexivity |].
  split; [exact Hst|]. apply Hgone. apply list_elem_of_here.
Defined.

(** *** One task for an agent in a tick *)

Lemma config_assignTaskToAgent r agent now s :
  config (assignTaskToAgent r agent now s) = config s /\
  agents (assignTaskToAgent r agent now s) = agents s.
Proof.
  unfold assignTaskToAgent, executeTask_begin. destruct (heap s !! r) eqn:E; [|done].
  rewrite /emit /= list_lookup_alter_eq E /=. done.
Qed.

Lemma length_remove_agent a l : a ∈ l -> length l = S (length (remove_agent a l)).
Proof.
  induction l as [|x l IH]; [set_solver|]. simpl.
  destruct (String.eqb x a) eqn:E; [done|].
  apply String.eqb_neq in E. intros Hin. rewrite IH; [set_solver|done].
Qed.

Lemma queue_size_add_le hp r q :
  queue_size q <= queue_size (queue_add hp r q) <= queue_size q + 1.
Proof.
  destruct q as [c h m l|l]; simpl.
  - destruct (hp !! r ≫= priority) as [[]|]; simpl; rewrite ?length_app /=; lia.
  - rewrite length_app /=. lia.
Qed.

Lemma assignTasks_loop_bound fuel now :
  forall available s s',
    (forall t avail a, strategy (config s) t avail = Some a -> a ∈ avail) ->
    assignTasks_loop fuel now available s = Some s' ->
    0 <= queue_size (queue s) - queue_size (queue s') <= Z.of_nat (length available).
Proof.
  induction fuel as [|fuel IH]; intros available s s' Hstrat; simpl.
  - destruct (_ && _); [done|]. intros [= <-]. lia.
  - destruct (_ && _) eqn:Hcond; [|intros [= <-]; lia].
    apply andb_true_iff in Hcond as [_ Havail].
    assert (0 < length available)%nat as Hpos by (destruct available; simpl in *; [done|lia]).
    destruct (queue_getNext (queue s)) as [[r q']|] eqn:E; [|intros [= <-]; lia].
    apply getNext_elements in E.
    assert (queue_size (queue s) = queue_size q' + 1) as Hsize
      by (rewrite !queue_size_elements; lia).
    destruct (ask_strategy _ _ _) as [agent|] eqn:Hask.
    + intros Hloop.
      assert (agent ∈ available) as Hin.
      { unfold ask_strategy in Hask. simpl in Hask.
        destruct (heap s !! r); [|done]. by eapply Hstrat. }
      apply IH in Hloop.
      * rewrite queue_assignTaskToAgent /= in Hloop.
        rewrite (length_remove_agent agent available Hin). lia.
      * intros t avail a.
        destruct (config_assignTaskToAgent r agent now (with_queue q' s)) as [-> _].
        apply Hstrat.
    + intros [= <-]. simpl.
      pose proof (queue_size_add_le (heap s) r q'). lia.
Qed.

(** X30: a tick hands an agent one task at most: when the strategy
    answers with one of the agents that it was offered, the number of
    tasks that leave the ready queue in the assignment phase is not above
    the number of registered agents, however many tasks are waiting. *)
Theorem assignTasks_hands_an_agent_one_task_at_most
    (now : Z) (s s' : State) :
  (forall t avail a, strategy (config s) t avail = Some a -> a ∈ avail) ->
  assignTasks now s = Some s' ->
  0 <= queue_size (queue s) - queue_size (queue s') <= JsMap.size (agents s).
Proof.
  intros Hstrat Hloop. apply assignTasks_loop_bound in Hloop; [|done].
  by rewrite /JsMap.values length_fmap in Hloop.
Qed.

Lemma assignTasks_witness :
  0 <= queue_size (queue SwarmRuns.three_for_two) -
       queue_size (queue SwarmRuns.three_for_two_assigned) <= 2.
Proof.
  apply (assignTasks_hands_an_agent_one_task_at_most 10 SwarmRuns.three_for_two
           SwarmRuns.three_for_two_assigned).
  - intros t avail a. simpl. unfold Scenarios.first_available.
    destruct avail; [done|]. intros [= ->]. apply list_elem_of_here.
  - vm_compute. reflexivity.
Defined.
End LifecycleFacts.
